(** * ViSTA Simulation Format Validator: processor.py and validator.py

    A shallow embedding of the validation and extraction pipeline:
    [load_vut], [load_actors], [extract_actors] and [evaluate] of
    processor.py, [validate_vut] and [validate_actors] of validator.py, and
    the actor type names of config.py, and of main.py the part of
    [batch_upload] that filters the actor buffer of a run and validates the
    run at index time.  The archive handling and the other web routes of
    main.py, and [merge_data], are not part of it.

    Data model.  A pandas DataFrame is a row count together with an ordered
    list of named columns; a column is a list of cells.  A cell is either a
    number (an IEEE-754 binary64 value, Rocq's primitive [float], which is
    what a float64 column holds) or a string (what an object column holds).
    A missing value is the float NaN, as in pandas.  A column of integers
    is read as the floats of the same values, which is exact below 2^53.

    Effects.  Python exceptions are values of [exn]; a function that can
    raise returns a [result], and statements are sequenced in the order in
    which Python evaluates them, so the first exception is the one
    returned.

    What the code takes from Python and pandas and does not define itself
    (the two file parsers, [float] and [int] on strings, [round] on finite
    floats, [str] on floats) is a field of the class [PyEnv]; every
    theorem holds for every such environment. *)

From Stdlib Require Import ZArith List String Ascii Bool Lia Floats Permutation.
From Stdlib Require Strings.Byte.
From Stdlib Require Import DecimalString.
Import ListNotations.

Set Warnings "-inexact-float".

Local Open Scope string_scope.
Local Open Scope list_scope.

(** ** Exceptions and results *)

Inductive exn : Type :=
| ParseError
| KeyError (name : string)
| IndexError
| TypeError
| ValueError
| OverflowError.

Inductive result (A : Type) : Type :=
| Ok (a : A)
| Raise (e : exn).

Arguments Ok {A} a.
Arguments Raise {A} e.

Definition bind {A B : Type} (r : result A) (k : A -> result B) : result B :=
  match r with
  | Ok a => k a
  | Raise e => Raise e
  end.

Notation "x <- r ;; k" := (bind r (fun x => k))
  (at level 61, r at next level, right associativity).

Fixpoint mapM {A B : Type} (f : A -> result B) (l : list A) : result (list B) :=
  match l with
  | [] => Ok []
  | a :: l' =>
      b <- f a ;;
      bs <- mapM f l' ;;
      Ok (b :: bs)
  end.

(** ** Cells *)

Inductive cell : Type :=
| Num (f : float)
| Str (s : string).

Definition NaN : cell := Num nan.

(** [pd.isna] on one cell. *)
Definition isna (c : cell) : bool :=
  match c with
  | Num f => is_nan f
  | Str _ => false
  end.

Definition is_num (c : cell) : bool :=
  match c with
  | Num _ => true
  | Str _ => false
  end.

(** [Series.fillna(d)]. *)
Definition fillna (d : float) (col : list cell) : list cell :=
  map (fun c => if isna c then Num d else c) col.

(** [Series.dropna()]. *)
Definition dropna (col : list cell) : list cell :=
  filter (fun c => negb (isna c)) col.

(** Elementwise [==] of two cells: numbers by IEEE equality (NaN differs
    from itself, the two zeros are equal), strings by content. *)
Definition cell_eqb (a b : cell) : bool :=
  match a, b with
  | Num x, Num y => PrimFloat.eqb x y
  | Str s, Str t => String.eqb s t
  | _, _ => false
  end.

(** The equality of [Series.unique()]: as [cell_eqb], with all NaN alike. *)
Definition cell_same (a b : cell) : bool :=
  cell_eqb a b || (isna a && isna b).

(** Binary arithmetic on cells; a string operand raises [TypeError]. *)
Definition cell_op (op : float -> float -> float) (a b : cell) : result cell :=
  match a, b with
  | Num x, Num y => Ok (Num (op x y))
  | _, _ => Raise TypeError
  end.

(** An ordering test on a cell against a numeric bound. *)
Definition cell_cmp (cmp : float -> float -> bool) (a : cell) (bound : float)
  : result bool :=
  match a with
  | Num x => Ok (cmp x bound)
  | Str _ => Raise TypeError
  end.

Definition cell_lt (a : cell) (bound : float) : result bool :=
  cell_cmp PrimFloat.ltb a bound.

Definition cell_gt (a : cell) (bound : float) : result bool :=
  cell_cmp (fun x b => PrimFloat.ltb b x) a bound.

(** ** Floats as numbers *)

(** [int(x)] on a finite float: truncation towards zero. *)
Definition float_trunc (x : float) : Z :=
  match Prim2SF x with
  | S754_finite s m e =>
      let v := if (0 <=? e)%Z then Z.shiftl (Z.pos m) e
               else Z.shiftr (Z.pos m) (- e) in
      if s then (- v)%Z else v
  | _ => 0%Z
  end.

(** [x.is_integer()]. *)
Definition float_is_integer (x : float) : bool :=
  match Prim2SF x with
  | S754_zero _ => true
  | S754_finite _ m e =>
      (0 <=? e)%Z || (Z.pos m mod 2 ^ (- e) =? 0)%Z
  | _ => false
  end.

(** ** Strings *)

Definition is_space (a : ascii) : bool :=
  let n := nat_of_ascii a in
  ((9 <=? n) && (n <=? 13))%nat || ((28 <=? n) && (n <=? 32))%nat.

Fixpoint lstrip (s : list ascii) : list ascii :=
  match s with
  | [] => []
  | a :: s' => if is_space a then lstrip s' else s
  end.

(** [str.strip()], on ASCII white space. *)
Definition strip (s : string) : string :=
  string_of_list_ascii
    (rev (lstrip (rev (lstrip (list_ascii_of_string s))))).

(** [sep.join(l)]. *)
Fixpoint join (sep : string) (l : list string) : string :=
  match l with
  | [] => ""
  | [s] => s
  | s :: l' => (s ++ sep ++ join sep l')%string
  end.

Definition string_of_nat (n : nat) : string :=
  NilZero.string_of_uint (Nat.to_uint n).

Definition string_of_Z (z : Z) : string :=
  NilZero.string_of_int (Z.to_int z).

(** ** Data frames *)

Record DataFrame : Type := {
  nrows : nat;
  columns : list (string * list cell)
}.

Definition col_names (df : DataFrame) : list string := map fst (columns df).

(** [name in df.columns]. *)
Definition has_col (df : DataFrame) (name : string) : bool :=
  existsb (String.eqb name) (col_names df).

Fixpoint lookup_col (name : string) (cols : list (string * list cell))
  : option (list cell) :=
  match cols with
  | [] => None
  | (n, c) :: cols' => if String.eqb name n then Some c else lookup_col name cols'
  end.

(** [df[name]]. *)
Definition get_col (df : DataFrame) (name : string) : result (list cell) :=
  match lookup_col name (columns df) with
  | Some c => Ok c
  | None => Raise (KeyError name)
  end.

Fixpoint replace_col (name : string) (vals : list cell)
  (cols : list (string * list cell)) : list (string * list cell) :=
  match cols with
  | [] => [(name, vals)]
  | (n, c) :: cols' =>
      if String.eqb name n then (n, vals) :: cols'
      else (n, c) :: replace_col name vals cols'
  end.

(** [df[name] = vals]: overwrite the column, or append it as the last one. *)
Definition set_col (df : DataFrame) (name : string) (vals : list cell)
  : DataFrame :=
  {| nrows := nrows df; columns := replace_col name vals (columns df) |}.

(** [series.iloc[0]]. *)
Definition iloc0 (col : list cell) : result cell :=
  match col with
  | [] => Raise IndexError
  | c :: _ => Ok c
  end.

(** [series[mask]], [df.loc[mask, name]]: the cells whose mask bit is set. *)
Fixpoint select {A : Type} (mask : list bool) (col : list A) : list A :=
  match mask, col with
  | b :: mask', c :: col' => if b then c :: select mask' col' else select mask' col'
  | _, _ => []
  end.

(** [df.loc[mask, name] = vals]: the cells whose mask bit is set take the
    values of [vals] in order, the others are kept. *)
Fixpoint scatter {A : Type} (mask : list bool) (col vals : list A) : list A :=
  match mask, col with
  | b :: mask', c :: col' =>
      if b then
        match vals with
        | v :: vals' => v :: scatter mask' col' vals'
        | [] => c :: scatter mask' col' []
        end
      else c :: scatter mask' col' vals
  | _, _ => col
  end.

(** [df[mask]]: the rows whose mask bit is set, in every column. *)
Definition filter_rows (mask : list bool) (df : DataFrame) : DataFrame :=
  {| nrows := List.length (select mask (repeat tt (nrows df)));
     columns := map (fun nc => (fst nc, select mask (snd nc))) (columns df) |}.

(** [df.iloc[p]]: the rows at the positions [p], in that order. *)
Definition take_rows (p : list nat) (df : DataFrame) : DataFrame :=
  {| nrows := List.length p;
     columns := map (fun nc => (fst nc, map (fun i => nth i (snd nc) NaN) p))
                    (columns df) |}.

(** Every column has one cell per row; names are distinct once stripped. *)
Definition well_formed (df : DataFrame) : Prop :=
  Forall (fun nc => List.length (snd nc) = nrows df) (columns df) /\
  NoDup (map strip (col_names df)).

(** [df.columns = [str(c).strip() for c in df.columns]]. *)
Definition strip_columns (df : DataFrame) : DataFrame :=
  {| nrows := nrows df;
     columns := map (fun nc => (strip (fst nc), snd nc)) (columns df) |}.

(** [df.loc[:, ~df.columns.str.startswith("Unnamed")]]. *)
Definition drop_unnamed (df : DataFrame) : DataFrame :=
  {| nrows := nrows df;
     columns := filter (fun nc => negb (String.prefix "Unnamed" (fst nc)))
                       (columns df) |}.

(** [Series.unique()]: first occurrences, in order of appearance. *)
Fixpoint unique_from (seen : list cell) (col : list cell) : list cell :=
  match col with
  | [] => []
  | c :: col' =>
      if existsb (cell_same c) seen then unique_from seen col'
      else c :: unique_from (c :: seen) col'
  end.

Definition unique (col : list cell) : list cell := unique_from [] col.

(** ** What the code takes from Python and pandas *)

Definition bytes : Type := list Byte.byte.

Class PyEnv : Type := {
  (** [pd.read_excel(io.BytesIO(b), engine='openpyxl')] *)
  read_excel : bytes -> result DataFrame;
  (** [pd.read_csv(io.BytesIO(b))] *)
  read_csv : bytes -> result DataFrame;
  (** [float(s)] on a string; [None] is [ValueError] *)
  float_of_str : string -> option float;
  (** [int(s)] on a string; [None] is [ValueError] *)
  int_of_str : string -> option Z;
  (** [round(x, ndigits)] on a finite float *)
  round_finite : Z -> float -> float;
  (** [str(x)] on a float *)
  str_of_float : float -> string
}.

(** ** config.py *)

Definition ACTOR_TYPE_NAMES : list (Z * string) :=
  [ (0, "pedestrian"); (1, "PMD"); (2, "cyclist"); (3, "animal");
    (4, "passenger_vehicle"); (5, "motorcycle"); (6, "fire_truck");
    (7, "ambulance"); (8, "van"); (9, "trailer"); (10, "truck");
    (11, "bus"); (20, "construction_cone"); (99, "others") ]%Z.

Fixpoint dict_get (d : list (Z * string)) (k : Z) (default : string) : string :=
  match d with
  | [] => default
  | (k', v) :: d' => if (k =? k')%Z then v else dict_get d' k default
  end.

(** [config.ACTOR_TYPE_NAMES.get(atype, f"type_{atype}")]. *)
Definition actor_type_name_of (atype : Z) : string :=
  dict_get ACTOR_TYPE_NAMES atype ("type_" ++ string_of_Z atype)%string.

(** ** validator.py *)

Definition VUT_REQUIRED_COLS : list string :=
  [ "Time"; "Step_number"; "VUT_pos_lat"; "VUT_pos_lng"; "VUT_heading";
    "VUT_vel_abs" ].

Definition ACTOR_REQUIRED_COLS : list string :=
  [ "Time"; "Step_number"; "Actor_Id"; "Actor_type"; "Actor_pos_true_lat";
    "Actor_pos_true_lng"; "Actor_heading_true" ].

Definition msg_missing (missing : list string) : string :=
  ("Missing required columns: " ++ join ", " missing)%string.

Definition msg_vut_lat : string :=
  "VUT_pos_lat contains values outside the valid range (-90 to 90)".
Definition msg_vut_lng : string :=
  "VUT_pos_lng contains values outside the valid range (-180 to 360)".
Definition msg_vut_heading : string :=
  "VUT_heading contains values outside the valid range (0 to 360)".
Definition msg_vut_vel : string :=
  "VUT_vel_abs contains negative values".
Definition msg_time : string :=
  "Time column is not monotonically non-decreasing".
Definition msg_actor_lat : string :=
  "Actor_pos_true_lat contains values outside the valid range (-90 to 90)".
Definition msg_actor_lng : string :=
  "Actor_pos_true_lng contains values outside the valid range (-180 to 360)".
Definition msg_actor_heading : string :=
  "Actor_heading_true contains values outside the valid range (0 to 360)".
Definition msg_type_non_int : string :=
  "Actor_type contains non-integer values".
Definition msg_type_non_num : string :=
  "Actor_type contains non-numeric values".

(** [[c for c in required if c not in df.columns]]. *)
Definition missing_cols (required : list string) (df : DataFrame) : list string :=
  filter (fun c => negb (has_col df c)) required.

Definition any (l : list bool) : bool := existsb (fun b => b) l.

(** [((s < lo) | (s > hi)).any()]. *)
Definition any_outside (lo hi : float) (s : list cell) : result bool :=
  below <- mapM (fun c => cell_lt c lo) s ;;
  above <- mapM (fun c => cell_gt c hi) s ;;
  Ok (any (map (fun p => fst p || snd p) (combine below above))).

(** [(s < bound).any()]. *)
Definition any_below (bound : float) (s : list cell) : result bool :=
  below <- mapM (fun c => cell_lt c bound) s ;;
  Ok (any below).

(** The range rule of one column:
    [s = df[name].dropna()]
    [if len(s) > 0 and ((s < lo) | (s > hi)).any(): errors.append(msg)]. *)
Definition range_check (df : DataFrame) (name : string) (lo hi : float)
  (msg : string) (errors : list string) : result (list string) :=
  col <- get_col df name ;;
  let s := dropna col in
  if (0 <? List.length s)%nat then
    bad <- any_outside lo hi s ;;
    Ok (if bad then errors ++ [msg] else errors)
  else Ok errors.

(** [vel = df[name].dropna()]
    [if len(vel) > 0 and (vel < 0).any(): errors.append(msg)]. *)
Definition negative_check (df : DataFrame) (name : string) (msg : string)
  (errors : list string) : result (list string) :=
  col <- get_col df name ;;
  let s := dropna col in
  if (0 <? List.length s)%nat then
    bad <- any_below 0 s ;;
    Ok (if bad then errors ++ [msg] else errors)
  else Ok errors.

Fixpoint diff_from (prev : cell) (s : list cell) : result (list cell) :=
  match s with
  | [] => Ok []
  | c :: s' =>
      d <- cell_op PrimFloat.sub c prev ;;
      ds <- diff_from c s' ;;
      Ok (d :: ds)
  end.

(** [Series.diff()]: NaN first, then each value minus the one before it. *)
Definition diff (s : list cell) : result (list cell) :=
  match s with
  | [] => Ok []
  | c :: s' => ds <- diff_from c s' ;; Ok (NaN :: ds)
  end.

(** [time_vals = df["Time"].dropna()]
    [if len(time_vals) > 1 and (time_vals.diff().dropna() < 0).any(): ...]. *)
Definition time_check (df : DataFrame) (errors : list string)
  : result (list string) :=
  col <- get_col df "Time" ;;
  let time_vals := dropna col in
  if (1 <? List.length time_vals)%nat then
    d <- diff time_vals ;;
    bad <- any_below 0 (dropna d) ;;
    Ok (if bad then errors ++ [msg_time] else errors)
  else Ok errors.

Definition count_na (col : list cell) : nat :=
  List.length (filter isna col).

(** [for col in cols: if col in df.columns and df[col].isna().any(): ...]. *)
Fixpoint nan_warnings (df : DataFrame) (cols : list string)
  (warnings : list string) : result (list string) :=
  match cols with
  | [] => Ok warnings
  | col :: cols' =>
      if has_col df col then
        s <- get_col df col ;;
        if any (map isna s) then
          let nan_count := count_na s in
          nan_warnings df cols'
            (warnings ++ [(col ++ " has " ++ string_of_nat nan_count
                               ++ " NaN value(s)")%string])
        else nan_warnings df cols' warnings
      else nan_warnings df cols' warnings
  end.

Definition validate_vut (df : DataFrame) : result (list string * list string) :=
  let errors : list string := [] in
  let warnings : list string := [] in
  let missing := missing_cols VUT_REQUIRED_COLS df in
  match missing with
  | _ :: _ => Ok (errors ++ [msg_missing missing], warnings)
  | [] =>
      errors <- range_check df "VUT_pos_lat" (-90) 90 msg_vut_lat errors ;;
      errors <- range_check df "VUT_pos_lng" (-180) 360 msg_vut_lng errors ;;
      errors <- range_check df "VUT_heading" 0 360 msg_vut_heading errors ;;
      errors <- negative_check df "VUT_vel_abs" msg_vut_vel errors ;;
      errors <- time_check df errors ;;
      warnings <- nan_warnings df
                    ["VUT_pos_lat"; "VUT_pos_lng"; "VUT_heading"] warnings ;;
      Ok (errors, warnings)
  end.

Section WithEnv.
Context {env : PyEnv}.

(** [float(v)]. *)
Definition py_float (v : cell) : result float :=
  match v with
  | Num f => Ok f
  | Str s =>
      match float_of_str s with
      | Some f => Ok f
      | None => Raise ValueError
      end
  end.

(** [int(v)]. *)
Definition py_int (v : cell) : result Z :=
  match v with
  | Num f =>
      if is_nan f then Raise ValueError
      else if is_infinity f then Raise OverflowError
      else Ok (float_trunc f)
  | Str s =>
      match int_of_str s with
      | Some z => Ok z
      | None => Raise ValueError
      end
  end.

(** [round(x, ndigits)]: NaN and the infinities round to themselves. *)
Definition py_round (x : float) (ndigits : Z) : float :=
  if is_finite x then round_finite ndigits x else x.

(** [str(v)]. *)
Definition py_str (v : cell) : string :=
  match v with
  | Num f => str_of_float f
  | Str s => s
  end.

(** The [try] block of [validate_actors]:
    [actor_types = df["Actor_type"].dropna()]
    [non_int = actor_types[actor_types.apply(lambda x: not float(x).is_integer())]]
    with [ValueError] and [TypeError] caught. *)
Definition actor_type_check (df : DataFrame) (errors : list string)
  : result (list string) :=
  let body :=
    col <- get_col df "Actor_type" ;;
    let actor_types := dropna col in
    flags <- mapM (fun x => f <- py_float x ;; Ok (negb (float_is_integer f)))
                  actor_types ;;
    let non_int := select flags actor_types in
    Ok (if (0 <? List.length non_int)%nat then errors ++ [msg_type_non_int]
        else errors) in
  match body with
  | Ok errors' => Ok errors'
  | Raise ValueError => Ok (errors ++ [msg_type_non_num])
  | Raise TypeError => Ok (errors ++ [msg_type_non_num])
  | Raise e => Raise e
  end.

Definition validate_actors (df : DataFrame)
  : result (list string * list string) :=
  let errors : list string := [] in
  let warnings : list string := [] in
  let missing := missing_cols ACTOR_REQUIRED_COLS df in
  match missing with
  | _ :: _ => Ok (errors ++ [msg_missing missing], warnings)
  | [] =>
      errors <- range_check df "Actor_pos_true_lat" (-90) 90 msg_actor_lat errors ;;
      errors <- range_check df "Actor_pos_true_lng" (-180) 360 msg_actor_lng errors ;;
      errors <- range_check df "Actor_heading_true" 0 360 msg_actor_heading errors ;;
      errors <- actor_type_check df errors ;;
      Ok (errors, warnings)
  end.

(** ** processor.py *)

Definition XLSX_MAGIC : bytes :=
  [Byte.x50; Byte.x4b; Byte.x03; Byte.x04].

Fixpoint bytes_eqb (a b : bytes) : bool :=
  match a, b with
  | [], [] => true
  | x :: a', y :: b' => Byte.eqb x y && bytes_eqb a' b'
  | _, _ => false
  end.

(** Load file bytes as either XLSX or CSV, by the magic header. *)
Definition _read_tabular (file_bytes : bytes) : result DataFrame :=
  if bytes_eqb (firstn 4 file_bytes) XLSX_MAGIC then read_excel file_bytes
  else read_csv file_bytes.

(** [series - scalar], [series * scalar]. *)
Definition series_op (op : float -> float -> float) (s : list cell)
  (scalar : cell) : result (list cell) :=
  mapM (fun c => cell_op op c scalar) s.

Definition load_vut (file_bytes : bytes) : result DataFrame :=
  df <- _read_tabular file_bytes ;;
  let df := strip_columns df in
  let df := drop_unnamed df in
  time <- get_col df "Time" ;;
  time0 <- iloc0 time ;;
  t <- series_op PrimFloat.sub time time0 ;;
  let df := set_col df "t" t in
  if has_col df "VUT_vel_abs" then
    vel_abs <- get_col df "VUT_vel_abs" ;;
    let vel_ms := fillna 0 vel_abs in
    let df := set_col df "VUT_vel_ms" vel_ms in
    vel_kmh <- series_op PrimFloat.mul vel_ms (Num 3.6) ;;
    Ok (set_col df "VUT_vel_kmh" vel_kmh)
  else Ok df.

(** [s ** 2]. *)
Definition series_square (s : list cell) : result (list cell) :=
  mapM (fun c => cell_op PrimFloat.mul c c) s.

(** [a + b] on two series of the same index. *)
Fixpoint series_add (a b : list cell) : result (list cell) :=
  match a, b with
  | x :: a', y :: b' =>
      z <- cell_op PrimFloat.add x y ;;
      zs <- series_add a' b' ;;
      Ok (z :: zs)
  | _, _ => Ok []
  end.

(** [np.sqrt(s)]. *)
Definition series_sqrt (s : list cell) : result (list cell) :=
  mapM (fun c => match c with
                 | Num x => Ok (Num (PrimFloat.sqrt x))
                 | Str _ => Raise TypeError
                 end) s.

Definition load_actors (file_bytes : bytes) : result DataFrame :=
  df <- _read_tabular file_bytes ;;
  let df := strip_columns df in
  let df := drop_unnamed df in
  if has_col df "Actor_vel_abs" && has_col df "Actor_vel_lat" then
    vel_abs <- get_col df "Actor_vel_abs" ;;
    let zero_mask := map (fun c => cell_eqb c (Num 0)) (fillna 0 vel_abs) in
    lat <- get_col df "Actor_vel_lat" ;;
    lat2 <- series_square (fillna 0 (select zero_mask lat)) ;;
    lng <- get_col df "Actor_vel_lng" ;;
    lng2 <- series_square (fillna 0 (select zero_mask lng)) ;;
    total <- series_add lat2 lng2 ;;
    magnitude <- series_sqrt total ;;
    Ok (set_col df "Actor_vel_abs" (scatter zero_mask vel_abs magnitude))
  else Ok df.

Record ActorInfo : Type := {
  actor_id : string;
  actor_type : Z;
  actor_type_name : string
}.

(** [df[df["Actor_Id"] == aid]]. *)
Definition rows_of (df : DataFrame) (ids : list cell) (aid : cell) : DataFrame :=
  filter_rows (map (fun c => cell_eqb c aid) ids) df.

(** [int(rows["Actor_type"].iloc[0]) if "Actor_type" in rows.columns else 0]. *)
Definition type_of_rows (rows : DataFrame) : result Z :=
  if has_col rows "Actor_type" then
    col <- get_col rows "Actor_type" ;;
    v <- iloc0 col ;;
    py_int v
  else Ok 0%Z.

Definition actor_info (aid : cell) (atype : Z) : ActorInfo :=
  {| actor_id := py_str aid;
     actor_type := atype;
     actor_type_name := actor_type_name_of atype |}.

Definition extract_actors (file_bytes : bytes) : result (list ActorInfo) :=
  df <- load_actors file_bytes ;;
  if negb (has_col df "Actor_Id") then Ok []
  else
    ids <- get_col df "Actor_Id" ;;
    mapM (fun aid =>
            let rows := rows_of df ids aid in
            atype <- type_of_rows rows ;;
            Ok (actor_info aid atype))
         (unique ids).

(** One value of [safe_col]:
    [round(float(v), 6) if v is not None and not (isinstance(v, float)
     and math.isnan(v)) else default]. *)
Definition safe_val (default : float) (v : cell) : result float :=
  if negb (isna v) then
    f <- py_float v ;;
    Ok (py_round f 6)
  else Ok default.

Definition safe_col (df : DataFrame) (name : string) (default : float)
  : result (list float) :=
  if has_col df name then
    col <- get_col df name ;;
    mapM (safe_val default) col
  else Ok (repeat default (nrows df)).

(** The keys of [vut_data] with the column each one is read from, in the
    order of the dict literal. *)
Definition VUT_CHANNELS : list (string * string) :=
  [ ("t", "t");
    ("lat", "VUT_pos_lat");
    ("lng", "VUT_pos_lng");
    ("heading", "VUT_heading");
    ("vel_ms", "VUT_vel_ms");
    ("vel_kmh", "VUT_vel_kmh");
    ("accl_lat", "VUT_accl_lat");
    ("accl_lng", "VUT_accl_lng");
    ("braking_level", "VUT_braking_level");
    ("throttle_level", "VUT_throttle_level");
    ("steering_pct", "VUT_steering_angle_percentage");
    ("ind_left", "VUT_ind_st_dir_left");
    ("ind_right", "VUT_ind_st_dir_right");
    ("ind_hazard", "VUT_ind_st_hazard");
    ("ind_reverse", "VUT_ind_st_reverse");
    ("ind_braking", "VUT_ind_st_braking") ].

Definition build_vut_data (vut_df : DataFrame)
  : result (list (string * list float)) :=
  mapM (fun kc => arr <- safe_col vut_df (snd kc) 0 ;; Ok (fst kc, arr))
       VUT_CHANNELS.

Record Trajectory : Type := {
  traj_lat : list float;
  traj_lng : list float;
  traj_heading : list float;
  traj_t : list float
}.

Record ActorEntry : Type := {
  entry_info : ActorInfo;
  trajectory : Trajectory
}.

Record Validation : Type := {
  valid : bool;
  errors : list string;
  warnings : list string
}.

Record EvalResult : Type := {
  test_case_id : string;
  run_id : string;
  validation : Validation;
  vut : list (string * list float);
  actors : list ActorEntry
}.

(** [[round(float(v), 6) for v in col]]. *)
Definition rounded (ndigits : Z) (col : list cell) : result (list float) :=
  mapM (fun v => f <- py_float v ;; Ok (py_round f ndigits)) col.

(** One value of the heading array:
    [round(float(v), 4) if not (isinstance(v, float) and math.isnan(v))
     else 0.0]. *)
Definition heading_val (v : cell) : result float :=
  if negb (isna v) then
    f <- py_float v ;;
    Ok (py_round f 4)
  else Ok 0%float.

(** One value of the [t] array:
    [round(float(vut_df.loc[vut_df["Step_number"] == s, "t"].values[0]), 4)
     if s in vut_df["Step_number"].values else 0.0]. *)
Definition step_time (vut_df : DataFrame) (s : cell) : result float :=
  steps <- get_col vut_df "Step_number" ;;
  if existsb (fun c => cell_eqb c s) steps then
    t <- get_col vut_df "t" ;;
    v <- iloc0 (select (map (fun c => cell_eqb c s) steps) t) ;;
    f <- py_float v ;;
    Ok (py_round f 4)
  else Ok 0%float.

Definition build_trajectory (vut_df a_rows : DataFrame) : result Trajectory :=
  lat_col <- get_col a_rows "Actor_pos_true_lat" ;;
  lat <- rounded 6 lat_col ;;
  lng_col <- get_col a_rows "Actor_pos_true_lng" ;;
  lng <- rounded 6 lng_col ;;
  heading <-
    (if has_col a_rows "Actor_heading_true" then
       heading_col <- get_col a_rows "Actor_heading_true" ;;
       mapM heading_val heading_col
     else Ok (repeat 0%float (nrows a_rows))) ;;
  step_col <- get_col a_rows "Step_number" ;;
  t <- mapM (step_time vut_df) step_col ;;
  Ok {| traj_lat := lat; traj_lng := lng; traj_heading := heading;
        traj_t := t |}.

(** The body of the loop over [actor_df["Actor_Id"].unique()]. *)
Definition build_actor (vut_df actor_df : DataFrame) (ids : list cell)
  (aid : cell) : result ActorEntry :=
  let a_rows := rows_of actor_df ids aid in
  atype <- type_of_rows a_rows ;;
  trajectory <- build_trajectory vut_df a_rows ;;
  Ok {| entry_info := actor_info aid atype; trajectory := trajectory |}.

Definition build_actors (vut_df actor_df : DataFrame)
  : result (list ActorEntry) :=
  if has_col actor_df "Actor_Id" then
    ids <- get_col actor_df "Actor_Id" ;;
    mapM (build_actor vut_df actor_df ids) (unique ids)
  else Ok [].

Definition evaluate (vut_bytes : bytes) (actor_bytes : option bytes)
  (test_case_id run_id : string) : result EvalResult :=
  vut_df <- load_vut vut_bytes ;;
  vv <- validate_vut vut_df ;;
  let all_errors := fst vv in
  let all_warnings := snd vv in
  vut_data <- build_vut_data vut_df ;;
  actor_part <-
    match actor_bytes with
    | Some actor_bytes =>
        actor_df <- load_actors actor_bytes ;;
        av <- validate_actors actor_df ;;
        let all_errors := all_errors ++ fst av in
        let all_warnings := all_warnings ++ snd av in
        actors_result <- build_actors vut_df actor_df ;;
        Ok (all_errors, all_warnings, actors_result)
    | None => Ok (all_errors, all_warnings, [])
    end ;;
  let '(all_errors, all_warnings, actors_result) := actor_part in
  Ok {| test_case_id := test_case_id;
        run_id := run_id;
        validation := {| valid := (List.length all_errors =? 0)%nat;
                         errors := all_errors;
                         warnings := all_warnings |};
        vut := vut_data;
        actors := actors_result |}.

End WithEnv.

(** ** Fixtures

    An environment for closed examples: [read_csv] is a table of file
    contents and the data frame pandas reads from each; every other buffer
    is unreadable.  No string is a number, [round] is the identity (right on
    values that already have at most four decimals) and [str] prints the
    integral floats the examples use. *)

Fixpoint find_file (files : list (bytes * DataFrame)) (b : bytes)
  : result DataFrame :=
  match files with
  | [] => Raise ParseError
  | (b', df) :: files' => if bytes_eqb b b' then Ok df else find_file files' b
  end.

Definition fixture_env (files : list (bytes * DataFrame)) : PyEnv :=
  {| read_excel := fun _ => Raise ParseError;
     read_csv := find_file files;
     float_of_str := fun _ => None;
     int_of_str := fun _ => None;
     round_finite := fun _ x => x;
     str_of_float := fun x => (string_of_Z (float_trunc x) ++ ".0")%string |}.

Definition csv (text : string) : bytes := list_byte_of_string text.

Definition nums (l : list float) : list cell := map Num l.

(** A table with a [Time] column only. *)
Definition df_time_only : DataFrame :=
  {| nrows := 2; columns := [("Time", nums [0; 1]%float)] |}.

(** ** Vocabulary of the statements *)

(** [drop_unnamed] after [strip_columns]: the table both loaders work on. *)
Definition normalized (df : DataFrame) : DataFrame :=
  drop_unnamed (strip_columns df).

Definition lengths_ok (df : DataFrame) : Prop :=
  Forall (fun nc => List.length (snd nc) = nrows df) (columns df).

(** Every cell of the column, when the table has it, is a number. *)
Definition numeric_col (df : DataFrame) (name : string) : Prop :=
  forall col, get_col df name = Ok col -> forallb is_num col = true.

(** A number below [lo] or above [hi]. *)
Definition outside (lo hi : float) (c : cell) : bool :=
  match c with
  | Num x => PrimFloat.ltb x lo || PrimFloat.ltb hi x
  | Str _ => false
  end.

(** A number below [bound]. *)
Definition below (bound : float) (c : cell) : bool :=
  match c with
  | Num x => PrimFloat.ltb x bound
  | Str _ => false
  end.

(** Some non-missing cell of the column satisfies [p]. *)
Definition violated (df : DataFrame) (name : string) (p : cell -> bool) : Prop :=
  exists col c,
    get_col df name = Ok col /\ In c col /\ isna c = false /\ p c = true.




(** Two tables with the same columns, each column of one a rearrangement
    of the column of the other. *)
Definition similar (df df' : DataFrame) : Prop :=
  forall name,
    match get_col df name, get_col df' name with
    | Ok c, Ok c' => Permutation c c'
    | Raise e, Raise e' => e = e'
    | _, _ => False
    end.

(** Two rows in increasing time. *)
Definition df_two_rows : DataFrame :=
  {| nrows := 2;
     columns := [ ("Time", nums [0; 1]%float);
                  ("Step_number", nums [1; 2]%float);
                  ("VUT_pos_lat", nums [1.5; 1.5]%float);
                  ("VUT_pos_lng", nums [103.5; 103.5]%float);
                  ("VUT_heading", nums [90; 90]%float);
                  ("VUT_vel_abs", nums [5; 5]%float) ] |}.

(** [float(c)] returns. *)
Definition parses {env : PyEnv} (c : cell) : bool :=
  match py_float c with
  | Ok _ => true
  | Raise _ => false
  end.

(** [float(c)] returns a value that is not an integer. *)
Definition non_integral {env : PyEnv} (c : cell) : bool :=
  match py_float c with
  | Ok f => negb (float_is_integer f)
  | Raise _ => false
  end.

(** One actor row with absolute velocity 0 and components 3 and 4, then
    one with absolute velocity 7 and the same components. *)
Definition df_actor_345 : DataFrame :=
  {| nrows := 2;
     columns := [ ("Time", nums [0; 1]%float);
                  ("Step_number", nums [1; 2]%float);
                  ("Actor_Id", [Str "A1"; Str "A1"]);
                  ("Actor_type", nums [4; 4]%float);
                  ("Actor_pos_true_lat", nums [1.5; 1.5]%float);
                  ("Actor_pos_true_lng", nums [103.5; 103.5]%float);
                  ("Actor_heading_true", nums [90; 90]%float);
                  ("Actor_vel_abs", nums [0; 7]%float);
                  ("Actor_vel_lat", nums [3; 3]%float);
                  ("Actor_vel_lng", nums [4; 4]%float) ] |}.

Definition csv_actor_345 : bytes := csv
"Time,Step_number,Actor_Id,Actor_type,Actor_pos_true_lat,Actor_pos_true_lng,Actor_heading_true,Actor_vel_abs,Actor_vel_lat,Actor_vel_lng
0,1,A1,4,1.5,103.5,90,0,3,4
1,2,A1,4,1.5,103.5,90,7,3,4
".

(** The same rows without the longitudinal velocity column. *)
Definition df_actor_no_lng : DataFrame :=
  {| nrows := 2;
     columns := [ ("Time", nums [0; 1]%float);
                  ("Step_number", nums [1; 2]%float);
                  ("Actor_Id", [Str "A1"; Str "A1"]);
                  ("Actor_type", nums [4; 4]%float);
                  ("Actor_pos_true_lat", nums [1.5; 1.5]%float);
                  ("Actor_pos_true_lng", nums [103.5; 103.5]%float);
                  ("Actor_heading_true", nums [90; 90]%float);
                  ("Actor_vel_abs", nums [0; 7]%float);
                  ("Actor_vel_lat", nums [3; 3]%float) ] |}.

Definition csv_actor_no_lng : bytes := csv
"Time,Step_number,Actor_Id,Actor_type,Actor_pos_true_lat,Actor_pos_true_lng,Actor_heading_true,Actor_vel_abs,Actor_vel_lat
0,1,A1,4,1.5,103.5,90,0,3
1,2,A1,4,1.5,103.5,90,7,3
".

Definition actor_files : list (bytes * DataFrame) :=
  [ (csv_actor_345, df_actor_345); (csv_actor_no_lng, df_actor_no_lng) ].

Definition csv_two_rows : bytes := csv
"Time,Step_number,VUT_pos_lat,VUT_pos_lng,VUT_heading,VUT_vel_abs
0,1,1.5,103.5,90,5
1,2,1.5,103.5,90,5
".

(** The files of one run: a vehicle file and the two actor files. *)
Definition run_files : list (bytes * DataFrame) :=
  (csv_two_rows, df_two_rows) :: actor_files.

(** One actor whose first row has no type and whose second row has type 4. *)
Definition df_actor_type_gap : DataFrame :=
  {| nrows := 2;
     columns := [ ("Time", nums [0; 1]%float);
                  ("Step_number", nums [1; 2]%float);
                  ("Actor_Id", [Str "A1"; Str "A1"]);
                  ("Actor_type", [NaN; Num 4]);
                  ("Actor_pos_true_lat", nums [1.5; 1.5]%float);
                  ("Actor_pos_true_lng", nums [103.5; 103.5]%float);
                  ("Actor_heading_true", nums [90; 90]%float) ] |}.

Definition csv_actor_type_gap : bytes := csv
"Time,Step_number,Actor_Id,Actor_type,Actor_pos_true_lat,Actor_pos_true_lng,Actor_heading_true
0,1,A1,,1.5,103.5,90
1,2,A1,4,1.5,103.5,90
".

(** A table without an actor identifier column. *)
Definition df_actor_no_id : DataFrame :=
  {| nrows := 1;
     columns := [ ("Time", nums [0]%float);
                  ("Actor_type", nums [4]%float) ] |}.

Definition csv_actor_no_id : bytes := csv
"Time,Actor_type
0,4
".

Definition type_files : list (bytes * DataFrame) :=
  [ (csv_actor_type_gap, df_actor_type_gap);
    (csv_actor_no_id, df_actor_no_id);
    (csv_actor_345, df_actor_345) ].







(** Each value is at most the next one ([<=] of floats). *)
Fixpoint nondecreasing (l : list float) : bool :=
  match l with
  | [] => true
  | x :: l' =>
      match l' with
      | [] => true
      | y :: _ => PrimFloat.leb x y && nondecreasing l'
      end
  end.

(** A vehicle file whose first [Time] value is missing. *)
Definition df_time_missing : DataFrame :=
  {| nrows := 2;
     columns := [ ("Time", [NaN; Num 1]);
                  ("Step_number", nums [1; 2]%float) ] |}.

Definition csv_time_missing : bytes := csv
"Time,Step_number
,1
1,2
".

(** A vehicle file whose [Time] goes down in the last row, by less than
    the subtraction of the first value can resolve. *)
Definition df_time_rounding : DataFrame :=
  {| nrows := 3;
     columns := [ ("Time", nums [1; 9007199254740998; 9007199254740996]%float);
                  ("Step_number", nums [1; 2; 3]%float) ] |}.

Definition csv_time_rounding : bytes := csv
"Time,Step_number
1.0,1
9.007199254740998e15,2
9.007199254740996e15,3
".

Definition time_files : list (bytes * DataFrame) :=
  [ (csv_time_missing, df_time_missing);
    (csv_time_rounding, df_time_rounding);
    (csv_two_rows, df_two_rows) ].

(** ** Values of binary64 numbers *)

Section FloatValue.
Local Open Scope Z_scope.

(** [v / g] rounded to the nearest integer, ties to even. *)
Definition rne_div (v g : Z) : Z :=
  let q := v / g in
  match 2 * (v mod g) ?= g with
  | Lt => q
  | Eq => if Z.even q then q else q + 1
  | Gt => q + 1
  end.

(** The exponent, counted from [emin], of the binary64 numbers of the
    binade of [v], where [v] counts units of [2 ^ emin]. *)
Definition rnd_exp (v : Z) : Z := Z.max (Z.log2 v + 1 - prec) 0.

(** A positive number of units of [2 ^ emin] rounded to [prec] bits, ties
    to even, with no bound on the exponent. *)
Definition rnd (v : Z) : Z := rne_div v (2 ^ rnd_exp v) * 2 ^ rnd_exp v.

(** The magnitude of a finite binary64 number in units of [2 ^ emin]. *)
Definition mag (m : positive) (e : Z) : Z := Z.pos m * 2 ^ (e - emin).

(** [2 ^ emax] in units of [2 ^ emin]: where the infinities sit. *)
Definition top : Z := 2 ^ (emax - emin).

(** The value of a binary64 number in units of [2 ^ emin]; the
    infinities sit at [top] and NaN is kept out of range. *)
Definition xval (f : spec_float) : Z :=
  match f with
  | S754_zero _ => 0
  | S754_infinity s => cond_Zopp s top
  | S754_nan => 2 * top
  | S754_finite s m e => cond_Zopp s (mag m e)
  end.

(** Rounding to binary64 of any number of units: [rnd] on the magnitude,
    overflow to the infinities. *)
Definition rndZ (v : Z) : Z :=
  if v =? 0 then 0
  else if 0 <? v then Z.min (rnd v) top
  else - Z.min (rnd (- v)) top.

(** Neither NaN nor an infinity. *)
Definition finite_or_zero (f : spec_float) : bool :=
  match f with
  | S754_zero _ | S754_finite _ _ _ => true
  | _ => false
  end.

End FloatValue.

(** A missing component counts as 0.0. *)
Definition or_zero (x : float) : float := if is_nan x then 0%float else x.

(** The absolute velocity is zero or missing: [fillna(0) == 0]. *)
Definition zero_or_missing (c : cell) : bool :=
  cell_eqb (if isna c then Num 0 else c) (Num 0).

(** [sqrt(lat^2 + lng^2)], missing components as 0.0. *)
Definition magnitude_of (lat lng : float) : float :=
  PrimFloat.sqrt (PrimFloat.add (PrimFloat.mul (or_zero lat) (or_zero lat))
                                (PrimFloat.mul (or_zero lng) (or_zero lng))).

(** A header-only file. *)
Definition df_header_only : DataFrame :=
  {| nrows := 0; columns := [("Time", []); ("Step_number", [])] |}.

Definition csv_header_only : bytes := csv "Time,Step_number
".

(** ** main.py: indexing of one run in [batch_upload]

    The part of the upload loop that decides what is stored for a run.
    [exc_text] is [str(exc)], the text of a Python exception. *)

(** [if actor_bytes is not None:]
    [    try:]
    [        if not extract_actors(actor_bytes): actor_bytes = None]
    [    except Exception: actor_bytes = None]. *)
Definition usable_actor_bytes {env : PyEnv} (actor_bytes : option bytes)
  : option bytes :=
  match actor_bytes with
  | None => None
  | Some b =>
      match extract_actors b with
      | Ok [] => None
      | Ok (_ :: _) => Some b
      | Raise _ => None
      end
  end.

(** The [try] block that validates at index time: the errors and warnings
    gathered before an exception are kept, and the exception adds the
    ["Failed to parse file"] error. *)
Definition index_validation {env : PyEnv} (exc_text : exn -> string)
  (vut_bytes : bytes) (actor_bytes : option bytes) : Validation :=
  let failed (errors : list string) (e : exn) : list string :=
    errors ++ [("Failed to parse file: " ++ exc_text e)%string] in
  let '(errors, warnings) :=
    match load_vut vut_bytes with
    | Raise e => (failed [] e, [])
    | Ok vut_df =>
        match validate_vut vut_df with
        | Raise e => (failed [] e, [])
        | Ok (ve, vw) =>
            match actor_bytes with
            | None => (ve, vw)
            | Some b =>
                match load_actors b with
                | Raise e => (failed ve e, vw)
                | Ok actor_df =>
                    match validate_actors actor_df with
                    | Raise e => (failed ve e, vw)
                    | Ok (ae, aw) => (ve ++ ae, vw ++ aw)
                    end
                end
            end
        end
    end in
  {| valid := (List.length errors =? 0)%nat;
     errors := errors;
     warnings := warnings |}.

(** ** Vocabulary of the further statements *)

(** The numbers of a column, in order. *)
Fixpoint numbers (col : list cell) : list float :=
  match col with
  | [] => []
  | Num x :: col' => x :: numbers col'
  | Str _ :: col' => numbers col'
  end.

(** The three range rules of the actor validator. *)
Definition ACTOR_RANGE_RULES : list (string * (cell -> bool) * string) :=
  [ ("Actor_pos_true_lat", outside (-90) 90, msg_actor_lat);
    ("Actor_pos_true_lng", outside (-180) 360, msg_actor_lng);
    ("Actor_heading_true", outside 0 360, msg_actor_heading) ].

(** The warning of one column: none without a missing value, else the
    message with the count. *)
Definition nan_warning_of (df : DataFrame) (name : string) : list string :=
  match get_col df name with
  | Ok col =>
      if (0 <? count_na col)%nat
      then [(name ++ " has " ++ string_of_nat (count_na col)
                  ++ " NaN value(s)")%string]
      else []
  | Raise _ => []
  end.

(** The names [load_vut] writes to. *)
Definition VUT_DERIVED_COLS : list string := ["t"; "VUT_vel_ms"; "VUT_vel_kmh"].

(** A vehicle table with padded and placeholder column names. *)
Definition df_padded : DataFrame :=
  {| nrows := 2;
     columns := [ ("Unnamed: 0", nums [0; 1]%float);
                  ("Time ", nums [10; 11]%float);
                  ("Step_number", nums [1; 2]%float);
                  ("VUT_vel_abs ", [Num 5; NaN]) ] |}.

Definition csv_padded : bytes := csv
",Time ,Step_number,VUT_vel_abs 
0,10,1,5
1,11,2,
".

(** A vehicle table without a [Time] column, and one with text in it. *)
Definition df_no_time : DataFrame :=
  {| nrows := 1; columns := [ ("Step_number", nums [1]%float) ] |}.

Definition csv_no_time : bytes := csv
"Step_number
1
".

Definition df_text_time : DataFrame :=
  {| nrows := 2;
     columns := [ ("Time", [Str "0s"; Str "1s"]);
                  ("Step_number", nums [1; 2]%float) ] |}.

Definition csv_text_time : bytes := csv
"Time,Step_number
0s,1
1s,2
".

Definition loader_files : list (bytes * DataFrame) :=
  [ (csv_padded, df_padded); (csv_no_time, df_no_time);
    (csv_text_time, df_text_time); (csv_actor_345, df_actor_345);
    (csv_actor_no_id, df_actor_no_id) ].

(** Four rows whose third [Time] value is below the second, with a
    missing latitude and a missing heading. *)
Definition df_time_back : DataFrame :=
  {| nrows := 4;
     columns := [ ("Time", nums [0; 1; 0.5; 2]%float);
                  ("Step_number", nums [1; 2; 3; 4]%float);
                  ("VUT_pos_lat", [Num 1.5; NaN; NaN; Num 1.5]);
                  ("VUT_pos_lng", nums [103.5; 103.5; 103.5; 103.5]%float);
                  ("VUT_heading", [Num 90; Num 90; NaN; Num 90]);
                  ("VUT_vel_abs", nums [5; 5; 5; 5]%float) ] |}.

(** Two actor rows: the second has heading 400 and type 4.5. *)
Definition df_actor_bad : DataFrame :=
  {| nrows := 2;
     columns := [ ("Time", nums [0; 1]%float);
                  ("Step_number", nums [1; 2]%float);
                  ("Actor_Id", [Str "A1"; Str "A1"]);
                  ("Actor_type", nums [4; 4.5]%float);
                  ("Actor_pos_true_lat", nums [1.5; 1.5]%float);
                  ("Actor_pos_true_lng", nums [103.5; 103.5]%float);
                  ("Actor_heading_true", nums [90; 400]%float) ] |}.

(** Two actor rows whose type is a word. *)
Definition df_actor_text_type : DataFrame :=
  {| nrows := 2;
     columns := [ ("Time", nums [0; 1]%float);
                  ("Step_number", nums [1; 2]%float);
                  ("Actor_Id", [Str "A1"; Str "A1"]);
                  ("Actor_type", [Str "car"; Str "car"]);
                  ("Actor_pos_true_lat", nums [1.5; 1.5]%float);
                  ("Actor_pos_true_lng", nums [103.5; 103.5]%float);
                  ("Actor_heading_true", nums [90; 90]%float) ] |}.

Definition csv_time_back : bytes := csv
"Time,Step_number,VUT_pos_lat,VUT_pos_lng,VUT_heading,VUT_vel_abs
0,1,1.5,103.5,90,5
1,2,,103.5,90,5
0.5,3,,103.5,,5
2,4,1.5,103.5,90,5
".

Definition csv_actor_bad : bytes := csv
"Time,Step_number,Actor_Id,Actor_type,Actor_pos_true_lat,Actor_pos_true_lng,Actor_heading_true
0,1,A1,4,1.5,103.5,90
1,2,A1,4.5,1.5,103.5,400
".

(** An actor file with its header line only. *)
Definition df_actor_header_only : DataFrame :=
  {| nrows := 0;
     columns := [ ("Time", []); ("Step_number", []); ("Actor_Id", []);
                  ("Actor_type", []); ("Actor_pos_true_lat", []);
                  ("Actor_pos_true_lng", []); ("Actor_heading_true", []) ] |}.

Definition csv_actor_header_only : bytes := csv
"Time,Step_number,Actor_Id,Actor_type,Actor_pos_true_lat,Actor_pos_true_lng,Actor_heading_true
".

(** Two actor rows, the second without an identifier. *)
Definition df_actor_nan_id : DataFrame :=
  {| nrows := 2;
     columns := [ ("Time", nums [0; 1]%float);
                  ("Step_number", nums [1; 2]%float);
                  ("Actor_Id", [Str "A1"; NaN]);
                  ("Actor_type", nums [4; 4]%float);
                  ("Actor_pos_true_lat", nums [1.5; 1.5]%float);
                  ("Actor_pos_true_lng", nums [103.5; 103.5]%float);
                  ("Actor_heading_true", nums [90; 90]%float) ] |}.

Definition csv_actor_nan_id : bytes := csv
"Time,Step_number,Actor_Id,Actor_type,Actor_pos_true_lat,Actor_pos_true_lng,Actor_heading_true
0,1,A1,4,1.5,103.5,90
1,2,,4,1.5,103.5,90
".

(** An actor file without the latitude column. *)
Definition df_actor_no_lat : DataFrame :=
  {| nrows := 1;
     columns := [ ("Time", nums [0]%float);
                  ("Step_number", nums [1]%float);
                  ("Actor_Id", [Str "A1"]);
                  ("Actor_type", nums [4]%float);
                  ("Actor_pos_true_lng", nums [103.5]%float);
                  ("Actor_heading_true", nums [90]%float) ] |}.

Definition csv_actor_no_lat : bytes := csv
"Time,Step_number,Actor_Id,Actor_type,Actor_pos_true_lng,Actor_heading_true
0,1,A1,4,103.5,90
".

(** The files of an upload. *)
Definition upload_files : list (bytes * DataFrame) :=
  [ (csv_two_rows, df_two_rows); (csv_time_back, df_time_back);
    (csv_actor_345, df_actor_345); (csv_actor_bad, df_actor_bad);
    (csv_actor_no_id, df_actor_no_id);
    (csv_actor_header_only, df_actor_header_only);
    (csv_actor_nan_id, df_actor_nan_id);
    (csv_actor_no_lat, df_actor_no_lat) ].

(** A loaded vehicle table in which step 2 comes twice. *)
Definition df_repeated_step : DataFrame :=
  {| nrows := 3;
     columns := [ ("Step_number", nums [1; 2; 2]%float);
                  ("t", nums [0; 0.5; 1]%float) ] |}.

(** The text of an exception, for the examples. *)
Definition exn_name (e : exn) : string :=
  match e with
  | ParseError => "ParseError"
  | KeyError name => name
  | IndexError => "IndexError"
  | TypeError => "TypeError"
  | ValueError => "ValueError"
  | OverflowError => "OverflowError"
  end.

(** * Properties *)

(** ** The result monad *)

Lemma bind_ok {A B : Type} (r : result A) (k : A -> result B) (b : B) :
  bind r k = Ok b -> exists a, r = Ok a /\ k a = Ok b.
Proof.
  destruct r as [a | e]; simpl; intros H; [eauto | discriminate].
Qed.

Lemma mapM_length {A B : Type} (f : A -> result B) (l : list A) (bs : list B) :
  mapM f l = Ok bs -> List.length bs = List.length l.
Proof.
  revert bs; induction l as [| a l IH]; simpl; intros bs H.
  - inversion H; reflexivity.
  - apply bind_ok in H as (b & _ & H).
    apply bind_ok in H as (bs' & Hbs & H).
    inversion H; subst; simpl; f_equal; auto.
Qed.

(** ** Required columns *)

Lemma missing_cols_spec (required : list string) (df : DataFrame) (c : string) :
  In c (missing_cols required df) <-> In c required /\ has_col df c = false.
Proof.
  unfold missing_cols; rewrite filter_In, negb_true_iff; tauto.
Qed.

Section Validators.
Context {env : PyEnv}.

(** C5: a table missing a required column gets exactly one error, the
    aggregated message that lists every missing required column (those and
    only those, in the order of the required list), and no warning; this
    holds for the vehicle validator and for the actor validator. *)
Theorem missing_required_short_circuit (df : DataFrame) :
  (missing_cols VUT_REQUIRED_COLS df <> [] ->
   validate_vut df
   = Ok ([msg_missing (missing_cols VUT_REQUIRED_COLS df)], [])) /\
  (missing_cols ACTOR_REQUIRED_COLS df <> [] ->
   validate_actors df
   = Ok ([msg_missing (missing_cols ACTOR_REQUIRED_COLS df)], [])) /\
  (forall required c,
     In c (missing_cols required df)
     <-> In c required /\ has_col df c = false).
Proof.
  split; [| split].
  - unfold validate_vut.
    destruct (missing_cols VUT_REQUIRED_COLS df); [congruence | reflexivity].
  - unfold validate_actors.
    destruct (missing_cols ACTOR_REQUIRED_COLS df); [congruence | reflexivity].
  - intros; apply missing_cols_spec.
Qed.

End Validators.

Lemma missing_required_short_circuit_witness :
  validate_vut df_time_only
  = Ok (["Missing required columns: Step_number, VUT_pos_lat, VUT_pos_lng, VUT_heading, VUT_vel_abs"], []) /\
  @validate_actors (fixture_env []) df_time_only
  = Ok (["Missing required columns: Step_number, Actor_Id, Actor_type, Actor_pos_true_lat, Actor_pos_true_lng, Actor_heading_true"], []).
Proof.
  destruct (@missing_required_short_circuit (fixture_env []) df_time_only)
    as (Hvut & Hactors & _).
  split.
  - apply Hvut; vm_compute; discriminate.
  - apply Hactors; vm_compute; discriminate.
Defined.

(** ** Columns of a data frame *)

Lemma lookup_col_In (name : string) (cols : list (string * list cell))
  (c : list cell) :
  lookup_col name cols = Some c -> In (name, c) cols.
Proof.
  induction cols as [| [n c'] cols IH]; simpl; [discriminate |].
  destruct (String.eqb_spec name n) as [-> | _].
  - intros H; inversion H; auto.
  - auto.
Qed.

Lemma lookup_col_has (name : string) (cols : list (string * list cell)) :
  existsb (String.eqb name) (map fst cols) = true
  <-> exists c, lookup_col name cols = Some c.
Proof.
  induction cols as [| [n c'] cols IH]; simpl.
  - split; [discriminate | intros [c H]; discriminate].
  - destruct (String.eqb name n); simpl; [split; eauto | exact IH].
Qed.

Lemma has_col_get (df : DataFrame) (name : string) :
  has_col df name = true -> exists c, get_col df name = Ok c.
Proof.
  unfold has_col, col_names, get_col; intros H.
  apply lookup_col_has in H as [c ->]; eauto.
Qed.

Lemma get_col_has (df : DataFrame) (name : string) (c : list cell) :
  get_col df name = Ok c -> has_col df name = true.
Proof.
  unfold has_col, col_names, get_col; intros H.
  apply lookup_col_has.
  destruct (lookup_col name (columns df)); [eauto | discriminate].
Qed.

Lemma has_col_false_get (df : DataFrame) (name : string) :
  has_col df name = false -> get_col df name = Raise (KeyError name).
Proof.
  unfold get_col; intros H.
  destruct (lookup_col name (columns df)) eqn:E; [| reflexivity].
  assert (has_col df name = true) by (apply lookup_col_has; eauto).
  congruence.
Qed.

Lemma get_col_length (df : DataFrame) (name : string) (c : list cell) :
  lengths_ok df -> get_col df name = Ok c -> List.length c = nrows df.
Proof.
  unfold lengths_ok, get_col; intros Hok H.
  destruct (lookup_col name (columns df)) eqn:E; [| discriminate].
  inversion H; subst.
  apply lookup_col_In in E.
  rewrite Forall_forall in Hok; exact (Hok _ E).
Qed.

Lemma lengths_ok_normalized (df : DataFrame) :
  lengths_ok df -> lengths_ok (normalized df).
Proof.
  unfold lengths_ok, normalized; simpl; intros H.
  rewrite Forall_forall in *; intros nc Hin.
  apply filter_In in Hin as [Hin _].
  apply in_map_iff in Hin as ([n c] & <- & Hin).
  exact (H _ Hin).
Qed.


Lemma lookup_replace_same (name : string) (vals : list cell)
  (cols : list (string * list cell)) :
  lookup_col name (replace_col name vals cols) = Some vals.
Proof.
  induction cols as [| [n c] cols IH]; simpl.
  - rewrite String.eqb_refl; reflexivity.
  - destruct (String.eqb name n) eqn:E; simpl; rewrite E; auto.
Qed.

Lemma lookup_replace_other (name other : string) (vals : list cell)
  (cols : list (string * list cell)) :
  other <> name ->
  lookup_col other (replace_col name vals cols) = lookup_col other cols.
Proof.
  intros Hne; induction cols as [| [n c] cols IH]; simpl.
  - destruct (String.eqb_spec other name); [contradiction | reflexivity].
  - destruct (String.eqb_spec name n) as [-> | Hn]; simpl.
    + destruct (String.eqb_spec other n); [contradiction | reflexivity].
    + destruct (String.eqb other n); auto.
Qed.

Lemma get_set_col_same (df : DataFrame) (name : string) (vals : list cell) :
  get_col (set_col df name vals) name = Ok vals.
Proof.
  unfold get_col, set_col; simpl; now rewrite lookup_replace_same.
Qed.

Lemma get_set_col_other (df : DataFrame) (name other : string)
  (vals : list cell) :
  other <> name -> get_col (set_col df name vals) other = get_col df other.
Proof.
  intros H; unfold get_col, set_col; simpl.
  now rewrite lookup_replace_other.
Qed.

Lemma has_set_col_same (df : DataFrame) (name : string) (vals : list cell) :
  has_col (set_col df name vals) name = true.
Proof.
  eapply get_col_has, get_set_col_same.
Qed.

Lemma has_set_col_other (df : DataFrame) (name other : string)
  (vals : list cell) :
  other <> name -> has_col (set_col df name vals) other = has_col df other.
Proof.
  intros H.
  destruct (has_col df other) eqn:E.
  - apply has_col_get in E as [c E].
    eapply get_col_has; rewrite get_set_col_other; eauto.
  - destruct (has_col (set_col df name vals) other) eqn:E'; [| reflexivity].
    apply has_col_get in E' as [c E'].
    rewrite get_set_col_other in E' by assumption.
    apply get_col_has in E'; congruence.
Qed.

(** ** Header-only input *)

Section Loaders.
Context {env : PyEnv}.

(** C9: when the buffer parses to a well-formed table that has a [Time]
    column and no data row, [load_vut] raises [IndexError] (the access to
    the first [Time] value) and returns no table. *)
Theorem load_vut_header_only (file_bytes : bytes) (df : DataFrame) :
  _read_tabular file_bytes = Ok df ->
  well_formed df ->
  has_col (normalized df) "Time" = true ->
  nrows df = 0%nat ->
  load_vut file_bytes = Raise IndexError.
Proof.
  intros Hread [Hlen _] Htime Hrows.
  unfold load_vut; rewrite Hread; simpl.
  fold (normalized df).
  destruct (has_col_get _ _ Htime) as [time Hget]; rewrite Hget; simpl.
  assert (Hl : List.length time = 0%nat).
  { rewrite <- Hrows.
    change (nrows df) with (nrows (normalized df)).
    eapply get_col_length; [apply lengths_ok_normalized |]; eassumption. }
  destruct time; [reflexivity | discriminate].
Qed.

End Loaders.

Lemma load_vut_header_only_witness :
  @load_vut (fixture_env [(csv_header_only, df_header_only)]) csv_header_only
  = Raise IndexError.
Proof.
  apply (@load_vut_header_only
           (fixture_env [(csv_header_only, df_header_only)])
           csv_header_only df_header_only).
  - reflexivity.
  - split.
    + repeat constructor.
    + vm_compute. repeat constructor; simpl; intuition discriminate.
  - reflexivity.
  - reflexivity.
Defined.

(** ** Range rules *)

Lemma mapM_total {A B : Type} (f : A -> result B) (g : A -> B) (l : list A) :
  (forall a, In a l -> f a = Ok (g a)) -> mapM f l = Ok (map g l).
Proof.
  induction l as [| a l IH]; simpl; intros H; [reflexivity |].
  rewrite (H a) by auto; simpl.
  rewrite IH by auto; reflexivity.
Qed.

Lemma mapM_raise {A B : Type} (f : A -> result B) (e : exn) (l : list A) :
  (forall a, In a l -> (exists b, f a = Ok b) \/ f a = Raise e) ->
  (exists a, In a l /\ f a = Raise e) ->
  mapM f l = Raise e.
Proof.
  induction l as [| a l IH]; simpl; intros Hall (a' & Hin & Ha').
  - contradiction.
  - destruct (Hall a (or_introl eq_refl)) as [[b Hb] | Hr].
    + rewrite Hb; simpl.
      rewrite IH; [reflexivity | auto |].
      destruct Hin as [-> | Hin]; [congruence | eauto].
    + rewrite Hr; reflexivity.
Qed.

Lemma forallb_false_exists {A : Type} (p : A -> bool) (l : list A) :
  forallb p l = false -> exists a, In a l /\ p a = false.
Proof.
  induction l as [| a l IH]; simpl; [discriminate |].
  destruct (p a) eqn:E; simpl.
  - intros H; destruct (IH H) as (a' & Hin & Ha'); eauto.
  - eauto.
Qed.

Lemma mapM_cell_cmp (cmp : float -> float -> bool) (bound : float)
  (s : list cell) :
  mapM (fun c => cell_cmp cmp c bound) s
  = if forallb is_num s
    then Ok (map (fun c => match c with
                           | Num x => cmp x bound
                           | Str _ => false
                           end) s)
    else Raise TypeError.
Proof.
  destruct (forallb is_num s) eqn:E.
  - apply mapM_total; intros [x | t] Hin; [reflexivity |].
    rewrite forallb_forall in E; specialize (E _ Hin); discriminate.
  - apply mapM_raise.
    + intros [x | t] _; simpl; eauto.
    + apply forallb_false_exists in E as ([x | t] & Hin & Hp);
        [discriminate | eauto].
Qed.

Lemma any_combine_map {A : Type} (f g : A -> bool) (l : list A) :
  any (map (fun p => fst p || snd p) (combine (map f l) (map g l)))
  = existsb (fun a => f a || g a) l.
Proof.
  unfold any; induction l as [| a l IH]; simpl; [reflexivity |].
  now rewrite IH.
Qed.

Lemma existsb_pointwise {A : Type} (f g : A -> bool) (l : list A) :
  (forall a, f a = g a) -> existsb f l = existsb g l.
Proof.
  intros H; induction l as [| a l IH]; simpl; [reflexivity |].
  now rewrite H, IH.
Qed.

Lemma any_outside_spec (lo hi : float) (s : list cell) :
  any_outside lo hi s
  = if forallb is_num s then Ok (existsb (outside lo hi) s)
    else Raise TypeError.
Proof.
  unfold any_outside, cell_lt, cell_gt.
  rewrite (mapM_cell_cmp PrimFloat.ltb lo s).
  destruct (forallb is_num s) eqn:E; [| reflexivity]; simpl.
  rewrite (mapM_cell_cmp (fun x b => PrimFloat.ltb b x) hi s), E; simpl.
  rewrite any_combine_map; f_equal.
  apply existsb_pointwise; intros [x | t]; reflexivity.
Qed.

Lemma any_below_spec (bound : float) (s : list cell) :
  any_below bound s
  = if forallb is_num s then Ok (existsb (below bound) s)
    else Raise TypeError.
Proof.
  unfold any_below, cell_lt.
  rewrite (mapM_cell_cmp PrimFloat.ltb bound s).
  destruct (forallb is_num s); [| reflexivity]; simpl.
  f_equal; unfold any.
  induction s as [| [x | t] s IH]; simpl; [reflexivity | |]; now rewrite IH.
Qed.

Lemma append_if (b : bool) (errs : list string) (msg : string) :
  (if b then errs ++ [msg] else errs) = errs ++ (if b then [msg] else []).
Proof.
  destruct b; [reflexivity | now rewrite app_nil_r].
Qed.

Lemma range_check_spec (df : DataFrame) (name : string) (lo hi : float)
  (msg : string) (errs : list string) (col : list cell) :
  get_col df name = Ok col ->
  range_check df name lo hi msg errs
  = if forallb is_num (dropna col)
    then Ok (errs ++ if existsb (outside lo hi) (dropna col) then [msg] else [])
    else Raise TypeError.
Proof.
  intros Hget; unfold range_check; rewrite Hget; simpl.
  destruct (dropna col) as [| c s] eqn:E; simpl.
  - now rewrite app_nil_r.
  - rewrite any_outside_spec.
    destruct (forallb is_num (c :: s)) eqn:En; simpl in En |- *; rewrite En;
      [| reflexivity].
    simpl; now rewrite append_if.
Qed.

Lemma negative_check_spec (df : DataFrame) (name : string) (msg : string)
  (errs : list string) (col : list cell) :
  get_col df name = Ok col ->
  negative_check df name msg errs
  = if forallb is_num (dropna col)
    then Ok (errs ++ if existsb (below 0) (dropna col) then [msg] else [])
    else Raise TypeError.
Proof.
  intros Hget; unfold negative_check; rewrite Hget; simpl.
  destruct (dropna col) as [| c s] eqn:E; simpl.
  - now rewrite app_nil_r.
  - rewrite any_below_spec.
    destruct (forallb is_num (c :: s)) eqn:En; simpl in En |- *; rewrite En;
      [| reflexivity].
    simpl; now rewrite append_if.
Qed.

Lemma diff_from_num (prev : cell) (s : list cell) :
  is_num prev = true -> forallb is_num s = true ->
  exists d, diff_from prev s = Ok d /\ forallb is_num d = true.
Proof.
  revert prev; induction s as [| c s IH]; simpl; intros prev Hp Hs.
  - eauto.
  - apply andb_true_iff in Hs as [Hc Hs].
    destruct c as [x | t]; [| discriminate].
    destruct prev as [y | t]; [| discriminate]; simpl.
    destruct (IH (Num x) eq_refl Hs) as (d & -> & Hd); simpl; eauto.
Qed.

Lemma diff_from_str (prev : cell) (s : list cell) :
  s <> [] -> is_num prev && forallb is_num s = false ->
  diff_from prev s = Raise TypeError.
Proof.
  revert prev; induction s as [| c s IH]; simpl; intros prev Hne H;
    [congruence |].
  destruct c as [x | t]; [| reflexivity].
  destruct prev as [y | t]; [| reflexivity]; simpl in *.
  rewrite IH; [reflexivity | | exact H].
  destruct s; [discriminate | congruence].
Qed.

Lemma time_check_spec (df : DataFrame) (errs : list string) (col : list cell) :
  get_col df "Time" = Ok col ->
  exists b : bool,
    time_check df errs
    = (if (1 <? List.length (dropna col))%nat
          && negb (forallb is_num (dropna col))
       then Raise TypeError
       else Ok (errs ++ if b then [msg_time] else [])) /\
    ((List.length (dropna col) <= 1)%nat -> b = false).
Proof.
  intros Hget; unfold time_check; rewrite Hget; cbn [bind].
  destruct (dropna col) as [| c [| c' s]] eqn:E.
  - exists false; simpl; now rewrite app_nil_r.
  - exists false; simpl; now rewrite app_nil_r.
  - change (1 <? List.length (c :: c' :: s))%nat with true; cbn [andb].
    unfold diff.
    destruct (forallb is_num (c :: c' :: s)) eqn:En; cbn [negb].
    + cbn [forallb] in En; apply andb_true_iff in En as [Hc Hs].
      destruct (diff_from_num c (c' :: s) Hc Hs) as (d & Hd & Hnum).
      rewrite Hd; cbn [bind].
      rewrite any_below_spec.
      assert (Hdn : forallb is_num (dropna (NaN :: d)) = true).
      { apply forallb_forall; intros a Ha.
        apply filter_In in Ha as [[<- | Ha] Hna]; [reflexivity |].
        rewrite forallb_forall in Hnum; auto. }
      rewrite Hdn; cbn [bind].
      exists (existsb (below 0) (dropna (NaN :: d))).
      rewrite append_if; split; [reflexivity | simpl; lia].
    + exists false.
      rewrite (diff_from_str c (c' :: s)) by (exact En || congruence).
      split; [reflexivity | simpl; lia].
Qed.

Lemma nan_warnings_total (df : DataFrame) (cols : list string)
  (warns : list string) :
  exists warns', nan_warnings df cols warns = Ok warns'.
Proof.
  revert warns; induction cols as [| c cols IH]; simpl; intros warns; eauto.
  destruct (has_col df c) eqn:E; [| auto].
  destruct (has_col_get _ _ E) as [s ->]; simpl.
  destruct (any (map isna s)); auto.
Qed.

Lemma missing_cols_nil (required : list string) (df : DataFrame) (c : string) :
  missing_cols required df = [] -> In c required ->
  exists col, get_col df c = Ok col.
Proof.
  intros Hm Hin; apply has_col_get.
  destruct (has_col df c) eqn:E; [reflexivity |].
  assert (In c (missing_cols required df)) by (apply missing_cols_spec; auto).
  rewrite Hm in H; contradiction.
Qed.

Lemma numeric_dropna (col : list cell) :
  forallb is_num col = true -> forallb is_num (dropna col) = true.
Proof.
  rewrite !forallb_forall; intros H c Hc.
  apply filter_In in Hc as [Hc _]; auto.
Qed.

Lemma existsb_dropna (p : cell -> bool) (col : list cell) :
  existsb p (dropna col) = true
  <-> exists c, In c col /\ isna c = false /\ p c = true.
Proof.
  rewrite existsb_exists; unfold dropna; split.
  - intros (c & Hin & Hp); apply filter_In in Hin as [Hin Hna].
    apply negb_true_iff in Hna; eauto.
  - intros (c & Hin & Hna & Hp); exists c; split; [| assumption].
    apply filter_In; rewrite Hna; auto.
Qed.



Lemma violated_existsb (df : DataFrame) (name : string) (p : cell -> bool)
  (col : list cell) :
  get_col df name = Ok col ->
  existsb p (dropna col) = true <-> violated df name p.
Proof.
  intros Hget; rewrite existsb_dropna; unfold violated; split.
  - intros (c & H); exists col, c; tauto.
  - intros (col' & c & Hget' & H).
    rewrite Hget in Hget'; inversion Hget'; subst; eauto.
Qed.





(** ** Row order *)

Lemma forallb_perm {A : Type} (p : A -> bool) (l l' : list A) :
  Permutation l l' -> forallb p l = forallb p l'.
Proof.
  induction 1; simpl; try congruence.
  destruct (p x), (p y); reflexivity.
Qed.

Lemma existsb_perm {A : Type} (p : A -> bool) (l l' : list A) :
  Permutation l l' -> existsb p l = existsb p l'.
Proof.
  induction 1; simpl; try congruence.
  destruct (p x), (p y); reflexivity.
Qed.

Lemma filter_perm {A : Type} (p : A -> bool) (l l' : list A) :
  Permutation l l' -> Permutation (filter p l) (filter p l').
Proof.
  induction 1; simpl.
  - constructor.
  - destruct (p x); auto.
  - destruct (p x), (p y); auto using perm_swap.
  - eauto using Permutation_trans.
Qed.

Lemma dropna_perm (c c' : list cell) :
  Permutation c c' -> Permutation (dropna c) (dropna c').
Proof. apply filter_perm. Qed.

Lemma similar_has_col (df df' : DataFrame) (name : string) :
  similar df df' -> has_col df' name = has_col df name.
Proof.
  intros H; specialize (H name).
  destruct (has_col df name) eqn:E, (has_col df' name) eqn:E'; try reflexivity.
  - apply has_col_get in E as [c E]; apply has_col_false_get in E'.
    rewrite E, E' in H; contradiction.
  - apply has_col_get in E' as [c E']; apply has_col_false_get in E.
    rewrite E, E' in H; contradiction.
Qed.

Lemma similar_missing_cols (df df' : DataFrame) (required : list string) :
  similar df df' -> missing_cols required df' = missing_cols required df.
Proof.
  intros H; unfold missing_cols.
  apply filter_ext; intros c; now rewrite (similar_has_col df df').
Qed.

Lemma range_check_similar (df df' : DataFrame) (name : string)
  (lo hi : float) (msg : string) (errs : list string) :
  similar df df' ->
  range_check df' name lo hi msg errs = range_check df name lo hi msg errs.
Proof.
  intros H; specialize (H name).
  destruct (get_col df name) as [c | e] eqn:E,
           (get_col df' name) as [c' | e'] eqn:E'; try contradiction.
  - rewrite (range_check_spec _ _ _ _ _ _ _ E),
            (range_check_spec _ _ _ _ _ _ _ E').
    apply dropna_perm in H.
    now rewrite (forallb_perm _ _ _ H), (existsb_perm _ _ _ H).
  - unfold range_check; rewrite E, E'; simpl; congruence.
Qed.

Lemma negative_check_similar (df df' : DataFrame) (name : string)
  (msg : string) (errs : list string) :
  similar df df' ->
  negative_check df' name msg errs = negative_check df name msg errs.
Proof.
  intros H; specialize (H name).
  destruct (get_col df name) as [c | e] eqn:E,
           (get_col df' name) as [c' | e'] eqn:E'; try contradiction.
  - rewrite (negative_check_spec _ _ _ _ _ E),
            (negative_check_spec _ _ _ _ _ E').
    apply dropna_perm in H.
    now rewrite (forallb_perm _ _ _ H), (existsb_perm _ _ _ H).
  - unfold negative_check; rewrite E, E'; simpl; congruence.
Qed.

Lemma any_map_existsb {A : Type} (p : A -> bool) (l : list A) :
  any (map p l) = existsb p l.
Proof.
  unfold any; induction l as [| a l IH]; simpl; [reflexivity |].
  now rewrite IH.
Qed.

Lemma nan_warnings_similar (df df' : DataFrame) (cols : list string)
  (warns : list string) :
  similar df df' -> nan_warnings df' cols warns = nan_warnings df cols warns.
Proof.
  intros H; revert warns; induction cols as [| c cols IH]; simpl; intros warns;
    [reflexivity |].
  rewrite (similar_has_col df df') by assumption.
  destruct (has_col df c) eqn:E; [| apply IH].
  pose proof (H c) as Hc.
  destruct (get_col df c) as [s | e], (get_col df' c) as [s' | e'];
    try contradiction; simpl.
  - rewrite !any_map_existsb, (existsb_perm _ _ _ Hc).
    unfold count_na.
    rewrite (Permutation_length (filter_perm isna _ _ Hc)).
    destruct (existsb isna s'); apply IH.
  - congruence.
Qed.

Lemma time_check_similar (df df' : DataFrame) (errs : list string) :
  similar df df' ->
  (time_check df errs = Raise TypeError /\
   time_check df' errs = Raise TypeError) \/
  (exists e, time_check df errs = Raise (KeyError e) /\
             time_check df' errs = Raise (KeyError e)) \/
  (exists b b' : bool,
     time_check df errs = Ok (errs ++ if b then [msg_time] else []) /\
     time_check df' errs = Ok (errs ++ if b' then [msg_time] else [])).
Proof.
  intros H; specialize (H "Time").
  destruct (get_col df "Time") as [c | e] eqn:E,
           (get_col df' "Time") as [c' | e'] eqn:E'; try contradiction.
  - destruct (time_check_spec df errs c E) as (b & Hb & _).
    destruct (time_check_spec df' errs c' E') as (b' & Hb' & _).
    apply dropna_perm in H.
    rewrite <- (forallb_perm _ _ _ H), <- (Permutation_length H) in Hb'.
    destruct ((1 <? List.length (dropna c))%nat
              && negb (forallb is_num (dropna c)));
      [left; auto | right; right; exists b, b'; auto].
  - subst e'. unfold time_check; rewrite E, E'; simpl.
    unfold get_col in E.
    destruct (lookup_col "Time" (columns df)); inversion E; eauto.
Qed.

Lemma lookup_col_map (f : list cell -> list cell) (name : string)
  (cols : list (string * list cell)) :
  lookup_col name (map (fun nc => (fst nc, f (snd nc))) cols)
  = option_map f (lookup_col name cols).
Proof.
  induction cols as [| [n c] cols IH]; simpl; [reflexivity |].
  destruct (String.eqb name n); [reflexivity | exact IH].
Qed.

Lemma map_nth_seq (c : list cell) :
  map (fun i => nth i c NaN) (seq 0 (List.length c)) = c.
Proof.
  induction c as [| a c IH]; simpl; [reflexivity |].
  rewrite <- seq_shift, map_map; simpl; now rewrite IH.
Qed.

Lemma take_rows_similar (p : list nat) (df : DataFrame) :
  lengths_ok df -> Permutation p (seq 0 (nrows df)) ->
  similar df (take_rows p df).
Proof.
  intros Hlen Hp name.
  destruct (get_col df name) as [c | e] eqn:E.
  - pose proof (get_col_length _ _ _ Hlen E) as Hc.
    unfold get_col, take_rows in *; simpl.
    rewrite (lookup_col_map (fun col => map (fun i => nth i col NaN) p)).
    destruct (lookup_col name (columns df)); inversion E; subst; simpl.
    rewrite <- Hc in Hp.
    apply Permutation_trans
      with (map (fun i => nth i c NaN) (seq 0 (List.length c))).
    + now rewrite map_nth_seq.
    + now apply Permutation_map, Permutation_sym.
  - unfold get_col, take_rows in *; simpl.
    rewrite (lookup_col_map (fun col => map (fun i => nth i col NaN) p)).
    destruct (lookup_col name (columns df)); inversion E; reflexivity.
Qed.

(** The vehicle validator on two similar tables: the same exception, or
    the same warnings and error lists that differ in the [Time] message
    at most. *)
Lemma validate_vut_similar (df df' : DataFrame) :
  similar df df' ->
  match validate_vut df, validate_vut df' with
  | Ok (errs, warns), Ok (errs', warns') =>
      (forall msg, msg <> msg_time -> In msg errs <-> In msg errs') /\
      warns = warns'
  | Raise e, Raise e' => e = e'
  | _, _ => False
  end.
Proof.
  intros H; unfold validate_vut.
  rewrite (similar_missing_cols df df') by assumption.
  destruct (missing_cols VUT_REQUIRED_COLS df); [| split; tauto].
  rewrite (range_check_similar df df') by assumption.
  destruct (range_check df "VUT_pos_lat" _ _ _ _) as [e1 | x];
    cbn [bind]; [| reflexivity].
  rewrite (range_check_similar df df') by assumption.
  destruct (range_check df "VUT_pos_lng" _ _ _ _) as [e2 | x];
    cbn [bind]; [| reflexivity].
  rewrite (range_check_similar df df') by assumption.
  destruct (range_check df "VUT_heading" _ _ _ _) as [e3 | x];
    cbn [bind]; [| reflexivity].
  rewrite (negative_check_similar df df') by assumption.
  destruct (negative_check df "VUT_vel_abs" _ _) as [e4 | x];
    cbn [bind]; [| reflexivity].
  destruct (time_check_similar df df' e4 H)
    as [[-> ->] | [(e & -> & ->) | (b & b' & -> & ->)]];
    cbn [bind]; try reflexivity.
  match goal with
  | |- context [nan_warnings df' ?c ?w] =>
      rewrite (nan_warnings_similar df df' c w H);
      destruct (nan_warnings_total df c w) as [warns ->]
  end.
  cbn [bind]; split; [| reflexivity].
  intros msg Hmsg; rewrite !in_app_iff.
  destruct b, b'; simpl; intuition congruence.
Qed.

Section ActorValidator.
Context {env : PyEnv}.

Lemma select_map_nonempty (p : cell -> bool) (s : list cell) :
  (0 <? List.length (select (map p s) s))%nat = existsb p s.
Proof.
  induction s as [| c s IH]; simpl; [reflexivity |].
  destruct (p c); simpl; [reflexivity | exact IH].
Qed.

Lemma actor_type_check_spec (df : DataFrame) (errs : list string)
  (col : list cell) :
  get_col df "Actor_type" = Ok col ->
  actor_type_check df errs
  = Ok (errs ++ if forallb parses (dropna col)
                then if existsb non_integral (dropna col)
                     then [msg_type_non_int] else []
                else [msg_type_non_num]).
Proof.
  intros Hget; unfold actor_type_check; rewrite Hget; cbn [bind].
  destruct (forallb parses (dropna col)) eqn:E.
  - rewrite (mapM_total _ non_integral).
    + cbn [bind]; rewrite select_map_nonempty; now rewrite append_if.
    + intros c Hc; rewrite forallb_forall in E; specialize (E c Hc).
      unfold parses, non_integral in *.
      destruct (py_float c); [reflexivity | discriminate].
  - rewrite (mapM_raise _ ValueError); [reflexivity | |].
    + intros [x | t] _; simpl; [eauto |].
      destruct (float_of_str t); simpl; eauto.
    + apply forallb_false_exists in E as (c & Hc & Hp).
      exists c; split; [assumption |].
      unfold parses in Hp; destruct c as [x | t]; simpl in *;
        [discriminate |].
      destruct (float_of_str t); [discriminate | reflexivity].
Qed.

Lemma actor_type_check_similar (df df' : DataFrame) (errs : list string) :
  similar df df' ->
  actor_type_check df' errs = actor_type_check df errs.
Proof.
  intros H; specialize (H "Actor_type").
  destruct (get_col df "Actor_type") as [c | e] eqn:E,
           (get_col df' "Actor_type") as [c' | e'] eqn:E'; try contradiction.
  - rewrite (actor_type_check_spec _ _ _ E), (actor_type_check_spec _ _ _ E').
    apply dropna_perm in H.
    now rewrite (forallb_perm _ _ _ H), (existsb_perm _ _ _ H).
  - subst e'; unfold actor_type_check; rewrite E, E'; reflexivity.
Qed.

Lemma validate_actors_similar (df df' : DataFrame) :
  similar df df' -> validate_actors df' = validate_actors df.
Proof.
  intros H; unfold validate_actors.
  rewrite (similar_missing_cols df df') by assumption.
  destruct (missing_cols ACTOR_REQUIRED_COLS df); [| reflexivity].
  rewrite (range_check_similar df df') by assumption.
  destruct (range_check df "Actor_pos_true_lat" _ _ _ _) as [e1 | x];
    cbn [bind]; [| reflexivity].
  rewrite (range_check_similar df df') by assumption.
  destruct (range_check df "Actor_pos_true_lng" _ _ _ _) as [e2 | x];
    cbn [bind]; [| reflexivity].
  rewrite (range_check_similar df df') by assumption.
  destruct (range_check df "Actor_heading_true" _ _ _ _) as [e3 | x];
    cbn [bind]; [| reflexivity].
  now rewrite (actor_type_check_similar df df').
Qed.

(** C7: rearranging the rows of a table leaves the outcome of the actor
    validator unchanged, and leaves the vehicle validator with the same
    exception or with the same warnings and the same errors apart from
    the message of the [Time] ordering rule. *)
Theorem validators_row_order (df : DataFrame) (p : list nat) :
  lengths_ok df ->
  Permutation p (seq 0 (nrows df)) ->
  validate_actors (take_rows p df) = validate_actors df /\
  match validate_vut df, validate_vut (take_rows p df) with
  | Ok (errs, warns), Ok (errs', warns') =>
      (forall msg, msg <> msg_time -> In msg errs <-> In msg errs') /\
      warns = warns'
  | Raise e, Raise e' => e = e'
  | _, _ => False
  end.
Proof.
  intros Hlen Hp.
  pose proof (take_rows_similar p df Hlen Hp) as Hs.
  split; [now apply validate_actors_similar | now apply validate_vut_similar].
Qed.

(** C10: whenever the actor validator returns, its warning list is empty;
    and it does return on every table whose latitude, longitude and heading
    columns hold numbers. *)
Theorem validate_actors_no_warnings (df : DataFrame) :
  (forall errs warns, validate_actors df = Ok (errs, warns) -> warns = []) /\
  ((forall name, In name ["Actor_pos_true_lat"; "Actor_pos_true_lng";
                          "Actor_heading_true"] -> numeric_col df name) ->
   exists errs, validate_actors df = Ok (errs, [])).
Proof.
  split.
  - intros errs warns; unfold validate_actors.
    destruct (missing_cols ACTOR_REQUIRED_COLS df).
    + intros H.
      apply bind_ok in H as (e1 & _ & H).
      apply bind_ok in H as (e2 & _ & H).
      apply bind_ok in H as (e3 & _ & H).
      apply bind_ok in H as (e4 & _ & H).
      now inversion H.
    + intros H; now inversion H.
  - intros Hnum; unfold validate_actors.
    destruct (missing_cols ACTOR_REQUIRED_COLS df) eqn:Hm; [| eauto].
    destruct (missing_cols_nil _ df "Actor_pos_true_lat" Hm) as [lat Hlat];
      [simpl; tauto |].
    destruct (missing_cols_nil _ df "Actor_pos_true_lng" Hm) as [lng Hlng];
      [simpl; tauto |].
    destruct (missing_cols_nil _ df "Actor_heading_true" Hm) as [hd Hhd];
      [simpl; tauto |].
    destruct (missing_cols_nil _ df "Actor_type" Hm) as [ty Hty];
      [simpl; tauto |].
    rewrite (range_check_spec _ _ _ _ _ _ _ Hlat), numeric_dropna
      by (eapply Hnum; [| eassumption]; simpl; tauto).
    cbn [bind].
    rewrite (range_check_spec _ _ _ _ _ _ _ Hlng), numeric_dropna
      by (eapply Hnum; [| eassumption]; simpl; tauto).
    cbn [bind].
    rewrite (range_check_spec _ _ _ _ _ _ _ Hhd), numeric_dropna
      by (eapply Hnum; [| eassumption]; simpl; tauto).
    cbn [bind].
    rewrite (actor_type_check_spec _ _ _ Hty); cbn [bind]; eauto.
Qed.

End ActorValidator.

Lemma validators_row_order_witness :
  validate_vut df_two_rows = Ok ([], []) /\
  validate_vut (take_rows [1; 0]%nat df_two_rows) = Ok ([msg_time], []) /\
  @validate_actors (fixture_env []) (take_rows [1; 0]%nat df_two_rows)
  = @validate_actors (fixture_env []) df_two_rows.
Proof.
  assert (Hlen : lengths_ok df_two_rows) by (repeat constructor).
  assert (Hp : Permutation [1; 0]%nat (seq 0 (nrows df_two_rows)))
    by apply perm_swap.
  destruct (@validators_row_order (fixture_env []) df_two_rows [1; 0]%nat
              Hlen Hp) as [Hactors Hvut].
  split; [reflexivity | split; [reflexivity | exact Hactors]].
Defined.

(** The vehicle validator is sensitive to row order: the same two rows, in
    the other order, break the [Time] rule. *)
Lemma validate_vut_row_order_counterexample :
  Permutation [1; 0]%nat (seq 0 (nrows df_two_rows)) /\
  validate_vut df_two_rows = Ok ([], []) /\
  validate_vut (take_rows [1; 0]%nat df_two_rows) = Ok ([msg_time], []).
Proof.
  split; [apply perm_swap | split; reflexivity].
Qed.

(** ** Actor velocity *)

Lemma series_square_cases (s : list cell) :
  (exists r, series_square s = Ok r) \/ series_square s = Raise TypeError.
Proof.
  unfold series_square; induction s as [| [x | t] s IH]; simpl; eauto.
  destruct IH as [[r ->] | ->]; simpl; eauto.
Qed.

Lemma numeric_select (mask : list bool) (s : list cell) :
  forallb is_num s = true -> forallb is_num (select mask s) = true.
Proof.
  revert mask; induction s as [| c s IH]; intros [| b mask]; simpl; auto.
  intros H; apply andb_true_iff in H as [Hc Hs].
  destruct b; simpl; [rewrite Hc; simpl |]; auto.
Qed.

Lemma numeric_fillna (d : float) (s : list cell) :
  forallb is_num s = true -> forallb is_num (fillna d s) = true.
Proof.
  induction s as [| [x | t] s IH]; simpl; auto.
  intros H; destruct (is_nan x); simpl; auto.
Qed.

Lemma series_square_numeric (s : list cell) :
  forallb is_num s = true -> exists r, series_square s = Ok r.
Proof.
  unfold series_square; induction s as [| [x | t] s IH]; simpl; eauto;
    [| discriminate].
  intros H; destruct (IH H) as [r ->]; simpl; eauto.
Qed.

Section ActorLoader.
Context {env : PyEnv}.

(** C2, the failing case: on an actor table that has the absolute and the
    lateral velocity columns and no longitudinal one, [load_actors] raises
    and returns no table; with numbers in the lateral column the exception
    is the [KeyError] of the longitudinal column. *)
Theorem load_actors_missing_lng (file_bytes : bytes) (df : DataFrame) :
  _read_tabular file_bytes = Ok df ->
  has_col (normalized df) "Actor_vel_abs" = true ->
  has_col (normalized df) "Actor_vel_lat" = true ->
  has_col (normalized df) "Actor_vel_lng" = false ->
  (exists e, load_actors file_bytes = Raise e) /\
  (numeric_col (normalized df) "Actor_vel_lat" ->
   load_actors file_bytes = Raise (KeyError "Actor_vel_lng")).
Proof.
  intros Hread Habs Hlat Hlng.
  unfold load_actors; rewrite Hread; cbn [bind].
  fold (normalized df); rewrite Habs, Hlat; cbn [andb].
  destruct (has_col_get _ _ Habs) as [vel_abs ->].
  destruct (has_col_get _ _ Hlat) as [lat Hgl]; rewrite Hgl.
  rewrite (has_col_false_get _ _ Hlng); cbn [bind].
  split.
  - match goal with
    | |- context [series_square ?s] =>
        destruct (series_square_cases s) as [[r ->] | ->]
    end; cbn [bind]; eauto.
  - intros Hnum.
    match goal with
    | |- context [series_square ?s] =>
        destruct (series_square_numeric s) as [r ->]
    end; [| reflexivity].
    apply numeric_fillna, numeric_select, (Hnum _ Hgl).
Qed.

End ActorLoader.

Lemma load_actors_missing_lng_witness :
  @load_actors (fixture_env actor_files) csv_actor_no_lng
  = Raise (KeyError "Actor_vel_lng").
Proof.
  refine (proj2 (@load_actors_missing_lng (fixture_env actor_files)
                   csv_actor_no_lng df_actor_no_lng _ _ _ _) _);
    try reflexivity.
  intros col Hget; vm_compute in Hget; inversion Hget; reflexivity.
Defined.

(** With the longitudinal column present the magnitude is rebuilt: the row
    with absolute velocity 0 and components 3 and 4 gets 5, the row with
    absolute velocity 7 keeps it. *)
Lemma load_actors_3_4_5 :
  bind (@load_actors (fixture_env actor_files) csv_actor_345)
       (fun df => get_col df "Actor_vel_abs")
  = Ok (nums [5; 7]%float).
Proof. reflexivity. Qed.

(** ** Failure of the actor file *)

Section Evaluate.
Context {env : PyEnv}.

(** C3, as the code has it: when loading the actor buffer raises,
    [evaluate], called with that buffer, raises too and returns no result;
    where the vehicle-only evaluation (no actor buffer) returns, the
    exception is the one of the actor loader.  Treating the buffer as
    absent is the work of the caller: the upload handler replaces it by
    [None], and [evaluate] on what the handler keeps is the vehicle-only
    evaluation. *)
Theorem evaluate_actor_failure (vut_bytes actor_bytes : bytes)
  (test_case_id run_id : string) (e : exn) :
  load_actors actor_bytes = Raise e ->
  (exists e', evaluate vut_bytes (Some actor_bytes) test_case_id run_id
              = Raise e') /\
  (forall r, evaluate vut_bytes None test_case_id run_id = Ok r ->
             evaluate vut_bytes (Some actor_bytes) test_case_id run_id
             = Raise e) /\
  usable_actor_bytes (Some actor_bytes) = None /\
  evaluate vut_bytes (usable_actor_bytes (Some actor_bytes))
           test_case_id run_id
  = evaluate vut_bytes None test_case_id run_id.
Proof.
  intros Hload.
  assert (Hdrop : usable_actor_bytes (Some actor_bytes) = None).
  { unfold usable_actor_bytes, extract_actors; rewrite Hload; reflexivity. }
  rewrite Hdrop.
  assert (Hfail :
    (exists e', evaluate vut_bytes (Some actor_bytes) test_case_id run_id
                = Raise e') /\
    (forall r, evaluate vut_bytes None test_case_id run_id = Ok r ->
               evaluate vut_bytes (Some actor_bytes) test_case_id run_id
               = Raise e)).
  { unfold evaluate.
    destruct (load_vut vut_bytes) as [vut_df | x]; cbn [bind];
      [| split; [eauto | discriminate]].
    destruct (validate_vut vut_df) as [vv | x]; cbn [bind];
      [| split; [eauto | discriminate]].
    destruct (build_vut_data vut_df) as [vut_data | x]; cbn [bind];
      [| split; [eauto | discriminate]].
    rewrite Hload; cbn [bind]; eauto. }
  destruct Hfail as [Hraise Hsame].
  split; [exact Hraise | split; [exact Hsame | split; reflexivity]].
Qed.

End Evaluate.

Lemma evaluate_actor_failure_witness :
  @evaluate (fixture_env run_files) csv_two_rows (Some csv_actor_no_lng)
            "TC1" "r1"
  = Raise (KeyError "Actor_vel_lng") /\
  @usable_actor_bytes (fixture_env run_files) (Some csv_actor_no_lng) = None.
Proof.
  destruct (@evaluate_actor_failure (fixture_env run_files) csv_two_rows
              csv_actor_no_lng "TC1" "r1" (KeyError "Actor_vel_lng")
              eq_refl) as (_ & H & Hdrop & _).
  split; [| exact Hdrop].
  destruct (@evaluate (fixture_env run_files) csv_two_rows None "TC1" "r1")
    as [r | x] eqn:E; [| vm_compute in E; discriminate].
  exact (H r eq_refl).
Defined.

(** An actor file that cannot be processed makes the whole evaluation
    fail, although the vehicle-only evaluation of the same run returns. *)
Lemma evaluate_actor_failure_counterexample :
  @load_actors (fixture_env run_files) csv_actor_no_lng
  = Raise (KeyError "Actor_vel_lng") /\
  (exists r, @evaluate (fixture_env run_files) csv_two_rows None "TC1" "r1"
             = Ok r) /\
  ~ (exists r, @evaluate (fixture_env run_files) csv_two_rows
                 (Some csv_actor_no_lng) "TC1" "r1" = Ok r).
Proof.
  split; [reflexivity | split].
  - eexists; vm_compute; reflexivity.
  - intros [r H]; vm_compute in H; discriminate.
Qed.

(** ** Distinct identifiers *)

Lemma cell_same_refl (c : cell) : cell_same c c = true.
Proof.
  destruct c as [x | t]; unfold cell_same; simpl.
  - unfold is_nan; destruct (PrimFloat.eqb x x); reflexivity.
  - now rewrite String.eqb_refl.
Qed.

Lemma unique_from_covers (seen l : list cell) (c : cell) :
  In c l ->
  existsb (cell_same c) seen = true \/
  existsb (cell_same c) (unique_from seen l) = true.
Proof.
  revert seen; induction l as [| h l IH]; simpl; intros seen Hin;
    [contradiction |].
  destruct (existsb (cell_same h) seen) eqn:E.
  - destruct Hin as [-> | Hin]; auto.
  - destruct Hin as [-> | Hin].
    + right; simpl; now rewrite cell_same_refl.
    + destruct (IH (h :: seen) Hin) as [H | H]; simpl in *.
      * apply orb_true_iff in H as [H | H]; [right | left]; auto.
        now rewrite H.
      * right; rewrite H; apply orb_true_r.
Qed.

Lemma unique_from_fresh (seen l l1 l2 : list cell) (u : cell) :
  unique_from seen l = l1 ++ u :: l2 ->
  existsb (cell_same u) seen = false /\ existsb (cell_same u) l1 = false.
Proof.
  revert seen l1; induction l as [| h l IH]; simpl; intros seen l1 H.
  - destruct l1; discriminate.
  - destruct (existsb (cell_same h) seen) eqn:E; [eauto |].
    destruct l1 as [| c l1]; simpl in H; inversion H; subst.
    + auto.
    + destruct (IH _ _ H2) as [Hs Hl]; simpl in *.
      apply orb_false_iff in Hs as [Hc Hs].
      now rewrite Hc, Hl.
Qed.

Lemma unique_from_snoc (seen l : list cell) (c : cell) :
  unique_from seen (l ++ [c])
  = unique_from seen l
    ++ (if existsb (cell_same c) seen
           || existsb (cell_same c) (unique_from seen l)
        then [] else [c]).
Proof.
  revert seen; induction l as [| h l IH]; simpl; intros seen.
  - rewrite orb_false_r; destruct (existsb (cell_same c) seen); reflexivity.
  - destruct (existsb (cell_same h) seen) eqn:E; [apply IH |].
    simpl; rewrite IH; simpl.
    repeat f_equal.
    destruct (cell_same c h), (existsb (cell_same c) seen); reflexivity.
Qed.

(** What [unique] is: every value of the column is matched by an entry,
    an entry matches none of the entries before it, and a value appended
    to the column is appended to the entries exactly when no entry matches
    it (first-appearance order). *)
Lemma unique_spec (ids : list cell) :
  (forall c, In c ids -> existsb (cell_same c) (unique ids) = true) /\
  (forall l1 u l2, unique ids = l1 ++ u :: l2 ->
                   existsb (cell_same u) l1 = false) /\
  (forall c, unique (ids ++ [c])
             = unique ids
               ++ if existsb (cell_same c) (unique ids) then [] else [c]).
Proof.
  unfold unique; split; [| split].
  - intros c Hin.
    destruct (unique_from_covers [] ids c Hin) as [H | H];
      [discriminate | exact H].
  - intros l1 u l2 H; exact (proj2 (unique_from_fresh _ _ _ _ _ H)).
  - intros c; now rewrite unique_from_snoc.
Qed.

Lemma mapM_Forall2 {A B : Type} (f : A -> result B) (l : list A)
  (bs : list B) :
  mapM f l = Ok bs -> Forall2 (fun a b => f a = Ok b) l bs.
Proof.
  revert bs; induction l as [| a l IH]; simpl; intros bs H.
  - inversion H; constructor.
  - apply bind_ok in H as (b & Hb & H).
    apply bind_ok in H as (bs' & Hbs & H).
    inversion H; subst; constructor; auto.
Qed.

Lemma get_col_filter_rows (mask : list bool) (df : DataFrame) (name : string) :
  get_col (filter_rows mask df) name
  = bind (get_col df name) (fun col => Ok (select mask col)).
Proof.
  unfold get_col, filter_rows; simpl.
  rewrite (lookup_col_map (select mask)).
  destruct (lookup_col name (columns df)); reflexivity.
Qed.

Lemma has_col_filter_rows (mask : list bool) (df : DataFrame) (name : string) :
  has_col (filter_rows mask df) name = has_col df name.
Proof.
  unfold has_col, col_names, filter_rows; simpl.
  now rewrite map_map.
Qed.


Section ActorEnumeration.
Context {env : PyEnv}.

Lemma type_of_rows_spec (df : DataFrame) (ids : list cell) (aid : cell)
  (atype : Z) :
  type_of_rows (rows_of df ids aid) = Ok atype ->
  (has_col df "Actor_type" = false -> atype = 0%Z) /\
  (forall types, get_col df "Actor_type" = Ok types ->
     exists v rest,
       select (map (fun c => cell_eqb c aid) ids) types = v :: rest /\
       py_int v = Ok atype).
Proof.
  unfold type_of_rows, rows_of.
  rewrite has_col_filter_rows, get_col_filter_rows.
  destruct (has_col df "Actor_type") eqn:E.
  - destruct (has_col_get _ _ E) as [types Hget]; rewrite Hget; cbn [bind].
    intros H; split; [discriminate |].
    intros types' Ht; inversion Ht; subst types'.
    destruct (select _ types) as [| v rest]; [discriminate |].
    simpl in H; eauto.
  - intros H; inversion H; split; [reflexivity |].
    intros types Ht; apply get_col_has in Ht; congruence.
Qed.

(** C8, as the code has it: [extract_actors] returns the empty list when
    the loaded table has no actor-identifier column or no row; when it
    returns on a table with that column, it returns one entry for each
    value of [unique] of the column, in that order (distinct identifiers
    in first-appearance order), and the type code of an entry is [int] of
    the first value of the type column among the rows of that identifier
    (a missing first value makes [int] raise, so no list is returned), or
    0 when the table has no type column, in which case it always
    returns. *)
Theorem extract_actors_entries (file_bytes : bytes) (df : DataFrame) :
  load_actors file_bytes = Ok df ->
  (has_col df "Actor_Id" = false -> extract_actors file_bytes = Ok []) /\
  (lengths_ok df -> nrows df = 0%nat -> extract_actors file_bytes = Ok []) /\
  (forall ids, get_col df "Actor_Id" = Ok ids ->
     (forall infos, extract_actors file_bytes = Ok infos ->
        Forall2
          (fun aid info =>
             actor_id info = py_str aid /\
             actor_type_name info = actor_type_name_of (actor_type info) /\
             (has_col df "Actor_type" = false -> actor_type info = 0%Z) /\
             (forall types, get_col df "Actor_type" = Ok types ->
                exists v rest,
                  select (map (fun c => cell_eqb c aid) ids) types = v :: rest /\
                  py_int v = Ok (actor_type info)))
          (unique ids) infos) /\
     (has_col df "Actor_type" = false ->
      exists infos, extract_actors file_bytes = Ok infos) /\
     (forall c, In c ids -> existsb (cell_same c) (unique ids) = true) /\
     (forall l1 u l2, unique ids = l1 ++ u :: l2 ->
                      existsb (cell_same u) l1 = false) /\
     (forall c, unique (ids ++ [c])
                = unique ids
                  ++ if existsb (cell_same c) (unique ids) then [] else [c])).
Proof.
  intros Hload; unfold extract_actors; rewrite Hload; cbn [bind].
  split; [| split].
  - intros ->; reflexivity.
  - intros Hlen Hrows.
    destruct (has_col df "Actor_Id") eqn:E; [| reflexivity].
    destruct (has_col_get _ _ E) as [ids Hget]; rewrite Hget; cbn [negb bind].
    pose proof (get_col_length _ _ _ Hlen Hget) as Hl.
    rewrite Hrows in Hl; destruct ids; [reflexivity | discriminate].
  - intros ids Hget.
    rewrite (get_col_has _ _ _ Hget), Hget; cbn [negb bind].
    destruct (unique_spec ids) as (Hcov & Hfresh & Hsnoc).
    split; [| split; [| split; [| split]]]; auto.
    + clear Hcov Hfresh Hsnoc; intros infos H.
      apply mapM_Forall2 in H.
      induction H as [| aid info aids infos' Hone _ IH]; constructor; auto.
      apply bind_ok in Hone as (atype & Hty & Hone).
      inversion Hone; subst info; simpl.
      destruct (type_of_rows_spec _ _ _ _ Hty) as [H0 Hv].
      repeat split; auto.
    + intros Hnt.
      rewrite (mapM_total _ (fun aid => actor_info aid 0%Z)); [eauto |].
      intros aid _.
      unfold type_of_rows, rows_of; rewrite has_col_filter_rows, Hnt.
      reflexivity.
Qed.

End ActorEnumeration.

Lemma extract_actors_entries_witness :
  @extract_actors (fixture_env type_files) csv_actor_no_id = Ok [] /\
  @extract_actors (fixture_env type_files) csv_actor_345
  = Ok [ {| actor_id := "A1"; actor_type := 4;
            actor_type_name := "passenger_vehicle" |} ].
Proof.
  split.
  - apply (proj1 (@extract_actors_entries (fixture_env type_files)
                    csv_actor_no_id df_actor_no_id eq_refl)).
    reflexivity.
  - reflexivity.
Defined.

(** The first row of actor [A1] has no type and the second has type 4:
    the first non-missing type of the actor is 4, and [extract_actors]
    raises instead of returning an entry for it. *)
Lemma extract_actors_first_type_counterexample :
  @load_actors (fixture_env type_files) csv_actor_type_gap
  = Ok df_actor_type_gap /\
  dropna (select (map (fun c => cell_eqb c (Str "A1"))
                      [Str "A1"; Str "A1"])
                 [NaN; Num 4]) = [Num 4] /\
  @extract_actors (fixture_env type_files) csv_actor_type_gap
  = Raise ValueError.
Proof.
  split; [reflexivity | split; reflexivity].
Qed.

(** ** Arrays of the evaluation result *)

Lemma Forall2_nth_error {A B : Type} (P : A -> B -> Prop) (l : list A)
  (l' : list B) (i : nat) (a : A) :
  Forall2 P l l' -> nth_error l i = Some a ->
  exists b, nth_error l' i = Some b /\ P a b.
Proof.
  intros H; revert i; induction H as [| x y l l' Hxy _ IH]; intros [| i];
    simpl; try discriminate.
  - intros E; inversion E; subst; eauto.
  - apply IH.
Qed.

Lemma scatter_length {A : Type} (mask : list bool) (col vals : list A) :
  List.length (scatter mask col vals) = List.length col.
Proof.
  revert col vals; induction mask as [| b mask IH]; intros [| c col] vals;
    simpl; auto.
  destruct b; [destruct vals |]; simpl; auto.
Qed.


Section Arrays.
Context {env : PyEnv}.





End Arrays.

Section EvaluateArrays.
Context {env : PyEnv}.


End EvaluateArrays.



(** ** Relative time *)

Lemma finite_Prim2SF (x : float) :
  is_finite x = true ->
  (exists s, Prim2SF x = S754_zero s) \/
  (exists s m e, Prim2SF x = S754_finite s m e).
Proof.
  unfold is_finite; intros H.
  apply negb_true_iff, orb_false_iff in H as [Hnan Hinf].
  unfold Prim2SF; rewrite Hnan, Hinf.
  destruct (is_zero x); [eauto |].
  destruct (Z.frexp x) as [r ex].
  destruct (shr_fexp prec emax _ _ _) as [mrs e'].
  destruct (shr_m mrs); eauto.
Qed.

Lemma sub_self_finite (x : float) :
  is_finite x = true -> PrimFloat.sub x x = 0%float.
Proof.
  intros H; apply Prim2SF_inj; rewrite sub_spec.
  destruct (finite_Prim2SF x H) as [[s ->] | (s & m & e & ->)].
  - destruct s; reflexivity.
  - unfold SF64sub, SFsub; rewrite Z.sub_diag; reflexivity.
Qed.

Lemma numeric_nums (col : list cell) :
  forallb is_num col = true -> exists xs, col = nums xs.
Proof.
  induction col as [| [x | t] col IH]; simpl; intros H.
  - exists []; reflexivity.
  - destruct (IH H) as [xs ->]; exists (x :: xs); reflexivity.
  - discriminate.
Qed.

Lemma series_op_ok (op : float -> float -> float) (s r : list cell)
  (scalar : cell) :
  s <> [] -> series_op op s scalar = Ok r ->
  exists xs k, s = nums xs /\ scalar = Num k /\
               r = nums (map (fun x => op x k) xs).
Proof.
  unfold series_op; intros Hne H.
  assert (Hk : exists k, scalar = Num k).
  { destruct s as [| c s]; [congruence |]; simpl in H.
    destruct c, scalar; simpl in H; try discriminate; eauto. }
  destruct Hk as [k ->].
  clear Hne; revert r H; induction s as [| c s IH]; simpl; intros r H.
  - inversion H; exists [], k; auto.
  - apply bind_ok in H as (b & Hb & H).
    apply bind_ok in H as (bs & Hbs & H).
    inversion H; subst r.
    destruct (IH _ Hbs) as (xs & k' & -> & Hk & ->).
    inversion Hk; subst k'.
    destruct c as [x | t]; simpl in Hb; [| discriminate].
    inversion Hb; exists (x :: xs), k; auto.
Qed.

Lemma series_op_nums (op : float -> float -> float) (xs : list float)
  (k : float) :
  series_op op (nums xs) (Num k) = Ok (nums (map (fun x => op x k) xs)).
Proof.
  unfold series_op, nums; rewrite map_map.
  rewrite (mapM_total _ (fun c => match c with
                                  | Num x => Num (op x k)
                                  | Str t => Str t
                                  end)).
  - now rewrite map_map.
  - intros c Hc; apply in_map_iff in Hc as (x & <- & _); reflexivity.
Qed.

(** ** Order of binary64 subtraction *)

Section FloatOrder.
Local Open Scope Z_scope.

Lemma rne_div_bounds (v g : Z) :
  0 < g -> v / g <= rne_div v g <= v / g + 1.
Proof.
  intros Hg; unfold rne_div.
  destruct (2 * (v mod g) ?= g); [destruct (Z.even (v / g)) | |]; lia.
Qed.

Lemma rne_div_mono (g v1 v2 : Z) :
  0 < g -> v1 <= v2 -> rne_div v1 g <= rne_div v2 g.
Proof.
  intros Hg Hv.
  pose proof (Z.div_le_mono v1 v2 g Hg Hv) as Hq.
  destruct (Z.eq_dec (v1 / g) (v2 / g)) as [E | N].
  - pose proof (Z.div_mod v1 g ltac:(lia)) as H1.
    pose proof (Z.div_mod v2 g ltac:(lia)) as H2.
    assert (Hr : v1 mod g <= v2 mod g) by (rewrite E in H1; lia).
    unfold rne_div; rewrite E.
    destruct (Z.compare_spec (2 * (v1 mod g)) g),
             (Z.compare_spec (2 * (v2 mod g)) g);
      destruct (Z.even (v2 / g)); lia.
  - pose proof (rne_div_bounds v1 g Hg).
    pose proof (rne_div_bounds v2 g Hg).
    lia.
Qed.

Lemma rnd_exp_mono (v1 v2 : Z) : v1 <= v2 -> rnd_exp v1 <= rnd_exp v2.
Proof.
  intros H; unfold rnd_exp.
  pose proof (Z.log2_le_mono v1 v2 H); lia.
Qed.

Lemma rnd_exp_nonneg (v : Z) : 0 <= rnd_exp v.
Proof. unfold rnd_exp; lia. Qed.

Lemma rnd_exp_le_log2 (v : Z) : 0 < v -> rnd_exp v <= Z.log2 v.
Proof.
  intros H; unfold rnd_exp, prec.
  pose proof (Z.log2_nonneg v); lia.
Qed.

Lemma rnd_lower (v : Z) : 0 < v -> 2 ^ Z.log2 v <= rnd v.
Proof.
  intros Hv; unfold rnd.
  set (E := rnd_exp v).
  pose proof (rnd_exp_nonneg v) as HE0; fold E in HE0.
  pose proof (rnd_exp_le_log2 v Hv) as HEl; fold E in HEl.
  assert (Hg : 0 < 2 ^ E) by (apply Z.pow_pos_nonneg; lia).
  pose proof (rne_div_bounds v (2 ^ E) Hg) as [Hlo _].
  destruct (Z.log2_spec v Hv) as [Hl _].
  assert (Hsplit : 2 ^ Z.log2 v = 2 ^ (Z.log2 v - E) * 2 ^ E)
    by (rewrite <- Z.pow_add_r by lia; f_equal; lia).
  assert (Hq : 2 ^ (Z.log2 v - E) <= v / 2 ^ E).
  { apply Z.div_le_lower_bound; [exact Hg | lia]. }
  rewrite Hsplit; apply Z.mul_le_mono_nonneg_r; lia.
Qed.

Lemma rnd_upper (v : Z) : 0 < v -> rnd v <= 2 ^ (Z.log2 v + 1).
Proof.
  intros Hv; unfold rnd.
  set (E := rnd_exp v).
  pose proof (rnd_exp_nonneg v) as HE0; fold E in HE0.
  pose proof (rnd_exp_le_log2 v Hv) as HEl; fold E in HEl.
  assert (Hg : 0 < 2 ^ E) by (apply Z.pow_pos_nonneg; lia).
  pose proof (rne_div_bounds v (2 ^ E) Hg) as [_ Hhi].
  destruct (Z.log2_spec v Hv) as [_ Hu].
  assert (Hsplit : 2 ^ (Z.log2 v + 1) = 2 ^ (Z.log2 v + 1 - E) * 2 ^ E)
    by (rewrite <- Z.pow_add_r by lia; f_equal; lia).
  assert (Hq : v / 2 ^ E < 2 ^ (Z.log2 v + 1 - E)).
  { apply Z.div_lt_upper_bound; [exact Hg | ].
    replace (Z.succ (Z.log2 v)) with (Z.log2 v + 1) in Hu by lia. lia. }
  rewrite Hsplit; apply Z.mul_le_mono_nonneg_r; lia.
Qed.

Lemma rnd_mono (v1 v2 : Z) : 0 < v1 -> v1 <= v2 -> rnd v1 <= rnd v2.
Proof.
  intros H1 H12.
  pose proof (rnd_exp_mono v1 v2 H12) as HE.
  destruct (Z.eq_dec (rnd_exp v1) (rnd_exp v2)) as [E | N].
  - unfold rnd; rewrite E.
    assert (Hg : 0 < 2 ^ rnd_exp v2)
      by (apply Z.pow_pos_nonneg; [lia | apply rnd_exp_nonneg]).
    apply Z.mul_le_mono_nonneg_r; [lia |].
    now apply rne_div_mono.
  - assert (Hl : Z.log2 v1 + 1 <= Z.log2 v2) by (unfold rnd_exp in *; lia).
    pose proof (rnd_upper v1 H1).
    pose proof (rnd_lower v2 ltac:(lia)).
    assert (2 ^ (Z.log2 v1 + 1) <= 2 ^ Z.log2 v2)
      by (apply Z.pow_le_mono_r; [lia | exact Hl]).
    lia.
Qed.

Lemma digits2_log2 (p : positive) :
  Z.pos (digits2_pos p) = Z.log2 (Z.pos p) + 1.
Proof.
  induction p as [p IH | p IH |]; simpl; try reflexivity.
  - destruct p; simpl in *; lia.
  - destruct p; simpl in *; lia.
Qed.

Lemma iter_pos_nat {A : Type} (f : A -> A) (p : positive) (x : A) :
  iter_pos f p x = Nat.iter (Pos.to_nat p) f x.
Proof.
  revert x; induction p as [p IH | p IH |]; intros x; cbn [iter_pos].
  - rewrite !IH, Pos2Nat.inj_xI.
    replace (S (2 * Pos.to_nat p))%nat
      with (Pos.to_nat p + (Pos.to_nat p + 1))%nat by lia.
    rewrite !Nat.iter_add; reflexivity.
  - rewrite !IH, Pos2Nat.inj_xO.
    replace (2 * Pos.to_nat p)%nat with (Pos.to_nat p + Pos.to_nat p)%nat
      by lia.
    rewrite Nat.iter_add; reflexivity.
  - reflexivity.
Qed.

Lemma shr_1_nonneg (m : Z) (r s : bool) :
  0 <= m ->
  shr_1 {| shr_m := m; shr_r := r; shr_s := s |}
  = {| shr_m := m / 2; shr_r := Z.odd m; shr_s := r || s |}.
Proof.
  intros Hm; destruct m as [| p | p]; [reflexivity | | lia].
  destruct p as [p | p |]; simpl; f_equal.
  - rewrite Pos2Z.inj_xI. apply Z.div_unique with 1; lia.
  - rewrite Pos2Z.inj_xO. apply Z.div_unique with 0; lia.
Qed.

Lemma shr_iter (m : Z) (k : nat) :
  0 <= m ->
  Nat.iter (S k) shr_1 {| shr_m := m; shr_r := false; shr_s := false |}
  = {| shr_m := m / 2 ^ Z.of_nat (S k);
       shr_r := Z.odd (m / 2 ^ Z.of_nat k);
       shr_s := negb (m mod 2 ^ Z.of_nat k =? 0) |}.
Proof.
  intros Hm; induction k as [| k IH].
  - change (Nat.iter 1 shr_1 ?x) with (shr_1 x).
    rewrite shr_1_nonneg by assumption.
    change (2 ^ Z.of_nat 1) with 2; change (2 ^ Z.of_nat 0) with 1.
    rewrite Z.div_1_r, Z.mod_1_r; reflexivity.
  - change (Nat.iter (S (S k)) shr_1 ?x) with (shr_1 (Nat.iter (S k) shr_1 x)).
    rewrite IH.
    assert (Hp : 0 < 2 ^ Z.of_nat k) by (apply Z.pow_pos_nonneg; lia).
    assert (Hs : 2 ^ Z.of_nat (S k) = 2 ^ Z.of_nat k * 2)
      by (rewrite Nat2Z.inj_succ, Z.pow_succ_r; lia).
    rewrite shr_1_nonneg by (apply Z.div_pos; lia).
    f_equal.
    + rewrite (Nat2Z.inj_succ (S k)), Z.pow_succ_r by lia.
      rewrite Z.mul_comm, Z.div_div by lia. reflexivity.
    + rewrite Hs, Z.rem_mul_r by lia.
      pose proof (Z.mod_pos_bound m (2 ^ Z.of_nat k) Hp).
      pose proof (Z.mod_pos_bound (m / 2 ^ Z.of_nat k) 2 ltac:(lia)).
      rewrite Zmod_odd.
      destruct (Z.odd (m / 2 ^ Z.of_nat k));
        destruct (Z.eqb_spec (m mod 2 ^ Z.of_nat k) 0) as [E0 | N0];
        simpl;
        match goal with
        | |- _ = negb (?a =? 0) => destruct (Z.eqb_spec a 0)
        end; simpl; try reflexivity; nia.
Qed.

Lemma shr_round (m : Z) (p : positive) :
  0 <= m ->
  let mrs := iter_pos shr_1 p {| shr_m := m; shr_r := false; shr_s := false |} in
  round_nearest_even (shr_m mrs) (loc_of_shr_record mrs)
  = rne_div m (2 ^ Z.pos p).
Proof.
  intros Hm; cbv zeta.
  rewrite iter_pos_nat.
  destruct (Pos2Nat.is_succ p) as [k Hk]; rewrite Hk.
  rewrite shr_iter by assumption.
  assert (Hp : Z.pos p = Z.of_nat (S k)) by lia.
  rewrite Hp.
  assert (H2k : 0 < 2 ^ Z.of_nat k) by (apply Z.pow_pos_nonneg; lia).
  assert (Hs : 2 ^ Z.of_nat (S k) = 2 ^ Z.of_nat k * 2)
    by (rewrite Nat2Z.inj_succ, Z.pow_succ_r; lia).
  unfold rne_div.
  rewrite Hs at 2 3; rewrite Z.rem_mul_r by lia.
  pose proof (Z.mod_pos_bound m (2 ^ Z.of_nat k) H2k) as Hlow.
  rewrite Zmod_odd.
  cbn [shr_m loc_of_shr_record].
  destruct (Z.odd (m / 2 ^ Z.of_nat k));
    destruct (Z.eqb_spec (m mod 2 ^ Z.of_nat k) 0) as [E0 | N0];
    cbn [negb round_nearest_even];
    match goal with
    | |- _ = match ?a ?= ?b with _ => _ end =>
        destruct (Z.compare_spec a b)
    end; try reflexivity; try nia.
Qed.

Lemma rne_div_scale (v g c : Z) :
  0 < g -> 0 < c -> rne_div (v * c) (g * c) = rne_div v g.
Proof.
  intros Hg Hc; unfold rne_div.
  rewrite Z.div_mul_cancel_r by lia.
  rewrite Z.mul_mod_distr_r by lia.
  replace (2 * (v mod g * c)) with (2 * (v mod g) * c) by ring.
  rewrite <- (Zmult_compare_compat_r _ _ c) by lia.
  reflexivity.
Qed.

Lemma rne_div_exact (v g : Z) : 0 < g -> v mod g = 0 -> rne_div v g = v / g.
Proof.
  intros Hg H; unfold rne_div; rewrite H.
  destruct (Z.compare_spec (2 * 0) g); try lia; reflexivity.
Qed.

Lemma log2_mag (m : positive) (e : Z) :
  emin <= e -> Z.log2 (mag m e) + 1 = Z.pos (digits2_pos m) + (e - emin).
Proof.
  intros He; unfold mag.
  rewrite Z.log2_mul_pow2 by lia.
  rewrite digits2_log2; lia.
Qed.

Lemma rnd_exp_mag (m : positive) (e : Z) :
  emin <= e ->
  rnd_exp (mag m e) = fexp prec emax (Z.pos (digits2_pos m) + e) - emin.
Proof.
  intros He; unfold rnd_exp, fexp; rewrite log2_mag by assumption.
  fold emin; lia.
Qed.

Lemma rnd_mag_exact (m : positive) (e : Z) :
  emin <= e -> fexp prec emax (Z.pos (digits2_pos m) + e) <= e ->
  rnd (mag m e) = mag m e.
Proof.
  intros He Hf; unfold rnd; rewrite rnd_exp_mag by assumption.
  set (E := fexp prec emax (Z.pos (digits2_pos m) + e)) in *.
  assert (HE : emin <= E) by (unfold E, fexp; fold emin; lia).
  assert (Hg : 0 < 2 ^ (E - emin)) by (apply Z.pow_pos_nonneg; lia).
  assert (Hm : mag m e = Z.pos m * 2 ^ (e - E) * 2 ^ (E - emin)).
  { unfold mag; rewrite <- Z.mul_assoc, <- Z.pow_add_r by lia.
    do 2 f_equal; lia. }
  rewrite rne_div_exact; [| exact Hg | rewrite Hm; apply Z.mod_mul; lia].
  rewrite Hm at 1; rewrite Z.div_mul by lia.
  now rewrite Hm.
Qed.

Lemma canon_xval (s : bool) (m : positive) (e : Z) :
  fexp prec emax (Z.pos (digits2_pos m) + e) = e ->
  xval (if e <=? emax - prec then S754_finite s m e else S754_infinity s)
  = cond_Zopp s (Z.min (mag m e) top).
Proof.
  intros Hc.
  assert (He : emin <= e) by (rewrite <- Hc; unfold fexp; fold emin; lia).
  pose proof (log2_mag m e He) as Hl.
  assert (Hpos : 0 < mag m e).
  { unfold mag; apply Z.mul_pos_pos; [lia | apply Z.pow_pos_nonneg; lia]. }
  destruct (Z.log2_spec (mag m e) Hpos) as [Hlo Hhi].
  replace (Z.succ (Z.log2 (mag m e))) with (Z.log2 (mag m e) + 1) in Hhi by lia.
  unfold fexp in Hc; fold emin in Hc.
  destruct (Z.leb_spec e (emax - prec)); cbn [xval]; f_equal.
  - assert (2 ^ (Z.log2 (mag m e) + 1) <= top)
      by (unfold top; apply Z.pow_le_mono_r; lia).
    lia.
  - assert (top <= 2 ^ Z.log2 (mag m e)).
    { unfold top; apply Z.pow_le_mono_r; [lia |].
      unfold emax, prec, emin, SpecFloat.emin in *; lia. }
    lia.
Qed.

Lemma shr_fexp_noshift (m e : Z) :
  fexp prec emax (Zdigits2 m + e) <= e ->
  shr_fexp prec emax m e loc_Exact
  = ({| shr_m := m; shr_r := false; shr_s := false |}, e).
Proof.
  intros H; unfold shr_fexp, shr; cbn [shr_record_of_loc].
  destruct (fexp prec emax (Zdigits2 m + e) - e) eqn:E; try reflexivity; lia.
Qed.

Lemma binary_round_aux_exact (s : bool) (m : positive) (e : Z) :
  fexp prec emax (Z.pos (digits2_pos m) + e) <= e ->
  binary_round_aux prec emax s (Z.pos m) e loc_Exact
  = if e <=? emax - prec then S754_finite s m e else S754_infinity s.
Proof.
  intros H; unfold binary_round_aux.
  rewrite shr_fexp_noshift by exact H.
  cbn [shr_m loc_of_shr_record round_nearest_even].
  rewrite shr_fexp_noshift by exact H.
  reflexivity.
Qed.

Lemma rnd_mag_shift (m : positive) (e : Z) (p : positive) :
  emin <= e ->
  fexp prec emax (Z.pos (digits2_pos m) + e) - e = Z.pos p ->
  rnd (mag m e)
  = rne_div (Z.pos m) (2 ^ Z.pos p) * 2 ^ (e + Z.pos p - emin).
Proof.
  intros He Hp; unfold rnd; rewrite rnd_exp_mag by assumption.
  replace (fexp prec emax (Z.pos (digits2_pos m) + e) - emin)
    with (e + Z.pos p - emin) by lia.
  f_equal.
  replace (2 ^ (e + Z.pos p - emin)) with (2 ^ Z.pos p * 2 ^ (e - emin))
    by (rewrite <- Z.pow_add_r by lia; f_equal; lia).
  unfold mag; apply rne_div_scale; apply Z.pow_pos_nonneg; lia.
Qed.

Lemma stage2_xval (s : bool) (m1 E0 : Z) :
  emin <= E0 -> 2 ^ (prec - 1) <= m1 <= 2 ^ prec ->
  xval (let '(mrs, e) := shr_fexp prec emax m1 E0 loc_Exact in
        match shr_m mrs with
        | 0 => S754_zero s
        | Z.pos m => if e <=? emax - prec then S754_finite s m e
                     else S754_infinity s
        | Z.neg _ => S754_nan
        end)
  = cond_Zopp s (Z.min (m1 * 2 ^ (E0 - emin)) top).
Proof.
  intros HE [Hlo Hhi].
  destruct (Z.eq_dec m1 (2 ^ prec)) as [-> | Hne].
  - assert (Hsh : shr_fexp prec emax (2 ^ prec) E0 loc_Exact
                  = ({| shr_m := 2 ^ (prec - 1); shr_r := false;
                        shr_s := false |}, E0 + 1)).
    { unfold shr_fexp, shr, fexp; fold emin.
      change (Zdigits2 (2 ^ prec)) with (prec + 1).
      replace (Z.max (prec + 1 + E0 - prec) emin - E0) with 1 by lia.
      reflexivity. }
    rewrite Hsh; cbn [shr_m].
    change (2 ^ (prec - 1)) with (Z.pos 4503599627370496); cbv iota.
    rewrite canon_xval.
    + f_equal; f_equal; unfold mag.
      replace (E0 + 1 - emin) with (Z.succ (E0 - emin)) by lia.
      rewrite Z.pow_succ_r by lia.
      change (2 ^ prec) with 9007199254740992; lia.
    + unfold fexp; fold emin.
      change (Z.pos (digits2_pos 4503599627370496)) with prec; lia.
  - destruct m1 as [| m1p | m1p]; try (unfold prec in *; lia).
    assert (Hd : Z.pos (digits2_pos m1p) = prec).
    { rewrite digits2_log2.
      assert (Z.log2 (Z.pos m1p) = prec - 1); [| lia].
      apply Z.log2_unique; [unfold prec; lia |].
      replace (Z.succ (prec - 1)) with prec by lia; lia. }
    assert (Hc : fexp prec emax (Z.pos (digits2_pos m1p) + E0) = E0)
      by (rewrite Hd; unfold fexp; fold emin; lia).
    rewrite shr_fexp_noshift by (cbn [Zdigits2]; lia).
    cbn [shr_m]; rewrite canon_xval by exact Hc.
    reflexivity.
Qed.

Lemma binary_round_xval (s : bool) (m : positive) (ez : Z) :
  emin <= ez ->
  xval (binary_round prec emax s m ez)
  = cond_Zopp s (Z.min (rnd (mag m ez)) top).
Proof.
  intros He; unfold binary_round, shl_align.
  set (E0 := fexp prec emax (Z.pos (digits2_pos m) + ez)).
  assert (HE0 : emin <= E0) by (unfold E0, fexp; fold emin; lia).
  destruct (E0 - ez) as [| p | p] eqn:Hn.
  - rewrite binary_round_aux_exact by (fold E0; lia).
    rewrite canon_xval by (fold E0; lia).
    rewrite rnd_mag_exact by (try fold E0; lia); reflexivity.
  - unfold binary_round_aux.
    assert (Hsh : shr_fexp prec emax (Z.pos m) ez loc_Exact
                  = (iter_pos shr_1 p {| shr_m := Z.pos m; shr_r := false;
                                         shr_s := false |}, E0)).
    { unfold shr_fexp, shr; cbn [Zdigits2 shr_record_of_loc]; fold E0.
      rewrite Hn; f_equal; lia. }
    rewrite Hsh.
    rewrite (shr_round (Z.pos m) p) by lia.
    assert (Hd : Z.pos p = Z.pos (digits2_pos m) - prec)
      by (unfold E0, fexp in Hn; fold emin in Hn; lia).
    assert (Hb : 2 ^ (prec - 1) <= rne_div (Z.pos m) (2 ^ Z.pos p) <= 2 ^ prec).
    { assert (Hg : 0 < 2 ^ Z.pos p) by (apply Z.pow_pos_nonneg; lia).
      pose proof (rne_div_bounds (Z.pos m) (2 ^ Z.pos p) Hg) as [Hl Hh].
      destruct (Z.log2_spec (Z.pos m) ltac:(lia)) as [Hml Hmh].
      pose proof (digits2_log2 m) as Hdl.
      replace (Z.succ (Z.log2 (Z.pos m))) with (prec + Z.pos p) in Hmh by lia.
      replace (Z.log2 (Z.pos m)) with (prec - 1 + Z.pos p) in Hml by lia.
      rewrite Z.pow_add_r in Hml, Hmh by (unfold prec; lia).
      assert (2 ^ (prec - 1) <= Z.pos m / 2 ^ Z.pos p)
        by (apply Z.div_le_lower_bound; lia).
      assert (Z.pos m / 2 ^ Z.pos p < 2 ^ prec)
        by (apply Z.div_lt_upper_bound; lia).
      lia. }
    rewrite (stage2_xval s _ E0 HE0 Hb).
    rewrite (rnd_mag_shift m ez p He) by (fold E0; exact Hn).
    replace (ez + Z.pos p - emin) with (E0 - emin) by lia; reflexivity.
  - assert (Hmz : Z.pos (Pos.iter xO m p) = Z.pos m * 2 ^ Z.pos p).
    { change (Pos.iter xO m p) with (shift_pos p m).
      rewrite shift_pos_correct, Z.mul_comm.
      now rewrite Zpower_pos_is_exp_pow || reflexivity. }
    assert (Hdz : Z.pos (digits2_pos (Pos.iter xO m p))
                  = Z.pos (digits2_pos m) + Z.pos p).
    { rewrite !digits2_log2, Hmz, Z.log2_mul_pow2 by lia; lia. }
    assert (Hc : fexp prec emax (Z.pos (digits2_pos (Pos.iter xO m p)) + E0)
                 = E0).
    { rewrite Hdz.
      replace (Z.pos (digits2_pos m) + Z.pos p + E0)
        with (Z.pos (digits2_pos m) + ez) by lia.
      reflexivity. }
    rewrite binary_round_aux_exact by lia.
    rewrite canon_xval by exact Hc.
    rewrite rnd_mag_exact by (try fold E0; lia).
    do 2 f_equal; unfold mag; rewrite Hmz, <- Z.mul_assoc, <- Z.pow_add_r by lia.
    do 2 f_equal; lia.
Qed.

Lemma top_pos : 0 < top.
Proof. reflexivity. Qed.

Lemma rnd_pos (v : Z) : 0 < v -> 0 < rnd v.
Proof.
  intros H; pose proof (rnd_lower v H).
  assert (0 < 2 ^ Z.log2 v)
    by (apply Z.pow_pos_nonneg; [lia | apply Z.log2_nonneg]).
  lia.
Qed.

Lemma rndZ_mono (v1 v2 : Z) : v1 <= v2 -> rndZ v1 <= rndZ v2.
Proof.
  intros H; unfold rndZ; pose proof top_pos.
  destruct (Z.eqb_spec v1 0), (Z.eqb_spec v2 0);
    destruct (Z.ltb_spec 0 v1), (Z.ltb_spec 0 v2); try lia.
  - pose proof (rnd_pos v2); lia.
  - pose proof (rnd_pos (- v1)); lia.
  - pose proof (rnd_mono v1 v2); lia.
  - pose proof (rnd_pos (- v1)); pose proof (rnd_pos v2); lia.
  - pose proof (rnd_mono (- v2) (- v1)); lia.
Qed.

Lemma rndZ_bound (v : Z) : - top <= rndZ v <= top.
Proof.
  unfold rndZ; pose proof top_pos.
  destruct (Z.eqb_spec v 0); [lia |].
  destruct (Z.ltb_spec 0 v).
  - pose proof (rnd_pos v); lia.
  - pose proof (rnd_pos (- v)); lia.
Qed.

Lemma mag_pos (m : positive) (e : Z) : emin <= e -> 0 < mag m e.
Proof.
  intros He; unfold mag; apply Z.mul_pos_pos; [lia |].
  apply Z.pow_pos_nonneg; lia.
Qed.

Lemma binary_normalize_xval (M ez : Z) :
  emin <= ez ->
  xval (binary_normalize prec emax M ez false) = rndZ (M * 2 ^ (ez - emin)).
Proof.
  intros He; unfold binary_normalize, rndZ.
  destruct M as [| m | m].
  - reflexivity.
  - rewrite binary_round_xval by assumption.
    pose proof (mag_pos m ez He) as Hp; unfold mag in Hp.
    destruct (Z.eqb_spec (Z.pos m * 2 ^ (ez - emin)) 0); [lia |].
    destruct (Z.ltb_spec 0 (Z.pos m * 2 ^ (ez - emin))); [| lia].
    reflexivity.
  - rewrite binary_round_xval by assumption.
    pose proof (mag_pos m ez He) as Hp; unfold mag in Hp.
    assert (Hneg : Z.neg m * 2 ^ (ez - emin) = - (Z.pos m * 2 ^ (ez - emin)))
      by (rewrite <- Pos2Z.opp_pos; ring).
    rewrite Hneg.
    destruct (Z.eqb_spec (- (Z.pos m * 2 ^ (ez - emin))) 0); [lia |].
    destruct (Z.ltb_spec 0 (- (Z.pos m * 2 ^ (ez - emin)))); [lia |].
    rewrite Z.opp_involutive; reflexivity.
Qed.

Lemma bounded_facts (m : positive) (e : Z) :
  bounded prec emax m e = true ->
  fexp prec emax (Z.pos (digits2_pos m) + e) = e /\
  emin <= e /\ 0 < mag m e < top /\ rnd (mag m e) = mag m e.
Proof.
  unfold bounded, canonical_mantissa; intros H.
  apply andb_true_iff in H as [Hc Hb].
  apply Z.eqb_eq in Hc; apply Z.leb_le in Hb.
  assert (He : emin <= e) by (rewrite <- Hc; unfold fexp; fold emin; lia).
  split; [exact Hc | split; [exact He |]].
  pose proof (canon_xval false m e Hc) as Hx.
  destruct (Z.leb_spec e (emax - prec)); [| lia].
  cbn [xval cond_Zopp] in Hx.
  pose proof (mag_pos m e He).
  assert (Hlt : mag m e < top).
  { pose proof (log2_mag m e He) as Hl.
    destruct (Z.log2_spec (mag m e) ltac:(lia)) as [_ Hhi].
    replace (Z.succ (Z.log2 (mag m e))) with (Z.log2 (mag m e) + 1) in Hhi
      by lia.
    assert (2 ^ (Z.log2 (mag m e) + 1) <= top); [| lia].
    unfold top; apply Z.pow_le_mono_r; [lia |].
    unfold fexp in Hc; fold emin in Hc; lia. }
  repeat split; try lia.
  apply rnd_mag_exact; lia.
Qed.

Lemma rndZ_xval (f : spec_float) :
  valid_binary f = true -> finite_or_zero f = true -> rndZ (xval f) = xval f.
Proof.
  destruct f as [s | s | | s m e]; try discriminate; intros Hv _.
  - reflexivity.
  - cbn [valid_binary] in Hv.
    destruct (bounded_facts m e Hv) as (_ & _ & [Hp Ht] & Hr).
    unfold rndZ; cbn [xval]; destruct s; cbn [cond_Zopp].
    + destruct (Z.eqb_spec (- mag m e) 0); [lia |].
      destruct (Z.ltb_spec 0 (- mag m e)); [lia |].
      rewrite Z.opp_involutive, Hr; lia.
    + destruct (Z.eqb_spec (mag m e) 0); [lia |].
      destruct (Z.ltb_spec 0 (mag m e)); [| lia].
      rewrite Hr; lia.
Qed.

Lemma shl_align_fst (m : positive) (e ez : Z) :
  ez <= e ->
  Z.pos (fst (shl_align m e ez)) = Z.pos m * 2 ^ (e - ez).
Proof.
  intros H; unfold shl_align.
  destruct (ez - e) as [| p | p] eqn:E; cbn [fst]; try lia.
  - replace (e - ez) with 0 by lia; lia.
  - change (Pos.iter xO m p) with (shift_pos p m).
    rewrite shift_pos_correct, Z.mul_comm.
    replace (e - ez) with (Z.pos p) by lia; reflexivity.
Qed.

Lemma xval_aligned (s : bool) (m : positive) (e ez : Z) :
  emin <= ez -> ez <= e ->
  cond_Zopp s (Z.pos (fst (shl_align m e ez))) * 2 ^ (ez - emin)
  = xval (S754_finite s m e).
Proof.
  intros H1 H2; rewrite shl_align_fst by assumption.
  cbn [xval]; unfold mag.
  replace (e - emin) with ((e - ez) + (ez - emin)) by lia.
  rewrite Z.pow_add_r by lia.
  destruct s; cbn [cond_Zopp]; ring.
Qed.

Lemma SFsub_xval (a k : spec_float) :
  valid_binary a = true -> valid_binary k = true ->
  finite_or_zero a = true -> finite_or_zero k = true ->
  xval (SF64sub a k) = rndZ (xval a - xval k).
Proof.
  intros Va Vk Fa Fk.
  destruct a as [sa | sa | | sa ma ea]; try discriminate;
    destruct k as [sk | sk | | sk mk ek]; try discriminate.
  - destruct sa, sk; reflexivity.
  - change (SF64sub (S754_zero sa) (S754_finite sk mk ek))
      with (S754_finite (negb sk) mk ek).
    rewrite <- (rndZ_xval (S754_finite (negb sk) mk ek)) by assumption.
    f_equal; cbn [xval]; destruct sk; cbn [cond_Zopp negb]; lia.
  - change (SF64sub (S754_finite sa ma ea) (S754_zero sk))
      with (S754_finite sa ma ea).
    rewrite <- (rndZ_xval (S754_finite sa ma ea)) at 1 by assumption.
    f_equal; cbn [xval]; lia.
  - cbn [valid_binary] in Va, Vk.
    destruct (bounded_facts ma ea Va) as (_ & Hea & _).
    destruct (bounded_facts mk ek Vk) as (_ & Hek & _).
    unfold SF64sub, SFsub.
    rewrite binary_normalize_xval by lia.
    f_equal.
    rewrite Z.mul_sub_distr_r, !xval_aligned by lia.
    reflexivity.
Qed.

Lemma mag_compare (m1 m2 : positive) (e1 e2 : Z) :
  bounded prec emax m1 e1 = true -> bounded prec emax m2 e2 = true ->
  (mag m1 e1 ?= mag m2 e2)
  = match e1 ?= e2 with
    | Lt => Lt
    | Gt => Gt
    | Eq => Pos.compare_cont Eq m1 m2
    end.
Proof.
  intros H1 H2.
  destruct (bounded_facts m1 e1 H1) as (Hc1 & He1 & [Hp1 _] & _).
  destruct (bounded_facts m2 e2 H2) as (Hc2 & He2 & [Hp2 _] & _).
  pose proof (log2_mag m1 e1 He1) as Hl1.
  pose proof (log2_mag m2 e2 He2) as Hl2.
  unfold fexp in Hc1, Hc2; fold emin in Hc1, Hc2.
  destruct (Z.compare_spec e1 e2) as [E | L | G].
  - subst e2; unfold mag.
    rewrite <- Zmult_compare_compat_r
      by (apply Z.lt_gt, Z.pow_pos_nonneg; lia).
    reflexivity.
  - apply Z.compare_lt_iff, Z.log2_lt_cancel; lia.
  - apply Z.compare_gt_iff, Z.log2_lt_cancel; lia.
Qed.

Ltac solve_compare :=
  first [ apply Z.compare_eq_iff; lia
        | apply Z.compare_lt_iff; lia
        | apply Z.compare_gt_iff; lia ].

Lemma SFcompare_xval (a b : spec_float) :
  valid_binary a = true -> valid_binary b = true ->
  a <> S754_nan -> b <> S754_nan ->
  SFcompare a b = Some (xval a ?= xval b).
Proof.
  intros Va Vb Na Nb; pose proof top_pos as Ht.
  destruct a as [sa | sa | | sa ma ea]; try congruence;
    destruct b as [sb | sb | | sb mb eb]; try congruence;
    cbn [valid_binary] in Va, Vb; cbn [SFcompare xval]; f_equal; symmetry;
    try (destruct (bounded_facts ma ea Va) as (_ & _ & [Hpa Hta] & _));
    try (destruct (bounded_facts mb eb Vb) as (_ & _ & [Hpb Htb] & _));
    try (destruct sb; cbn [cond_Zopp]; solve_compare);
    try (destruct sa; cbn [cond_Zopp]; solve_compare);
    try (destruct sa, sb; cbn [cond_Zopp]; solve_compare).
  destruct sa, sb; cbn [cond_Zopp]; try solve_compare.
  - rewrite Z.compare_opp.
    rewrite (mag_compare mb ma eb ea) by assumption.
    rewrite (Z.compare_antisym eb ea).
    destruct (eb ?= ea); cbn [CompOpp]; try reflexivity.
    rewrite Pos.compare_cont_antisym; reflexivity.
  - apply mag_compare; assumption.
Qed.

Lemma SFleb_xval (a b : spec_float) :
  valid_binary a = true -> valid_binary b = true ->
  a <> S754_nan -> b <> S754_nan ->
  SFleb a b = (xval a <=? xval b).
Proof.
  intros Va Vb Na Nb; unfold SFleb, Z.leb.
  rewrite (SFcompare_xval a b) by assumption.
  destruct (xval a ?= xval b); reflexivity.
Qed.

Lemma SFleb_not_nan (a b : spec_float) :
  SFleb a b = true -> a <> S754_nan /\ b <> S754_nan.
Proof.
  unfold SFleb; destruct a, b; simpl; intros H; split; congruence.
Qed.

Lemma xval_not_nan (f : spec_float) : - top <= xval f <= top -> f <> S754_nan.
Proof.
  pose proof top_pos; intros H0 ->; cbn [xval] in H0; lia.
Qed.

Lemma SF64sub_le_mono (a b k : spec_float) :
  valid_binary a = true -> valid_binary b = true -> valid_binary k = true ->
  valid_binary (SF64sub a k) = true -> valid_binary (SF64sub b k) = true ->
  finite_or_zero k = true ->
  SFleb a b = true -> SFleb (SF64sub a k) (SF64sub b k) = true.
Proof.
  intros Va Vb Vk Vra Vrb Fk Hle.
  destruct (SFleb_not_nan a b Hle) as [Na Nb].
  rewrite SFleb_xval in Hle by assumption; apply Z.leb_le in Hle.
  pose proof top_pos as Ht.
  assert (Hfin : forall f, valid_binary f = true -> finite_or_zero f = true ->
                   - top <= xval (SF64sub f k) <= top /\
                   xval (SF64sub f k) = rndZ (xval f - xval k)).
  { intros f Vf Ff; rewrite (SFsub_xval f k) by assumption.
    split; [apply rndZ_bound | reflexivity]. }
  assert (Hinf : forall s, SF64sub (S754_infinity s) k = S754_infinity s).
  { intros s; destruct k; try discriminate; reflexivity. }
  assert (Hxk : forall f, valid_binary f = true -> finite_or_zero f = true ->
                   - top < xval f < top).
  { intros [s | s | | s m e] Vf Ff; try discriminate; cbn [xval].
    - lia.
    - destruct (bounded_facts m e Vf) as (_ & _ & [Hp Hq] & _).
      destruct s; cbn [cond_Zopp]; lia. }
  destruct (finite_or_zero a) eqn:Fa, (finite_or_zero b) eqn:Fb.
  - destruct (Hfin a Va Fa) as [Ba Ea], (Hfin b Vb Fb) as [Bb Eb].
    rewrite SFleb_xval; try assumption; try (apply xval_not_nan; assumption).
    apply Z.leb_le; rewrite Ea, Eb; apply rndZ_mono; lia.
  - destruct (Hfin a Va Fa) as [Ba Ea].
    destruct b as [sb | sb | | sb mb eb]; try discriminate; try congruence.
    pose proof (Hxk a Va Fa) as Ha; cbn [xval] in Hle.
    destruct sb; cbn [cond_Zopp] in Hle; [lia |].
    rewrite Hinf, SFleb_xval; try assumption; try discriminate;
      try (apply xval_not_nan; assumption).
    apply Z.leb_le; cbn [xval cond_Zopp]; lia.
  - destruct (Hfin b Vb Fb) as [Bb Eb].
    destruct a as [sa | sa | | sa ma ea]; try discriminate; try congruence.
    pose proof (Hxk b Vb Fb) as Hb; cbn [xval] in Hle.
    destruct sa; cbn [cond_Zopp] in Hle; [| lia].
    rewrite Hinf, SFleb_xval; try assumption; try discriminate;
      try (apply xval_not_nan; assumption).
    apply Z.leb_le; cbn [xval cond_Zopp]; lia.
  - destruct a as [sa | sa | | sa ma ea]; try discriminate; try congruence;
      destruct b as [sb | sb | | sb mb eb]; try discriminate; try congruence.
    rewrite !Hinf; cbn [xval] in Hle.
    destruct sa, sb; cbn [cond_Zopp] in Hle; try reflexivity; lia.
Qed.

Lemma finite_or_zero_Prim2SF (x : float) :
  is_finite x = true -> finite_or_zero (Prim2SF x) = true.
Proof.
  unfold is_finite; intros H.
  apply negb_true_iff, orb_false_iff in H as [Hnan Hinf].
  unfold Prim2SF; rewrite Hnan, Hinf.
  destruct (is_zero x); [reflexivity |].
  destruct (Z.frexp x) as [r ex].
  destruct (shr_fexp prec emax _ _ _) as [mrs e'].
  destruct (shr_m mrs); reflexivity.
Qed.

Lemma sub_le_mono (x y c : float) :
  is_finite c = true ->
  PrimFloat.leb x y = true ->
  PrimFloat.leb (PrimFloat.sub x c) (PrimFloat.sub y c) = true.
Proof.
  intros Hc Hle.
  rewrite leb_spec in Hle |- *; rewrite !sub_spec.
  apply SF64sub_le_mono; try apply Prim2SF_valid; try assumption.
  - rewrite <- sub_spec; apply Prim2SF_valid.
  - rewrite <- sub_spec; apply Prim2SF_valid.
  - now apply finite_or_zero_Prim2SF.
Qed.

End FloatOrder.

(** ** The relative time column *)

Lemma nondecreasing_sub (c : float) (l : list float) :
  is_finite c = true -> nondecreasing l = true ->
  nondecreasing (map (fun x => PrimFloat.sub x c) l) = true.
Proof.
  intros Hc; induction l as [| x [| y l] IH]; simpl; auto.
  intros H; apply andb_true_iff in H as [Hxy Hl].
  rewrite (sub_le_mono x y c Hc Hxy); simpl.
  exact (IH Hl).
Qed.

Lemma nums_inj (xs ys : list float) : nums xs = nums ys -> xs = ys.
Proof.
  revert ys; induction xs as [| x xs IH]; intros [| y ys] H;
    try discriminate; [reflexivity |].
  inversion H; f_equal; auto.
Qed.

Lemma fillna_nums (d : float) (xs : list float) :
  fillna d (nums xs) = nums (map (fun x => if is_nan x then d else x) xs).
Proof.
  unfold fillna, nums; rewrite !map_map.
  apply map_ext; intros x; simpl; destruct (is_nan x); reflexivity.
Qed.

Section RelativeTime.
Context {env : PyEnv}.

(** [load_vut] on a table whose [Time] column holds numbers and has a
    first row. *)
Lemma load_vut_numeric (file_bytes : bytes) (raw : DataFrame)
  (x0 : float) (xs : list float) :
  _read_tabular file_bytes = Ok raw ->
  get_col (normalized raw) "Time" = Ok (nums (x0 :: xs)) ->
  numeric_col (normalized raw) "VUT_vel_abs" ->
  exists df,
    load_vut file_bytes = Ok df /\
    get_col df "t"
    = Ok (nums (map (fun x => PrimFloat.sub x x0) (x0 :: xs))).
Proof.
  intros Hread Htime Hvel.
  unfold load_vut; rewrite Hread; cbn [bind].
  fold (normalized raw); rewrite Htime; cbn [bind].
  change (iloc0 (nums (x0 :: xs))) with (@Ok cell (Num x0)); cbn [bind].
  rewrite series_op_nums; cbn [bind].
  rewrite has_set_col_other by discriminate.
  destruct (has_col (normalized raw) "VUT_vel_abs") eqn:E.
  - rewrite get_set_col_other by discriminate.
    destruct (has_col_get _ _ E) as [vel Hv]; rewrite Hv; cbn [bind].
    destruct (numeric_nums vel (Hvel vel Hv)) as [vs ->].
    rewrite fillna_nums, series_op_nums; cbn [bind].
    eexists; split; [reflexivity |].
    rewrite !get_set_col_other by discriminate.
    apply get_set_col_same.
  - eexists; split; [reflexivity |].
    apply get_set_col_same.
Qed.

(** Whenever [load_vut] returns, the [Time] column held numbers and had a
    first row. *)
Lemma load_vut_time (file_bytes : bytes) (raw df : DataFrame) :
  _read_tabular file_bytes = Ok raw ->
  load_vut file_bytes = Ok df ->
  exists x0 xs,
    get_col (normalized raw) "Time" = Ok (nums (x0 :: xs)) /\
    get_col df "t"
    = Ok (nums (map (fun x => PrimFloat.sub x x0) (x0 :: xs))).
Proof.
  intros Hread; unfold load_vut; rewrite Hread; cbn [bind].
  fold (normalized raw); intros H.
  apply bind_ok in H as (time & Htime & H).
  apply bind_ok in H as (time0 & H0 & H).
  apply bind_ok in H as (t & Ht & H).
  assert (Hne : time <> []) by (destruct time; [discriminate | congruence]).
  destruct (series_op_ok _ _ _ _ Hne Ht) as (ys & k & -> & -> & ->).
  destruct ys as [| x0 xs]; [now contradiction Hne |].
  simpl in H0; inversion H0; subst k.
  exists x0, xs; split; [exact Htime |].
  destruct (has_col (set_col (normalized raw) "t" _) "VUT_vel_abs").
  - apply bind_ok in H as (vel_abs & _ & H).
    apply bind_ok in H as (vel_kmh & _ & H).
    inversion H; subst df.
    rewrite !get_set_col_other by discriminate.
    apply get_set_col_same.
  - inversion H; subst df; apply get_set_col_same.
Qed.

(** C4, as the code has it.  On a vehicle table whose [Time] column holds
    numbers and has at least one row (and whose absolute velocity, when
    present, holds numbers), [load_vut] returns; and whenever it returns,
    the table has a column [t] where [t[i]] is the binary64 difference
    [Time[i] - Time[0]], and when [Time[0]] is finite, [t[0]] is 0.0 and
    [t] is non-decreasing whenever [Time] is. *)
Theorem load_vut_relative_time (file_bytes : bytes) (raw : DataFrame) :
  _read_tabular file_bytes = Ok raw ->
  (forall x0 xs,
     get_col (normalized raw) "Time" = Ok (nums (x0 :: xs)) ->
     numeric_col (normalized raw) "VUT_vel_abs" ->
     exists df, load_vut file_bytes = Ok df) /\
  (forall df,
     load_vut file_bytes = Ok df ->
     exists x0 xs,
       get_col (normalized raw) "Time" = Ok (nums (x0 :: xs)) /\
       get_col df "t"
       = Ok (nums (map (fun x => PrimFloat.sub x x0) (x0 :: xs))) /\
       (is_finite x0 = true ->
        PrimFloat.sub x0 x0 = 0%float /\
        PrimFloat.eqb (PrimFloat.sub x0 x0) 0 = true /\
        (nondecreasing (x0 :: xs) = true ->
         nondecreasing (map (fun x => PrimFloat.sub x x0) (x0 :: xs))
         = true))).
Proof.
  intros Hread; split.
  - intros x0 xs Htime Hvel.
    destruct (load_vut_numeric _ _ _ _ Hread Htime Hvel) as (df & Hdf & _).
    eauto.
  - intros df Hdf.
    destruct (load_vut_time _ _ _ Hread Hdf) as (x0 & xs & Htime & Ht).
    exists x0, xs; split; [exact Htime | split; [exact Ht |]].
    intros Hfin; split; [now apply sub_self_finite | split].
    + now rewrite sub_self_finite.
    + now apply nondecreasing_sub.
Qed.

End RelativeTime.

Lemma load_vut_relative_time_witness :
  exists df,
    @load_vut (fixture_env time_files) csv_two_rows = Ok df /\
    get_col df "t" = Ok (nums [0; 1]%float) /\
    nondecreasing [0; 1]%float = true.
Proof.
  destruct (@load_vut_relative_time (fixture_env time_files) csv_two_rows
              df_two_rows eq_refl) as [Htotal Hret].
  destruct (Htotal 0%float [1%float] eq_refl) as [df Hdf].
  - intros col H; vm_compute in H; inversion H; reflexivity.
  - destruct (Hret df Hdf) as (x0 & xs & Htime & Ht & Hfin).
    assert (E : [0; 1]%float = x0 :: xs).
    { apply nums_inj.
      change (get_col (normalized df_two_rows) "Time")
        with (Ok (nums [0; 1]%float)) in Htime.
      exact (f_equal (fun r => match r with
                               | Ok col => col
                               | Raise _ => []
                               end) Htime). }
    inversion E; subst x0 xs.
    destruct (Hfin eq_refl) as (_ & _ & Hmono).
    exists df; split; [exact Hdf | split; [exact Ht | exact (Hmono eq_refl)]].
Defined.

(** Two tables on which the claim fails.  With the first [Time] value
    missing, [t[0]] is NaN and not 0.0.  With [Time] going from
    9007199254740998 down to 9007199254740996 after a first value of 1,
    both differences round to 9007199254740996, so [t] is non-decreasing
    while [Time] is not. *)
Lemma load_vut_relative_time_counterexample :
  (bind (@load_vut (fixture_env time_files) csv_time_missing)
        (fun df => get_col df "t") = Ok (nums [nan; nan]%float) /\
   PrimFloat.eqb nan 0 = false) /\
  (bind (@load_vut (fixture_env time_files) csv_time_rounding)
        (fun df => get_col df "t")
   = Ok (nums [0; 9007199254740996; 9007199254740996]%float) /\
   nondecreasing [0; 9007199254740996; 9007199254740996]%float = true /\
   nondecreasing [1; 9007199254740998; 9007199254740996]%float = false).
Proof.
  repeat split.
Qed.

Lemma validate_actors_no_warnings_witness :
  @validate_actors (fixture_env actor_files) df_actor_345 = Ok ([], []).
Proof.
  destruct (@validate_actors_no_warnings (fixture_env actor_files)
              df_actor_345) as [Hnone Htotal].
  destruct Htotal as [errs Herrs].
  - intros name Hin col Hget.
    simpl in Hin; intuition (subst; vm_compute in Hget; inversion Hget;
                             reflexivity).
  - rewrite Herrs; f_equal; f_equal.
    vm_compute in Herrs; inversion Herrs; reflexivity.
Defined.

(** ** Rebuilt absolute velocity *)

Lemma select_map {A B : Type} (f : A -> B) (mask : list bool) (l : list A) :
  select mask (map f l) = map f (select mask l).
Proof.
  revert l; induction mask as [| b mask IH]; intros [| a l]; simpl; auto.
  destruct b; simpl; now rewrite IH.
Qed.

Lemma series_square_nums (xs : list float) :
  series_square (nums xs) = Ok (nums (map (fun x => PrimFloat.mul x x) xs)).
Proof.
  unfold series_square, nums.
  rewrite (mapM_total _ (fun c => match c with
                                  | Num x => Num (PrimFloat.mul x x)
                                  | Str t => Str t
                                  end)).
  - now rewrite !map_map.
  - intros c Hc; apply in_map_iff in Hc as (x & <- & _); reflexivity.
Qed.

Lemma series_add_nums (xs ys : list float) :
  series_add (nums xs) (nums ys)
  = Ok (nums (map (fun p => PrimFloat.add (fst p) (snd p)) (combine xs ys))).
Proof.
  revert ys; induction xs as [| x xs IH]; intros [| y ys]; try reflexivity.
  cbn [nums map series_add cell_op bind combine fst snd].
  change (map Num xs) with (nums xs); change (map Num ys) with (nums ys).
  rewrite IH; reflexivity.
Qed.

Lemma series_sqrt_nums (xs : list float) :
  series_sqrt (nums xs) = Ok (nums (map PrimFloat.sqrt xs)).
Proof.
  unfold series_sqrt, nums.
  rewrite (mapM_total _ (fun c => match c with
                                  | Num x => Num (PrimFloat.sqrt x)
                                  | Str t => Str t
                                  end)).
  - now rewrite !map_map.
  - intros c Hc; apply in_map_iff in Hc as (x & <- & _); reflexivity.
Qed.

Lemma scatter_magnitudes (vel_abs : list cell) (lats lngs : list float)
  (i : nat) (a : cell) (la ln : float) :
  nth_error vel_abs i = Some a ->
  nth_error lats i = Some la ->
  nth_error lngs i = Some ln ->
  nth_error
    (scatter (map zero_or_missing vel_abs) vel_abs
       (nums (map (fun p => magnitude_of (fst p) (snd p))
                  (combine (select (map zero_or_missing vel_abs) lats)
                           (select (map zero_or_missing vel_abs) lngs)))))
    i
  = Some (if zero_or_missing a then Num (magnitude_of la ln) else a).
Proof.
  revert lats lngs i;
    induction vel_abs as [| a0 vel_abs IH]; intros lats lngs i Ha Hla Hln.
  - destruct i; discriminate.
  - destruct lats as [| la0 lats]; [destruct i; discriminate |].
    destruct lngs as [| ln0 lngs]; [destruct i; discriminate |].
    cbn [map select scatter].
    destruct (zero_or_missing a0) eqn:E0; cbn [combine map nums scatter].
    + destruct i as [| i]; simpl in Ha, Hla, Hln |- *.
      * inversion Ha; inversion Hla; inversion Hln; subst.
        now rewrite E0.
      * apply IH; assumption.
    + destruct i as [| i]; simpl in Ha, Hla, Hln |- *.
      * inversion Ha; subst; now rewrite E0.
      * apply IH; assumption.
Qed.

Section RebuiltVelocity.
Context {env : PyEnv}.

(** X6: with all three velocity columns present, the lateral and
    longitudinal ones holding numbers, [load_actors] returns a table in
    which the absolute velocity of every row where it was zero or missing
    is [sqrt(lat^2 + lng^2)] with missing components as 0.0, and every
    other absolute velocity is unchanged. *)
Lemma load_actors_vel_abs (file_bytes : bytes) (raw : DataFrame)
  (vel_abs : list cell) (lats lngs : list float) :
  _read_tabular file_bytes = Ok raw ->
  get_col (normalized raw) "Actor_vel_abs" = Ok vel_abs ->
  get_col (normalized raw) "Actor_vel_lat" = Ok (nums lats) ->
  get_col (normalized raw) "Actor_vel_lng" = Ok (nums lngs) ->
  exists df vel_abs',
    load_actors file_bytes = Ok df /\
    get_col df "Actor_vel_abs" = Ok vel_abs' /\
    List.length vel_abs' = List.length vel_abs /\
    forall i a la ln,
      nth_error vel_abs i = Some a ->
      nth_error lats i = Some la ->
      nth_error lngs i = Some ln ->
      nth_error vel_abs' i
      = Some (if zero_or_missing a then Num (magnitude_of la ln) else a).
Proof.
  intros Hread Habs Hlat Hlng.
  unfold load_actors; rewrite Hread; cbn [bind].
  fold (normalized raw).
  rewrite (get_col_has _ _ _ Habs), (get_col_has _ _ _ Hlat); cbn [andb].
  rewrite Habs, Hlat, Hlng; cbn [bind].
  assert (Hmask : map (fun c => cell_eqb c (Num 0)) (fillna 0 vel_abs)
                  = map zero_or_missing vel_abs).
  { unfold fillna; rewrite map_map; reflexivity. }
  rewrite Hmask.
  set (mask := map zero_or_missing vel_abs).
  unfold nums at 1 2; rewrite !select_map.
  fold (nums (select mask lats)); fold (nums (select mask lngs)).
  rewrite !fillna_nums, !series_square_nums; cbn [bind].
  rewrite series_add_nums; cbn [bind].
  rewrite series_sqrt_nums; cbn [bind].
  eexists _, _; split; [reflexivity |].
  split; [apply get_set_col_same |].
  split; [apply scatter_length |].
  intros i a la ln Ha Hla Hln.
  rewrite <- (scatter_magnitudes vel_abs lats lngs i a la ln Ha Hla Hln).
  fold mask; do 3 f_equal.
  rewrite !map_map.
  generalize (select mask lats) (select mask lngs).
  induction l as [| x l IH]; intros [| y l']; simpl; try reflexivity.
  now rewrite IH.
Qed.

End RebuiltVelocity.

(** * Further properties of the loaders *)

(** ** Column names *)

Lemma lstrip_idem (l : list ascii) : lstrip (lstrip l) = lstrip l.
Proof.
  induction l as [| a l IH]; simpl; [reflexivity |].
  destruct (is_space a) eqn:E; [exact IH | simpl; now rewrite E].
Qed.

Lemma lstrip_suffix (l : list ascii) :
  exists spaces, l = spaces ++ lstrip l.
Proof.
  induction l as [| a l [sp IH]]; simpl.
  - exists []; reflexivity.
  - destruct (is_space a).
    + exists (a :: sp); simpl; now rewrite <- IH.
    + exists []; reflexivity.
Qed.

Lemma lstrip_fixed_app (l l' : list ascii) :
  l <> [] -> lstrip (l ++ l') = l ++ l' -> lstrip l = l.
Proof.
  destruct l as [| a l]; [congruence |]; simpl; intros _ H.
  destruct (is_space a); [| reflexivity].
  exfalso.
  destruct (lstrip_suffix (l ++ l')) as [sp Hsp].
  assert (Hlen : List.length (l ++ l')
                 = (List.length sp + List.length (lstrip (l ++ l')))%nat)
    by (rewrite Hsp at 1; apply length_app).
  rewrite H in Hlen; simpl in Hlen; lia.
Qed.

Lemma rstrip_keeps_lstrip (l : list ascii) :
  lstrip l = l -> lstrip (rev (lstrip (rev l))) = rev (lstrip (rev l)).
Proof.
  intros H.
  destruct (lstrip_suffix (rev l)) as [sp Hsp].
  destruct (lstrip (rev l)) as [| a s] eqn:E; [reflexivity |].
  assert (Hl : l = rev (a :: s) ++ rev sp).
  { rewrite <- rev_app_distr, <- Hsp; now rewrite rev_involutive. }
  apply (lstrip_fixed_app _ (rev sp)).
  - simpl; intros Hnil; apply app_eq_nil in Hnil as [_ Hnil]; discriminate.
  - now rewrite <- Hl.
Qed.

Lemma strip_idem (s : string) : strip (strip s) = strip s.
Proof.
  unfold strip; rewrite list_ascii_of_string_of_list_ascii.
  set (l := lstrip (list_ascii_of_string s)).
  assert (Hl : lstrip l = l) by apply lstrip_idem.
  rewrite (rstrip_keeps_lstrip l Hl), rev_involutive, lstrip_idem.
  reflexivity.
Qed.

Lemma col_names_set_col (df : DataFrame) (name : string) (vals : list cell)
  (n : string) :
  In n (col_names (set_col df name vals)) -> n = name \/ In n (col_names df).
Proof.
  unfold col_names, set_col; simpl.
  induction (columns df) as [| [n0 c0] cols IH]; simpl.
  - intros [<- | []]; auto.
  - destruct (String.eqb name n0); simpl; intros [<- | H]; auto.
    destruct (IH H); auto.
Qed.

Lemma col_names_normalized (raw : DataFrame) (n : string) :
  In n (col_names (normalized raw)) ->
  String.prefix "Unnamed" n = false /\ strip n = n.
Proof.
  unfold col_names, normalized; simpl; intros H.
  apply in_map_iff in H as ([n' c] & <- & H).
  apply filter_In in H as [H Hp].
  apply in_map_iff in H as ([n0 c0] & E & _); inversion E; subst; simpl in *.
  split; [now apply negb_true_iff | apply strip_idem].
Qed.

Section LoaderNames.
Context {env : PyEnv}.

(** X1: a table returned by [load_vut] or by [load_actors] has no column
    whose name starts with "Unnamed", and every column name is free of
    surrounding white space. *)
Theorem loaders_normalize_names (file_bytes : bytes) (df : DataFrame) :
  load_vut file_bytes = Ok df \/ load_actors file_bytes = Ok df ->
  forall n, In n (col_names df) ->
            String.prefix "Unnamed" n = false /\ strip n = n.
Proof.
  intros [H | H] n Hn.
  - unfold load_vut in H.
    apply bind_ok in H as (raw & _ & H); fold (normalized raw) in H.
    apply bind_ok in H as (time & _ & H).
    apply bind_ok in H as (time0 & _ & H).
    apply bind_ok in H as (t & _ & H).
    destruct (has_col (set_col (normalized raw) "t" t) "VUT_vel_abs").
    + apply bind_ok in H as (vel_abs & _ & H).
      apply bind_ok in H as (vel_kmh & _ & H).
      inversion H; subst df.
      apply col_names_set_col in Hn as [-> | Hn]; [split; reflexivity |].
      apply col_names_set_col in Hn as [-> | Hn]; [split; reflexivity |].
      apply col_names_set_col in Hn as [-> | Hn]; [split; reflexivity |].
      now apply col_names_normalized in Hn.
    + inversion H; subst df.
      apply col_names_set_col in Hn as [-> | Hn]; [split; reflexivity |].
      now apply col_names_normalized in Hn.
  - unfold load_actors in H.
    apply bind_ok in H as (raw & _ & H); fold (normalized raw) in H.
    destruct (has_col (normalized raw) "Actor_vel_abs"
              && has_col (normalized raw) "Actor_vel_lat").
    + apply bind_ok in H as (vel_abs & _ & H).
      apply bind_ok in H as (lat & _ & H).
      apply bind_ok in H as (lat2 & _ & H).
      apply bind_ok in H as (lng & _ & H).
      apply bind_ok in H as (lng2 & _ & H).
      apply bind_ok in H as (total & _ & H).
      apply bind_ok in H as (magnitude & _ & H).
      inversion H; subst df.
      apply col_names_set_col in Hn as [-> | Hn]; [split; reflexivity |].
      now apply col_names_normalized in Hn.
    + inversion H; subst df; now apply col_names_normalized in Hn.
Qed.

End LoaderNames.

Lemma loaders_normalize_names_witness :
  exists df,
    @load_vut (fixture_env loader_files) csv_padded = Ok df /\
    col_names df
    = ["Time"; "Step_number"; "VUT_vel_abs"; "t"; "VUT_vel_ms"; "VUT_vel_kmh"] /\
    Forall (fun n => String.prefix "Unnamed" n = false /\ strip n = n)
           (col_names df).
Proof.
  destruct (@load_vut (fixture_env loader_files) csv_padded) as [df | e] eqn:E;
    [| vm_compute in E; discriminate].
  exists df; split; [reflexivity | split].
  - vm_compute in E; inversion E; reflexivity.
  - apply Forall_forall; intros n Hn.
    exact (@loaders_normalize_names (fixture_env loader_files) csv_padded df
             (or_introl E) n Hn).
Defined.

(** ** What [load_vut] keeps, adds and rejects *)

Lemma lookup_normalized (cols : list (string * list cell)) (n : string)
  (c : list cell) :
  NoDup (map strip (map fst cols)) ->
  In (n, c) cols ->
  String.prefix "Unnamed" (strip n) = false ->
  lookup_col (strip n)
    (filter (fun nc => negb (String.prefix "Unnamed" (fst nc)))
            (map (fun nc => (strip (fst nc), snd nc)) cols))
  = Some c.
Proof.
  intros Hnd Hin Hp; induction cols as [| [n0 c0] cols IH]; [contradiction |].
  simpl in Hnd; inversion Hnd as [| x l Hnotin Hnd']; subst.
  simpl.
  destruct (String.eqb_spec (strip n) (strip n0)) as [E | N].
  - assert (Hhead : (n, c) = (n0, c0)).
    { destruct Hin as [Hin | Hin]; [now symmetry |].
      exfalso; apply Hnotin; rewrite <- E.
      apply in_map, (in_map fst _ (n, c)), Hin. }
    inversion Hhead; subst n0 c0.
    rewrite Hp; simpl; now rewrite String.eqb_refl.
  - destruct Hin as [Hin | Hin]; [inversion Hin; subst; congruence |].
    destruct (String.prefix "Unnamed" (strip n0)); simpl.
    + now apply IH.
    + destruct (String.eqb_spec (strip n) (strip n0)); [contradiction |].
      now apply IH.
Qed.

Lemma fillna_is_nums (d : float) (col : list cell) (xs : list float) :
  fillna d col = nums xs -> exists vs, col = nums vs.
Proof.
  revert xs; induction col as [| c col IH]; intros [| x xs] H;
    try discriminate.
  - exists []; reflexivity.
  - simpl in H; inversion H as [[Hc Hrest]].
    destruct (IH _ Hrest) as [vs ->].
    destruct c as [y | t]; [exists (y :: vs); reflexivity |].
    simpl in Hc; discriminate.
Qed.

Section LoadVut.
Context {env : PyEnv}.

(** X2: [load_vut] keeps the row count of the parsed table, keeps every
    column of the normalized table other than the three it writes ([t],
    [VUT_vel_ms], [VUT_vel_kmh]) with its cells unchanged, and so keeps
    every column of the parsed table whose name does not start with
    "Unnamed" under its stripped name, when the parsed table is well
    formed. *)
Theorem load_vut_keeps_columns (file_bytes : bytes) (raw df : DataFrame) :
  _read_tabular file_bytes = Ok raw ->
  load_vut file_bytes = Ok df ->
  nrows df = nrows raw /\
  (forall name, ~ In name VUT_DERIVED_COLS ->
                get_col df name = get_col (normalized raw) name) /\
  (well_formed raw ->
   forall n c, In (n, c) (columns raw) ->
               String.prefix "Unnamed" (strip n) = false ->
               ~ In (strip n) VUT_DERIVED_COLS ->
               get_col df (strip n) = Ok c).
Proof.
  intros Hread Hload.
  assert (Hkeep : nrows df = nrows raw /\
                  forall name, ~ In name VUT_DERIVED_COLS ->
                    get_col df name = get_col (normalized raw) name).
  { unfold load_vut in Hload; rewrite Hread in Hload; cbn [bind] in Hload.
    fold (normalized raw) in Hload.
    apply bind_ok in Hload as (time & _ & H).
    apply bind_ok in H as (time0 & _ & H).
    apply bind_ok in H as (t & _ & H).
    destruct (has_col (set_col (normalized raw) "t" t) "VUT_vel_abs").
    - apply bind_ok in H as (vel_abs & _ & H).
      apply bind_ok in H as (vel_kmh & _ & H).
      inversion H; subst df; split; [reflexivity |].
      intros name Hn; simpl in Hn.
      rewrite !get_set_col_other; [reflexivity | | |]; intros ->; tauto.
    - inversion H; subst df; split; [reflexivity |].
      intros name Hn; simpl in Hn.
      rewrite get_set_col_other; [reflexivity |]; intros ->; tauto. }
  destruct Hkeep as [Hrows Hother].
  split; [exact Hrows | split; [exact Hother |]].
  intros [_ Hnd] n c Hin Hp Hnot.
  rewrite (Hother _ Hnot).
  unfold get_col, normalized; simpl.
  now rewrite (lookup_normalized (columns raw) n c Hnd Hin Hp).
Qed.

(** X3: in a table returned by [load_vut] from a table with an absolute
    velocity column, that column held numbers, [VUT_vel_ms] is the
    absolute velocity with 0.0 for every missing value and [VUT_vel_kmh]
    is [VUT_vel_ms] times 3.6; without that column the two are not
    written. *)
Theorem load_vut_velocity (file_bytes : bytes) (raw df : DataFrame) :
  _read_tabular file_bytes = Ok raw ->
  load_vut file_bytes = Ok df ->
  (forall vel, get_col (normalized raw) "VUT_vel_abs" = Ok vel ->
     exists vs,
       vel = nums vs /\
       get_col df "VUT_vel_ms" = Ok (nums (map or_zero vs)) /\
       get_col df "VUT_vel_kmh"
       = Ok (nums (map (fun v => PrimFloat.mul (or_zero v) 3.6) vs))) /\
  (has_col (normalized raw) "VUT_vel_abs" = false ->
   get_col df "VUT_vel_ms" = get_col (normalized raw) "VUT_vel_ms" /\
   get_col df "VUT_vel_kmh" = get_col (normalized raw) "VUT_vel_kmh").
Proof.
  intros Hread Hload.
  unfold load_vut in Hload; rewrite Hread in Hload; cbn [bind] in Hload.
  fold (normalized raw) in Hload.
  apply bind_ok in Hload as (time & _ & H).
  apply bind_ok in H as (time0 & _ & H).
  apply bind_ok in H as (t & _ & H).
  rewrite has_set_col_other in H by discriminate.
  destruct (has_col (normalized raw) "VUT_vel_abs") eqn:E.
  - rewrite get_set_col_other in H by discriminate.
    split; [| discriminate].
    intros vel Hvel; rewrite Hvel in H; cbn [bind] in H.
    apply bind_ok in H as (vel_kmh & Hkmh & H).
    inversion H; subst df; clear H.
    assert (Hnum : exists vs, vel = nums vs).
    { destruct vel as [| c vel]; [exists []; reflexivity |].
      assert (Hne : fillna 0 (c :: vel) <> []) by (simpl; discriminate).
      destruct (series_op_ok _ _ _ _ Hne Hkmh) as (xs & k & Hxs & _ & _).
      exact (fillna_is_nums _ _ _ Hxs). }
    destruct Hnum as [vs ->]; exists vs; split; [reflexivity |].
    rewrite fillna_nums, series_op_nums in Hkmh; inversion Hkmh; subst.
    rewrite get_set_col_other by discriminate.
    rewrite !get_set_col_same, fillna_nums.
    rewrite map_map; split; reflexivity.
  - inversion H; subst df; split.
    + intros vel Hvel; apply get_col_has in Hvel; congruence.
    + intros _; rewrite !get_set_col_other by discriminate; split; reflexivity.
Qed.

(** X4: [load_vut] raises [KeyError] for [Time] when the normalized table
    has no [Time] column, and [TypeError] when that column has a first row
    and a string in some row; together with the [IndexError] of a table
    without rows, these are all the ways the relative time can fail. *)
Theorem load_vut_errors (file_bytes : bytes) (raw : DataFrame) :
  _read_tabular file_bytes = Ok raw ->
  (has_col (normalized raw) "Time" = false ->
   load_vut file_bytes = Raise (KeyError "Time")) /\
  (forall time, get_col (normalized raw) "Time" = Ok time ->
     time <> [] -> forallb is_num time = false ->
     load_vut file_bytes = Raise TypeError) /\
  (forall time e, get_col (normalized raw) "Time" = Ok time ->
     forallb is_num time = true ->
     numeric_col (normalized raw) "VUT_vel_abs" ->
     load_vut file_bytes = Raise e -> time = [] /\ e = IndexError).
Proof.
  intros Hread; unfold load_vut; rewrite Hread; cbn [bind].
  fold (normalized raw); split; [| split].
  - intros H; now rewrite (has_col_false_get _ _ H).
  - intros time Hget Hne Hstr; rewrite Hget; cbn [bind].
    destruct time as [| c0 time]; [congruence |]; cbn [iloc0 bind].
    unfold series_op; rewrite (mapM_raise _ TypeError); [reflexivity | |].
    + intros [x | t] _; destruct c0; simpl; eauto.
    + apply forallb_false_exists in Hstr as ([x | t] & Hin & Hp);
        [discriminate |].
      exists (Str t); split; [exact Hin | reflexivity].
  - intros time e Hget Hnum Hvel.
    destruct (numeric_nums time Hnum) as [[| x0 xs] ->].
    + rewrite Hget; cbn [bind]; intros H; inversion H; auto.
    + destruct (load_vut_numeric file_bytes raw x0 xs Hread Hget Hvel)
        as (df & Hdf & _).
      unfold load_vut in Hdf; rewrite Hread in Hdf; cbn [bind] in Hdf.
      fold (normalized raw) in Hdf; rewrite Hdf; discriminate.
Qed.

End LoadVut.

Lemma load_vut_keeps_columns_witness :
  exists df,
    @load_vut (fixture_env loader_files) csv_padded = Ok df /\
    nrows df = 2%nat /\
    get_col df "Step_number" = Ok (nums [1; 2]%float) /\
    get_col df "Time" = Ok (nums [10; 11]%float).
Proof.
  destruct (@load_vut (fixture_env loader_files) csv_padded) as [df | e] eqn:E;
    [| vm_compute in E; discriminate].
  destruct (@load_vut_keeps_columns (fixture_env loader_files) csv_padded
              df_padded df eq_refl E) as (Hrows & _ & Hkeep).
  assert (Hwf : well_formed df_padded).
  { split; [repeat constructor |].
    vm_compute; repeat constructor; simpl; intuition discriminate. }
  exists df; split; [reflexivity | split; [exact Hrows | split]].
  - apply (Hkeep Hwf "Step_number"); simpl; [tauto | reflexivity |].
    intuition discriminate.
  - apply (Hkeep Hwf "Time "); simpl; [tauto | reflexivity |].
    vm_compute; intuition discriminate.
Defined.

Lemma load_vut_velocity_witness :
  exists df,
    @load_vut (fixture_env loader_files) csv_padded = Ok df /\
    get_col df "VUT_vel_ms" = Ok (nums [5; 0]%float) /\
    get_col df "VUT_vel_kmh" = Ok (nums [18; 0]%float).
Proof.
  destruct (@load_vut (fixture_env loader_files) csv_padded) as [df | e] eqn:E;
    [| vm_compute in E; discriminate].
  destruct (@load_vut_velocity (fixture_env loader_files) csv_padded
              df_padded df eq_refl E) as [Hvel _].
  destruct (Hvel [Num 5; NaN] eq_refl) as (vs & Hvs & Hms & Hkmh).
  apply (nums_inj [5; nan]%float vs) in Hvs; subst vs.
  exists df; split; [reflexivity | split; [exact Hms | exact Hkmh]].
Defined.

Lemma load_vut_errors_witness :
  @load_vut (fixture_env loader_files) csv_no_time = Raise (KeyError "Time") /\
  @load_vut (fixture_env loader_files) csv_text_time = Raise TypeError.
Proof.
  split.
  - apply (proj1 (@load_vut_errors (fixture_env loader_files) csv_no_time
                    df_no_time eq_refl)); reflexivity.
  - apply (proj1 (proj2 (@load_vut_errors (fixture_env loader_files)
                           csv_text_time df_text_time eq_refl))
             [Str "0s"; Str "1s"]); [reflexivity | discriminate | reflexivity].
Defined.

(** ** What [load_actors] keeps *)

Lemma col_names_set_existing (df : DataFrame) (name : string)
  (vals : list cell) :
  has_col df name = true -> col_names (set_col df name vals) = col_names df.
Proof.
  unfold has_col, col_names, set_col; simpl.
  induction (columns df) as [| [n0 c0] cols IH]; simpl; [discriminate |].
  destruct (String.eqb name n0); simpl; intros H; [reflexivity |].
  now rewrite IH.
Qed.

Section LoadActors.
Context {env : PyEnv}.

(** X5: a table returned by [load_actors] has the rows, the column names
    in their order and, apart from [Actor_vel_abs], the cells of the
    normalized parsed table; it is that table itself when [Actor_vel_abs]
    or [Actor_vel_lat] is absent. *)
Theorem load_actors_keeps_columns (file_bytes : bytes) (raw df : DataFrame) :
  _read_tabular file_bytes = Ok raw ->
  load_actors file_bytes = Ok df ->
  nrows df = nrows raw /\
  col_names df = col_names (normalized raw) /\
  (forall name, name <> "Actor_vel_abs" ->
                get_col df name = get_col (normalized raw) name) /\
  (has_col (normalized raw) "Actor_vel_abs" = false \/
   has_col (normalized raw) "Actor_vel_lat" = false ->
   df = normalized raw).
Proof.
  intros Hread Hload.
  unfold load_actors in Hload; rewrite Hread in Hload; cbn [bind] in Hload.
  fold (normalized raw) in Hload.
  destruct (has_col (normalized raw) "Actor_vel_abs") eqn:Eabs;
    [destruct (has_col (normalized raw) "Actor_vel_lat") eqn:Elat |];
    cbn [andb] in Hload.
  - apply bind_ok in Hload as (vel_abs & _ & H).
    apply bind_ok in H as (lat & _ & H).
    apply bind_ok in H as (lat2 & _ & H).
    apply bind_ok in H as (lng & _ & H).
    apply bind_ok in H as (lng2 & _ & H).
    apply bind_ok in H as (total & _ & H).
    apply bind_ok in H as (magnitude & _ & H).
    inversion H; subst df; clear H.
    split; [reflexivity |].
    split; [now apply col_names_set_existing |].
    split; [| intros [? | ?]; discriminate].
    intros name Hn; apply get_set_col_other; congruence.
  - inversion Hload; subst df.
    split; [reflexivity |]; split; [reflexivity |].
    split; [reflexivity | reflexivity].
  - inversion Hload; subst df.
    split; [reflexivity |]; split; [reflexivity |].
    split; [reflexivity | reflexivity].
Qed.

End LoadActors.

Lemma load_actors_keeps_columns_witness :
  exists df,
    @load_actors (fixture_env loader_files) csv_actor_345 = Ok df /\
    nrows df = 2%nat /\
    get_col df "Actor_vel_lat" = Ok (nums [3; 3]%float) /\
    @load_actors (fixture_env loader_files) csv_actor_no_id
    = Ok (normalized df_actor_no_id).
Proof.
  destruct (@load_actors (fixture_env loader_files) csv_actor_345)
    as [df | e] eqn:E; [| vm_compute in E; discriminate].
  destruct (@load_actors_keeps_columns (fixture_env loader_files)
              csv_actor_345 df_actor_345 df eq_refl E)
    as (Hrows & _ & Hkeep & _).
  exists df; split; [reflexivity | split; [exact Hrows | split]].
  - rewrite (Hkeep "Actor_vel_lat") by discriminate; reflexivity.
  - destruct (@load_actors (fixture_env loader_files) csv_actor_no_id)
      as [df' | e] eqn:E'; [| vm_compute in E'; discriminate].
    destruct (@load_actors_keeps_columns (fixture_env loader_files)
                csv_actor_no_id df_actor_no_id df' eq_refl E')
      as (_ & _ & _ & Hsame).
    rewrite Hsame; [reflexivity | left; reflexivity].
Defined.

Lemma load_actors_vel_abs_witness :
  exists df,
    @load_actors (fixture_env loader_files) csv_actor_345 = Ok df /\
    get_col df "Actor_vel_abs" = Ok (nums [5; 7]%float).
Proof.
  destruct (@load_actors_vel_abs (fixture_env loader_files) csv_actor_345
              df_actor_345 (nums [0; 7]%float) [3; 3]%float [4; 4]%float
              eq_refl eq_refl eq_refl eq_refl)
    as (df & col & Hload & Hcol & Hlen & Hcells).
  exists df; split; [exact Hload |].
  rewrite Hcol; f_equal.
  pose proof (Hcells 0%nat (Num 0) 3%float 4%float eq_refl eq_refl eq_refl)
    as H0.
  pose proof (Hcells 1%nat (Num 7) 3%float 4%float eq_refl eq_refl eq_refl)
    as H1.
  destruct col as [| c0 [| c1 [| c2 col]]]; try discriminate.
  simpl in H0, H1; inversion H0; inversion H1; reflexivity.
Defined.

(** ** The order rule of the vehicle validator *)

Section FloatSign.
Local Open Scope Z_scope.

Lemma rndZ_neg (v : Z) : rndZ v < 0 <-> v < 0.
Proof.
  unfold rndZ; pose proof top_pos.
  destruct (Z.eqb_spec v 0); [lia |].
  destruct (Z.ltb_spec 0 v).
  - pose proof (rnd_pos v); lia.
  - pose proof (rnd_pos (- v)); lia.
Qed.

Lemma SFltb_xval (a b : spec_float) :
  valid_binary a = true -> valid_binary b = true ->
  a <> S754_nan -> b <> S754_nan ->
  SFltb a b = (xval a <? xval b).
Proof.
  intros Va Vb Na Nb; unfold SFltb, Z.ltb.
  rewrite (SFcompare_xval a b) by assumption.
  destruct (xval a ?= xval b); reflexivity.
Qed.

Lemma xval_finite_bound (f : spec_float) :
  valid_binary f = true -> finite_or_zero f = true -> - top < xval f < top.
Proof.
  pose proof top_pos.
  destruct f as [s | s | | s m e]; try discriminate; intros Vf _; cbn [xval].
  - lia.
  - destruct (bounded_facts m e Vf) as (_ & _ & [Hp Hq] & _).
    destruct s; cbn [cond_Zopp]; lia.
Qed.

(** The sign of a difference is the order of its operands. *)
Lemma SF64sub_neg (a b : spec_float) :
  valid_binary a = true -> valid_binary b = true ->
  valid_binary (SF64sub b a) = true ->
  a <> S754_nan -> b <> S754_nan ->
  SFltb (SF64sub b a) (S754_zero false) = SFltb b a.
Proof.
  intros Va Vb Vr Na Nb; pose proof top_pos as Ht.
  destruct (finite_or_zero a) eqn:Fa, (finite_or_zero b) eqn:Fb.
  - assert (Hx : xval (SF64sub b a) = rndZ (xval b - xval a))
      by now apply SFsub_xval.
    assert (Hn : SF64sub b a <> S754_nan)
      by (apply xval_not_nan; rewrite Hx; apply rndZ_bound).
    rewrite (SFltb_xval (SF64sub b a) (S754_zero false)), (SFltb_xval b a);
      try assumption; try discriminate; try reflexivity.
    cbn [xval]; rewrite Hx.
    pose proof (rndZ_neg (xval b - xval a)).
    destruct (Z.ltb_spec (rndZ (xval b - xval a)) 0),
             (Z.ltb_spec (xval b) (xval a)); try reflexivity; lia.
  - destruct b as [sb | sb | | sb mb eb]; try discriminate; try congruence.
    assert (E : SF64sub (S754_infinity sb) a = S754_infinity sb)
      by (destruct a; try discriminate; reflexivity).
    rewrite E, (SFltb_xval (S754_infinity sb) a); try assumption.
    pose proof (xval_finite_bound a Va Fa); cbn [xval].
    destruct sb; cbn [cond_Zopp SFltb SFcompare].
    + destruct (Z.ltb_spec (- top) (xval a)); [reflexivity | lia].
    + destruct (Z.ltb_spec top (xval a)); [lia | reflexivity].
  - destruct a as [sa | sa | | sa ma ea]; try discriminate; try congruence.
    assert (E : SF64sub b (S754_infinity sa) = S754_infinity (negb sa))
      by (destruct b; try discriminate; reflexivity).
    rewrite E, (SFltb_xval b (S754_infinity sa)); try assumption.
    pose proof (xval_finite_bound b Vb Fb); cbn [xval].
    destruct sa; cbn [cond_Zopp SFltb SFcompare negb].
    + destruct (Z.ltb_spec (xval b) (- top)); [lia | reflexivity].
    + destruct (Z.ltb_spec (xval b) top); [reflexivity | lia].
  - destruct a as [sa | sa | | sa ma ea]; try discriminate; try congruence;
      destruct b as [sb | sb | | sb mb eb]; try discriminate; try congruence.
    destruct sa, sb; reflexivity.
Qed.

Lemma Prim2SF_not_nan (x : float) :
  is_nan x = false -> Prim2SF x <> S754_nan.
Proof.
  intros H; unfold Prim2SF; rewrite H.
  destruct (is_zero x); [discriminate |].
  destruct (is_infinity x); [discriminate |].
  destruct (Z.frexp x) as [r ex].
  destruct (shr_fexp prec emax _ _ _) as [mrs e'].
  destruct (shr_m mrs); discriminate.
Qed.

Lemma Prim2SF_nan (x : float) : is_nan x = true -> Prim2SF x = S754_nan.
Proof. intros H; unfold Prim2SF; now rewrite H. Qed.

Lemma sub_ltb_zero (x y : float) :
  is_nan x = false -> is_nan y = false ->
  PrimFloat.ltb (PrimFloat.sub y x) 0 = PrimFloat.ltb y x.
Proof.
  intros Hx Hy; rewrite !ltb_spec, sub_spec.
  change (Prim2SF 0) with (S754_zero false).
  apply SF64sub_neg; try apply Prim2SF_valid; try now apply Prim2SF_not_nan.
  rewrite <- sub_spec; apply Prim2SF_valid.
Qed.

Lemma leb_negb_ltb (x y : float) :
  is_nan x = false -> is_nan y = false ->
  PrimFloat.leb x y = negb (PrimFloat.ltb y x).
Proof.
  intros Hx Hy; rewrite leb_spec, ltb_spec.
  rewrite SFleb_xval, SFltb_xval;
    try apply Prim2SF_valid; try now apply Prim2SF_not_nan.
  apply Z.leb_antisym.
Qed.

Lemma nan_ltb (x b : float) : is_nan x = true -> PrimFloat.ltb x b = false.
Proof.
  intros H; rewrite ltb_spec, (Prim2SF_nan x H); reflexivity.
Qed.

End FloatSign.

Lemma existsb_below_dropna (bound : float) (d : list cell) :
  existsb (below bound) (dropna d) = existsb (below bound) d.
Proof.
  induction d as [| [x | t] d IH]; simpl; [reflexivity | | exact IH].
  destruct (is_nan x) eqn:E; simpl; rewrite IH; [| reflexivity].
  now rewrite (nan_ltb x bound E).
Qed.

Lemma diff_from_order (x : float) (ts : list float) :
  forallb (fun t => negb (is_nan t)) (x :: ts) = true ->
  exists d, diff_from (Num x) (nums ts) = Ok d /\
            existsb (below 0) d = negb (nondecreasing (x :: ts)).
Proof.
  revert x; induction ts as [| y l IH]; intros x H.
  - exists []; split; reflexivity.
  - cbn [forallb] in H; apply andb_true_iff in H as [Hx H].
    destruct (IH y H) as (d & Hd & Hex).
    cbn [forallb] in H; apply andb_true_iff in H as [Hy _].
    apply negb_true_iff in Hx, Hy.
    exists (Num (PrimFloat.sub y x) :: d); split.
    + change (nums (y :: l)) with (Num y :: nums l); cbn [diff_from].
      rewrite Hd; reflexivity.
    + cbn [existsb below]; rewrite Hex, (sub_ltb_zero x y Hx Hy).
      change (nondecreasing (x :: y :: l))
        with (PrimFloat.leb x y && nondecreasing (y :: l)).
      rewrite (leb_negb_ltb x y Hx Hy), negb_andb, negb_involutive.
      reflexivity.
Qed.

Lemma dropna_numbers (col : list cell) :
  forallb is_num (dropna col) = true ->
  dropna col = nums (numbers (dropna col)) /\
  forallb (fun t => negb (is_nan t)) (numbers (dropna col)) = true.
Proof.
  induction col as [| [x | t] col IH]; simpl; intros H.
  - split; reflexivity.
  - destruct (is_nan x) eqn:E; simpl in *; [now apply IH |].
    destruct (IH H) as [Hn Hf]; rewrite E, Hf; split; [| reflexivity].
    now rewrite <- Hn.
  - discriminate.
Qed.

(** [time_check], whenever it returns: the message is added exactly when
    the non-missing numbers of the column are not in non-decreasing
    order. *)
Lemma time_check_exact (df : DataFrame) (errs errs' : list string)
  (col : list cell) :
  get_col df "Time" = Ok col ->
  time_check df errs = Ok errs' ->
  errs' = errs ++ if nondecreasing (numbers (dropna col)) then []
                  else [msg_time].
Proof.
  intros Hget; unfold time_check; rewrite Hget; cbn [bind].
  destruct (dropna col) as [| c [| c' s]] eqn:E.
  - simpl; intros H; inversion H; now rewrite app_nil_r.
  - destruct c; simpl; intros H; inversion H; now rewrite app_nil_r.
  - change (1 <? List.length (c :: c' :: s))%nat with true; cbv iota.
    destruct (forallb is_num (c :: c' :: s)) eqn:En.
    + rewrite <- E in En |- *.
      destruct (dropna_numbers col En) as [Hnums Hnn].
      remember (numbers (dropna col)) as ns eqn:Hns.
      destruct ns as [| x ts]; [rewrite Hnums in E; discriminate |].
      rewrite Hnums.
      destruct (diff_from_order x ts Hnn) as (d & Hd & Hex).
      change (nums (x :: ts)) with (Num x :: nums ts); unfold diff.
      rewrite Hd; cbn [bind].
      rewrite any_below_spec.
      destruct (forallb is_num (dropna (NaN :: d))); cbn [bind];
        [| discriminate].
      rewrite existsb_below_dropna.
      change (existsb (below 0) (NaN :: d)) with (existsb (below 0) d).
      rewrite Hex.
      destruct (nondecreasing (x :: ts)); cbn [negb]; intros H; inversion H;
        [now rewrite app_nil_r | reflexivity].
    + unfold diff.
      rewrite (diff_from_str c (c' :: s)) by (exact En || congruence).
      discriminate.
Qed.

Lemma range_check_in (df : DataFrame) (name : string) (lo hi : float)
  (msg : string) (errs errs' : list string) (m : string) :
  range_check df name lo hi msg errs = Ok errs' ->
  In m errs' -> In m errs \/ m = msg.
Proof.
  unfold range_check; intros H.
  apply bind_ok in H as (col & _ & H).
  destruct (0 <? List.length (dropna col))%nat.
  - apply bind_ok in H as (bad & _ & H); inversion H.
    destruct bad; [| auto].
    intros Hin; apply in_app_or in Hin as [Hin | [<- | []]]; auto.
  - inversion H; auto.
Qed.

Lemma negative_check_in (df : DataFrame) (name : string) (msg : string)
  (errs errs' : list string) (m : string) :
  negative_check df name msg errs = Ok errs' ->
  In m errs' -> In m errs \/ m = msg.
Proof.
  unfold negative_check; intros H.
  apply bind_ok in H as (col & _ & H).
  destruct (0 <? List.length (dropna col))%nat.
  - apply bind_ok in H as (bad & _ & H); inversion H.
    destruct bad; [| auto].
    intros Hin; apply in_app_or in Hin as [Hin | [<- | []]]; auto.
  - inversion H; auto.
Qed.

(** The vehicle validator on a table with the required columns, whenever
    it returns: the errors are those of the order rule run on the errors
    of the four range rules, the warnings those of the three columns. *)
Lemma validate_vut_stages (df : DataFrame) (errs warns : list string) :
  missing_cols VUT_REQUIRED_COLS df = [] ->
  validate_vut df = Ok (errs, warns) ->
  exists errs4,
    (forall m, In m errs4 ->
       In m [msg_vut_lat; msg_vut_lng; msg_vut_heading; msg_vut_vel]) /\
    time_check df errs4 = Ok errs /\
    nan_warnings df ["VUT_pos_lat"; "VUT_pos_lng"; "VUT_heading"] []
    = Ok warns.
Proof.
  intros Hm; unfold validate_vut; rewrite Hm; intros H.
  apply bind_ok in H as (e1 & H1 & H).
  apply bind_ok in H as (e2 & H2 & H).
  apply bind_ok in H as (e3 & H3 & H).
  apply bind_ok in H as (e4 & H4 & H).
  apply bind_ok in H as (e5 & H5 & H).
  apply bind_ok in H as (w & Hw & H).
  inversion H; subst e5 w.
  exists e4; split; [| split; assumption].
  intros m Hin.
  destruct (negative_check_in _ _ _ _ _ m H4 Hin) as [Hin3 | ->];
    [| simpl; tauto].
  destruct (range_check_in _ _ _ _ _ _ _ m H3 Hin3) as [Hin2 | ->];
    [| simpl; tauto].
  destruct (range_check_in _ _ _ _ _ _ _ m H2 Hin2) as [Hin1 | ->];
    [| simpl; tauto].
  destruct (range_check_in _ _ _ _ _ _ _ m H1 Hin1) as [[] | ->].
  simpl; tauto.
Qed.

(** X7: on a vehicle table with the required columns, whenever
    [validate_vut] returns, its errors contain the message of the order
    rule exactly when the non-missing [Time] values, in row order, are not
    non-decreasing: some value is below the one before it. *)
Theorem validate_vut_time_rule (df : DataFrame) (col : list cell)
  (errs warns : list string) :
  missing_cols VUT_REQUIRED_COLS df = [] ->
  get_col df "Time" = Ok col ->
  validate_vut df = Ok (errs, warns) ->
  (In msg_time errs <-> nondecreasing (numbers (dropna col)) = false).
Proof.
  intros Hm Hget Hv.
  destruct (validate_vut_stages df errs warns Hm Hv) as (e4 & He4 & Ht & _).
  rewrite (time_check_exact df e4 errs col Hget Ht).
  destruct (nondecreasing (numbers (dropna col))); split; intros H.
  - rewrite app_nil_r in H; apply He4 in H.
    simpl in H; intuition discriminate.
  - discriminate.
  - reflexivity.
  - apply in_or_app; right; left; reflexivity.
Qed.

Lemma validate_vut_time_rule_witness :
  exists errs warns,
    validate_vut df_time_back = Ok (errs, warns) /\ In msg_time errs.
Proof.
  destruct (validate_vut df_time_back) as [[errs warns] | e] eqn:E;
    [| vm_compute in E; discriminate].
  exists errs, warns; split; [reflexivity |].
  apply (validate_vut_time_rule df_time_back (nums [0; 1; 0.5; 2]%float)
           errs warns eq_refl eq_refl E).
  reflexivity.
Defined.

(** ** Warnings of the vehicle validator *)

Lemma any_isna_count (s : list cell) :
  any (map isna s) = (0 <? count_na s)%nat.
Proof.
  rewrite any_map_existsb; unfold count_na.
  induction s as [| c s IH]; simpl; [reflexivity |].
  destruct (isna c); simpl; [reflexivity | exact IH].
Qed.

Lemma nan_warnings_concat (df : DataFrame) (cols : list string)
  (warns : list string) :
  nan_warnings df cols warns
  = Ok (warns ++ List.concat (map (nan_warning_of df) cols)).
Proof.
  revert warns; induction cols as [| c cols IH]; intros warns; cbn [nan_warnings].
  - simpl; now rewrite app_nil_r.
  - unfold nan_warning_of at 1; cbn [map List.concat].
    destruct (has_col df c) eqn:E.
    + destruct (has_col_get _ _ E) as [s Hs]; rewrite Hs; cbn [bind].
      rewrite any_isna_count.
      destruct (0 <? count_na s)%nat; rewrite IH; [| reflexivity].
      now rewrite <- app_assoc.
    + rewrite (has_col_false_get _ _ E), IH; reflexivity.
Qed.

(** X8: whenever the vehicle validator returns, its warnings are, in this
    order, one message for each of the latitude, longitude and heading
    columns that has a missing value, giving the number of missing values
    of the column; they do not depend on the errors found, and there is
    none when a required column is absent. *)
Theorem validate_vut_warnings (df : DataFrame) (errs warns : list string) :
  validate_vut df = Ok (errs, warns) ->
  warns = match missing_cols VUT_REQUIRED_COLS df with
          | [] => nan_warning_of df "VUT_pos_lat"
                  ++ nan_warning_of df "VUT_pos_lng"
                  ++ nan_warning_of df "VUT_heading"
          | _ :: _ => []
          end.
Proof.
  intros Hv.
  destruct (missing_cols VUT_REQUIRED_COLS df) as [| c l] eqn:Hm.
  - destruct (validate_vut_stages df errs warns Hm Hv) as (e4 & _ & _ & Hw).
    rewrite nan_warnings_concat in Hw; inversion Hw.
    simpl; now rewrite app_nil_r.
  - unfold validate_vut in Hv; rewrite Hm in Hv; now inversion Hv.
Qed.

Lemma validate_vut_warnings_witness :
  exists errs,
    validate_vut df_time_back
    = Ok (errs, ["VUT_pos_lat has 2 NaN value(s)";
                 "VUT_heading has 1 NaN value(s)"]).
Proof.
  destruct (validate_vut df_time_back) as [[errs warns] | e] eqn:E;
    [| vm_compute in E; discriminate].
  exists errs.
  rewrite (validate_vut_warnings df_time_back errs warns E); reflexivity.
Defined.

(** ** Errors of the actor validator *)

Section ActorRules.
Context {env : PyEnv}.

(** The actor validator on a table with the required columns, whenever it
    returns: the error list is built from the three range rules and the
    type rule, in order. *)
Lemma validate_actors_shape (df : DataFrame) (errs warns : list string) :
  missing_cols ACTOR_REQUIRED_COLS df = [] ->
  validate_actors df = Ok (errs, warns) ->
  exists lat lng heading ty : list cell,
    get_col df "Actor_pos_true_lat" = Ok lat /\
    get_col df "Actor_pos_true_lng" = Ok lng /\
    get_col df "Actor_heading_true" = Ok heading /\
    get_col df "Actor_type" = Ok ty /\
    errs
    = (if existsb (outside (-90) 90) (dropna lat) then [msg_actor_lat] else [])
      ++ (if existsb (outside (-180) 360) (dropna lng)
          then [msg_actor_lng] else [])
      ++ (if existsb (outside 0 360) (dropna heading)
          then [msg_actor_heading] else [])
      ++ (if forallb parses (dropna ty)
          then if existsb non_integral (dropna ty)
               then [msg_type_non_int] else []
          else [msg_type_non_num]).
Proof.
  intros Hm.
  destruct (missing_cols_nil _ df "Actor_pos_true_lat" Hm) as [lat Hlat];
    [simpl; tauto |].
  destruct (missing_cols_nil _ df "Actor_pos_true_lng" Hm) as [lng Hlng];
    [simpl; tauto |].
  destruct (missing_cols_nil _ df "Actor_heading_true" Hm) as [hd Hhd];
    [simpl; tauto |].
  destruct (missing_cols_nil _ df "Actor_type" Hm) as [ty Hty];
    [simpl; tauto |].
  unfold validate_actors; rewrite Hm.
  rewrite (range_check_spec _ _ _ _ _ _ _ Hlat).
  destruct (forallb is_num (dropna lat)); cbn [bind]; [| discriminate].
  rewrite (range_check_spec _ _ _ _ _ _ _ Hlng).
  destruct (forallb is_num (dropna lng)); cbn [bind]; [| discriminate].
  rewrite (range_check_spec _ _ _ _ _ _ _ Hhd).
  destruct (forallb is_num (dropna hd)); cbn [bind]; [| discriminate].
  rewrite (actor_type_check_spec _ _ _ Hty); cbn [bind app].
  intros H; inversion H; subst.
  exists lat, lng, hd, ty.
  repeat (split; [assumption |]).
  now rewrite <- !app_assoc.
Qed.

Lemma actor_errors_shape (b1 b2 b3 : bool) (t : list string) :
  (t = [] \/ t = [msg_type_non_int] \/ t = [msg_type_non_num]) ->
  let errs := (if b1 then [msg_actor_lat] else [])
              ++ (if b2 then [msg_actor_lng] else [])
              ++ (if b3 then [msg_actor_heading] else [])
              ++ t in
  NoDup errs /\
  (In msg_actor_lat errs <-> b1 = true) /\
  (In msg_actor_lng errs <-> b2 = true) /\
  (In msg_actor_heading errs <-> b3 = true) /\
  (In msg_type_non_int errs <-> t = [msg_type_non_int]) /\
  (In msg_type_non_num errs <-> t = [msg_type_non_num]).
Proof.
  intros [-> | [-> | ->]]; destruct b1, b2, b3; cbn [app];
    (split; [repeat constructor; simpl; intuition discriminate |]);
    repeat split; intros H; try reflexivity; simpl in *;
    intuition discriminate.
Qed.

(** X9: on an actor table with the required columns, whenever
    [validate_actors] returns, its error list has no repetition and
    contains the message of each range rule (latitude outside [-90, 90],
    longitude outside [-180, 360], heading outside [0, 360]) exactly when
    some non-missing value of the rule's column breaks it. *)
Theorem validate_actors_range_rules (df : DataFrame)
  (errs warns : list string) :
  missing_cols ACTOR_REQUIRED_COLS df = [] ->
  validate_actors df = Ok (errs, warns) ->
  NoDup errs /\
  forall name p msg, In (name, p, msg) ACTOR_RANGE_RULES ->
                     (In msg errs <-> violated df name p).
Proof.
  intros Hm Hv.
  destruct (validate_actors_shape df errs warns Hm Hv)
    as (lat & lng & hd & ty & Hlat & Hlng & Hhd & Hty & ->).
  match goal with
  | |- context [_ ++ _ ++ _ ++ ?t] =>
      assert (Ht : t = [] \/ t = [msg_type_non_int] \/ t = [msg_type_non_num])
        by (destruct (forallb parses (dropna ty));
            [destruct (existsb non_integral (dropna ty)) |]; auto);
      destruct (actor_errors_shape
                  (existsb (outside (-90) 90) (dropna lat))
                  (existsb (outside (-180) 360) (dropna lng))
                  (existsb (outside 0 360) (dropna hd)) t Ht)
        as (Hnd & H1 & H2 & H3 & _)
  end.
  split; [exact Hnd |].
  intros name p msg Hin; simpl in Hin.
  destruct Hin as [E | [E | [E | []]]]; inversion E; subst name p msg.
  - rewrite H1; now apply violated_existsb.
  - rewrite H2; now apply violated_existsb.
  - rewrite H3; now apply violated_existsb.
Qed.

(** X10: on an actor table with the required columns, whenever
    [validate_actors] returns, its errors contain the non-numeric message
    exactly when [float] fails on some non-missing [Actor_type] value, and
    the non-integer message exactly when [float] succeeds on all of them
    and some result is not an integer; the two messages never come
    together. *)
Theorem validate_actors_type_rule (df : DataFrame) (col : list cell)
  (errs warns : list string) :
  missing_cols ACTOR_REQUIRED_COLS df = [] ->
  get_col df "Actor_type" = Ok col ->
  validate_actors df = Ok (errs, warns) ->
  (In msg_type_non_num errs <-> forallb parses (dropna col) = false) /\
  (In msg_type_non_int errs <->
   forallb parses (dropna col) = true /\
   existsb non_integral (dropna col) = true) /\
  ~ (In msg_type_non_num errs /\ In msg_type_non_int errs).
Proof.
  intros Hm Hget Hv.
  destruct (validate_actors_shape df errs warns Hm Hv)
    as (lat & lng & hd & ty & Hlat & Hlng & Hhd & Hty & ->).
  rewrite Hget in Hty; inversion Hty; subst ty.
  match goal with
  | |- context [_ ++ _ ++ _ ++ ?t] =>
      assert (Ht : t = [] \/ t = [msg_type_non_int] \/ t = [msg_type_non_num])
        by (destruct (forallb parses (dropna col));
            [destruct (existsb non_integral (dropna col)) |]; auto);
      destruct (actor_errors_shape
                  (existsb (outside (-90) 90) (dropna lat))
                  (existsb (outside (-180) 360) (dropna lng))
                  (existsb (outside 0 360) (dropna hd)) t Ht)
        as (_ & _ & _ & _ & Hint & Hnum)
  end.
  rewrite Hnum, Hint.
  destruct (forallb parses (dropna col));
    [destruct (existsb non_integral (dropna col)) |];
    repeat split; try discriminate; try reflexivity;
    try (intros [H1 H2]; discriminate); intros [H1 H2]; discriminate.
Qed.

End ActorRules.

Lemma validate_actors_range_rules_witness :
  exists errs,
    @validate_actors (fixture_env []) df_actor_bad = Ok (errs, []) /\
    In msg_actor_heading errs /\ ~ In msg_actor_lat errs.
Proof.
  destruct (@validate_actors (fixture_env []) df_actor_bad)
    as [[errs warns] | e] eqn:E; [| vm_compute in E; discriminate].
  destruct (@validate_actors_range_rules (fixture_env []) df_actor_bad
              errs warns eq_refl E) as [_ Hrules].
  assert (Hw : warns = []) by (vm_compute in E; now inversion E).
  subst warns; exists errs; split; [reflexivity | split].
  - apply (Hrules "Actor_heading_true" (outside 0 360) msg_actor_heading);
      [simpl; tauto |].
    exists (nums [90; 400]%float), (Num 400).
    repeat split; simpl; tauto.
  - intros Hin.
    apply (Hrules "Actor_pos_true_lat" (outside (-90) 90) msg_actor_lat)
      in Hin; [| simpl; tauto].
    destruct Hin as (col & c & Hget & Hin & _ & Hp).
    vm_compute in Hget; inversion Hget; subst col.
    destruct Hin as [<- | [<- | []]]; vm_compute in Hp; discriminate.
Defined.

Lemma validate_actors_type_rule_witness :
  (exists errs,
     @validate_actors (fixture_env []) df_actor_bad = Ok (errs, []) /\
     In msg_type_non_int errs /\ ~ In msg_type_non_num errs) /\
  (exists errs,
     @validate_actors (fixture_env []) df_actor_text_type = Ok (errs, []) /\
     In msg_type_non_num errs).
Proof.
  split.
  - destruct (@validate_actors (fixture_env []) df_actor_bad)
      as [[errs warns] | e] eqn:E; [| vm_compute in E; discriminate].
    destruct (@validate_actors_type_rule (fixture_env []) df_actor_bad
                (nums [4; 4.5]%float) errs warns eq_refl eq_refl E)
      as (Hnum & Hint & _).
    assert (Hw : warns = []) by (vm_compute in E; now inversion E).
    subst warns; exists errs; split; [reflexivity | split].
    + apply Hint; split; reflexivity.
    + intros Hin; apply Hnum in Hin; vm_compute in Hin; discriminate.
  - destruct (@validate_actors (fixture_env []) df_actor_text_type)
      as [[errs warns] | e] eqn:E; [| vm_compute in E; discriminate].
    destruct (@validate_actors_type_rule (fixture_env []) df_actor_text_type
                [Str "car"; Str "car"] errs warns eq_refl eq_refl E)
      as (Hnum & _ & _).
    assert (Hw : warns = []) by (vm_compute in E; now inversion E).
    subst warns; exists errs; split; [reflexivity |].
    apply Hnum; reflexivity.
Defined.

(** ** The result of [evaluate] *)

Lemma mapM_project {A B C D E : Type} (f : A -> result B) (g : A -> B -> result C)
  (h : A -> B -> C -> D) (k : A -> B -> E) (proj : D -> E) :
  (forall a b c, proj (h a b c) = k a b) ->
  forall l res,
    mapM (fun a => b <- f a ;; c <- g a b ;; Ok (h a b c)) l = Ok res ->
    mapM (fun a => b <- f a ;; Ok (k a b)) l = Ok (map proj res).
Proof.
  intros Hp; induction l as [| a l IH]; cbn [mapM]; intros res H.
  - inversion H; reflexivity.
  - apply bind_ok in H as (d & Hd & H).
    apply bind_ok in H as (ds & Hds & H).
    inversion H; subst res.
    apply bind_ok in Hd as (b & Hb & Hd).
    apply bind_ok in Hd as (c & Hc & Hd).
    inversion Hd; subst d.
    rewrite Hb; cbn [bind]; rewrite (IH _ Hds); cbn [bind map].
    now rewrite Hp.
Qed.

Lemma select_first {A : Type} (p : cell -> bool) (steps : list cell)
  (ts : list A) (i : nat) (c : cell) (v : A) :
  nth_error steps i = Some c -> p c = true ->
  (forall j c', (j < i)%nat -> nth_error steps j = Some c' -> p c' = false) ->
  nth_error ts i = Some v ->
  exists rest, select (map p steps) ts = v :: rest.
Proof.
  revert steps ts; induction i as [| i IH]; intros [| s steps] [| t ts];
    simpl; try discriminate; intros Hc Hp Hbefore Hv.
  - inversion Hc; inversion Hv; subst; rewrite Hp; eauto.
  - rewrite (Hbefore 0%nat s) by (simpl; lia || reflexivity).
    apply (IH steps ts Hc Hp); [| exact Hv].
    intros j c' Hj Hn; apply (Hbefore (S j) c'); [lia | exact Hn].
Qed.

Section EvaluateResult.
Context {env : PyEnv}.

Lemma validate_actors_warns_nil (df : DataFrame) (errs warns : list string) :
  validate_actors df = Ok (errs, warns) -> warns = [].
Proof.
  unfold validate_actors.
  destruct (missing_cols ACTOR_REQUIRED_COLS df).
  - intros H.
    apply bind_ok in H as (e1 & _ & H).
    apply bind_ok in H as (e2 & _ & H).
    apply bind_ok in H as (e3 & _ & H).
    apply bind_ok in H as (e4 & _ & H).
    now inversion H.
  - intros H; now inversion H.
Qed.

(** X11: whenever [evaluate] returns, the result echoes the two
    identifiers, its errors are the errors of the vehicle validator
    followed, with an actor buffer, by those of the actor validator, its
    warnings are the warnings of the vehicle validator, [valid] holds
    exactly when there is no error, and without an actor buffer there is
    no actor. *)
Theorem evaluate_validation (vut_bytes : bytes) (actor_bytes : option bytes)
  (tc rid : string) (r : EvalResult) :
  evaluate vut_bytes actor_bytes tc rid = Ok r ->
  test_case_id r = tc /\ run_id r = rid /\
  (valid (validation r) = true <-> errors (validation r) = []) /\
  exists vut_df ve vw,
    load_vut vut_bytes = Ok vut_df /\
    validate_vut vut_df = Ok (ve, vw) /\
    warnings (validation r) = vw /\
    match actor_bytes with
    | None => errors (validation r) = ve /\ actors r = []
    | Some b =>
        exists actor_df ae,
          load_actors b = Ok actor_df /\
          validate_actors actor_df = Ok (ae, []) /\
          errors (validation r) = ve ++ ae
    end.
Proof.
  unfold evaluate; intros H.
  apply bind_ok in H as (vut_df & Hload & H).
  apply bind_ok in H as ([ve vw] & Hval & H).
  apply bind_ok in H as (vut_data & _ & H).
  apply bind_ok in H as ([[all_errors all_warnings] actors_result] & Hact & H).
  inversion H; subst r; clear H; cbn.
  split; [reflexivity | split; [reflexivity | split]].
  - destruct all_errors; simpl; split; intros H; congruence.
  - exists vut_df, ve, vw; split; [exact Hload | split; [exact Hval |]].
    destruct actor_bytes as [b |].
    + apply bind_ok in Hact as (actor_df & Hla & Hact).
      apply bind_ok in Hact as ([ae aw] & Hva & Hact).
      apply bind_ok in Hact as (entries & _ & Hact).
      pose proof (validate_actors_warns_nil _ _ _ Hva); subst aw.
      inversion Hact; subst; cbn [fst snd].
      split; [now rewrite app_nil_r |].
      exists actor_df, ae; auto.
    + inversion Hact; subst; cbn [fst snd]; auto.
Qed.

(** X12: whenever [evaluate] returns on an actor buffer, [extract_actors]
    returns on that buffer too, and its entries are those of the actors of
    the result, one for one and in the same order. *)
Theorem evaluate_actor_infos (vut_bytes b : bytes) (tc rid : string)
  (r : EvalResult) :
  evaluate vut_bytes (Some b) tc rid = Ok r ->
  extract_actors b = Ok (map entry_info (actors r)).
Proof.
  unfold evaluate; intros H.
  apply bind_ok in H as (vut_df & _ & H).
  apply bind_ok in H as (vv & _ & H).
  apply bind_ok in H as (vut_data & _ & H).
  apply bind_ok in H as ([[all_errors all_warnings] actors_result] & Hact & H).
  inversion H; subst r; clear H; cbn [actors].
  apply bind_ok in Hact as (actor_df & Hla & Hact).
  apply bind_ok in Hact as (av & _ & Hact).
  apply bind_ok in Hact as (entries & Hentries & Hact).
  inversion Hact; subst actors_result; clear Hact.
  unfold extract_actors; rewrite Hla; cbn [bind].
  unfold build_actors in Hentries.
  destruct (has_col actor_df "Actor_Id"); cbn [negb].
  - apply bind_ok in Hentries as (ids & Hids & Hentries).
    rewrite Hids; cbn [bind].
    unfold build_actor in Hentries.
    exact (mapM_project
             (fun aid => type_of_rows (rows_of actor_df ids aid))
             (fun aid _ => build_trajectory vut_df (rows_of actor_df ids aid))
             (fun aid atype tr => {| entry_info := actor_info aid atype;
                                     trajectory := tr |})
             actor_info entry_info (fun _ _ _ => eq_refl)
             (unique ids) entries Hentries).
  - inversion Hentries; reflexivity.
Qed.

(** X13: the time [step_time] gives to an actor step is the relative time
    of the first vehicle row whose [Step_number] equals it, rounded to four
    decimals, and 0.0 when no vehicle row has that step. *)
Theorem step_time_first_match (vut_df : DataFrame) (steps ts : list cell)
  (s : cell) :
  get_col vut_df "Step_number" = Ok steps ->
  get_col vut_df "t" = Ok ts ->
  (existsb (fun c => cell_eqb c s) steps = false ->
   step_time vut_df s = Ok 0%float) /\
  (forall i c v,
     nth_error steps i = Some c -> cell_eqb c s = true ->
     (forall j c', (j < i)%nat -> nth_error steps j = Some c' ->
                   cell_eqb c' s = false) ->
     nth_error ts i = Some v ->
     step_time vut_df s = (f <- py_float v ;; Ok (py_round f 4))).
Proof.
  intros Hsteps Hts; unfold step_time; rewrite Hsteps; cbn [bind].
  split.
  - intros ->; reflexivity.
  - intros i c v Hc Hp Hbefore Hv.
    assert (Hex : existsb (fun c => cell_eqb c s) steps = true).
    { apply existsb_exists; exists c; split; [| exact Hp].
      eapply nth_error_In; eassumption. }
    rewrite Hex, Hts; cbn [bind].
    destruct (select_first (fun c => cell_eqb c s) steps ts i c v
                Hc Hp Hbefore Hv) as [rest ->].
    reflexivity.
Qed.

End EvaluateResult.

Lemma evaluate_validation_witness :
  exists r,
    @evaluate (fixture_env upload_files) csv_time_back (Some csv_actor_bad)
              "TC1" "r0" = Ok r /\
    valid (validation r) = false /\
    errors (validation r)
    = [msg_time; msg_actor_heading; msg_type_non_int] /\
    warnings (validation r)
    = ["VUT_pos_lat has 2 NaN value(s)"; "VUT_heading has 1 NaN value(s)"].
Proof.
  destruct (@evaluate (fixture_env upload_files) csv_time_back
              (Some csv_actor_bad) "TC1" "r0") as [r | x] eqn:E;
    [| vm_compute in E; discriminate].
  destruct (@evaluate_validation (fixture_env upload_files) csv_time_back
              (Some csv_actor_bad) "TC1" "r0" r E)
    as (_ & _ & Hvalid & vut_df & ve & vw & Hload & Hval & Hw
        & actor_df & ae & Hla & Hva & He).
  assert (Hve : ve = [msg_time] /\
                vw = ["VUT_pos_lat has 2 NaN value(s)";
                      "VUT_heading has 1 NaN value(s)"]).
  { vm_compute in Hload; inversion Hload; subst vut_df.
    vm_compute in Hval; inversion Hval; split; reflexivity. }
  assert (Hae : ae = [msg_actor_heading; msg_type_non_int]).
  { vm_compute in Hla; inversion Hla; subst actor_df.
    vm_compute in Hva; inversion Hva; reflexivity. }
  destruct Hve as [-> ->]; subst ae.
  exists r; split; [reflexivity | split; [| split]].
  - destruct (valid (validation r)); [| reflexivity].
    rewrite (proj1 Hvalid eq_refl) in He; discriminate.
  - exact He.
  - exact Hw.
Defined.

Lemma evaluate_actor_infos_witness :
  exists r,
    @evaluate (fixture_env upload_files) csv_two_rows (Some csv_actor_345)
              "TC1" "r0" = Ok r /\
    map entry_info (actors r)
    = [ {| actor_id := "A1"; actor_type := 4;
           actor_type_name := "passenger_vehicle" |} ].
Proof.
  destruct (@evaluate (fixture_env upload_files) csv_two_rows
              (Some csv_actor_345) "TC1" "r0") as [r | x] eqn:E;
    [| vm_compute in E; discriminate].
  pose proof (@evaluate_actor_infos (fixture_env upload_files) csv_two_rows
                csv_actor_345 "TC1" "r0" r E) as H.
  exists r; split; [reflexivity |].
  assert (Hx : @extract_actors (fixture_env upload_files) csv_actor_345
               = Ok [ {| actor_id := "A1"; actor_type := 4;
                         actor_type_name := "passenger_vehicle" |} ])
    by (vm_compute; reflexivity).
  rewrite Hx in H; inversion H; reflexivity.
Defined.

Lemma step_time_first_match_witness :
  @step_time (fixture_env []) df_repeated_step (Num 2) = Ok 0.5%float /\
  @step_time (fixture_env []) df_repeated_step (Num 7) = Ok 0%float.
Proof.
  destruct (@step_time_first_match (fixture_env []) df_repeated_step
              (nums [1; 2; 2]%float) (nums [0; 0.5; 1]%float) (Num 2)
              eq_refl eq_refl) as [_ Hfirst].
  destruct (@step_time_first_match (fixture_env []) df_repeated_step
              (nums [1; 2; 2]%float) (nums [0; 0.5; 1]%float) (Num 7)
              eq_refl eq_refl) as [Hnone _].
  split.
  - rewrite (Hfirst 1%nat (Num 2) (Num 0.5) eq_refl eq_refl);
      [reflexivity | | reflexivity].
    intros [| j] c' Hj Hn; [| lia].
    inversion Hn; reflexivity.
  - apply Hnone; reflexivity.
Defined.

(** ** The upload handler *)

Lemma eqb_nan_l (x y : float) : is_nan x = true -> PrimFloat.eqb x y = false.
Proof.
  intros H; rewrite eqb_spec, (Prim2SF_nan x H); reflexivity.
Qed.

Lemma eqb_nan_r (x y : float) : is_nan y = true -> PrimFloat.eqb x y = false.
Proof.
  intros H; rewrite eqb_spec, (Prim2SF_nan y H).
  destruct (Prim2SF x); reflexivity.
Qed.

Lemma cell_eqb_na_r (c u : cell) : isna u = true -> cell_eqb c u = false.
Proof.
  destruct u as [y | t]; simpl; intros H; [| discriminate H].
  destruct c as [x | t]; [now apply eqb_nan_r | reflexivity].
Qed.

Lemma cell_same_na (c u : cell) :
  isna c = true -> cell_same c u = true -> isna u = true.
Proof.
  destruct c as [x | t]; simpl; intros H; [| discriminate H].
  unfold cell_same; destruct u as [y | t]; simpl.
  - rewrite (eqb_nan_l x y H), H; simpl; auto.
  - rewrite andb_false_r; intros H'; discriminate H'.
Qed.

Lemma select_none {A : Type} (p : cell -> bool) (ids : list cell)
  (col : list A) :
  (forall c, p c = false) -> select (map p ids) col = [].
Proof.
  intros Hp; revert col; induction ids as [| c ids IH]; intros [| a col];
    simpl; try reflexivity.
  rewrite Hp; apply IH.
Qed.

Lemma mapM_raise_some {A B : Type} (f : A -> result B) (l : list A) (a : A)
  (e : exn) :
  In a l -> f a = Raise e -> exists e', mapM f l = Raise e'.
Proof.
  induction l as [| h l IH]; simpl; intros Hin Ha; [contradiction |].
  destruct (f h) as [b | x] eqn:E; cbn [bind]; [| eauto].
  destruct Hin as [-> | Hin]; [congruence |].
  destruct (IH Hin Ha) as [e' ->]; cbn [bind]; eauto.
Qed.

Lemma bytes_eqb_eq (a b : bytes) : bytes_eqb a b = true <-> a = b.
Proof.
  revert b; induction a as [| x a IH]; intros [| y b]; simpl;
    try (split; [discriminate | congruence]); [tauto |].
  rewrite andb_true_iff, IH; split.
  - intros [Hx ->]; now rewrite (Byte.byte_dec_bl x y Hx).
  - intros H; inversion H; subst; split; [| reflexivity].
    now apply Byte.byte_dec_lb.
Qed.

Section Upload.
Context {env : PyEnv}.

(** The entries of the actors [build_actors] returns are those
    [extract_actors] computes from the same table. *)
Lemma build_actors_infos (vut_df actor_df : DataFrame) (b : bytes)
  (entries : list ActorEntry) :
  load_actors b = Ok actor_df ->
  build_actors vut_df actor_df = Ok entries ->
  extract_actors b = Ok (map entry_info entries).
Proof.
  intros Hla Hentries.
  unfold extract_actors; rewrite Hla; cbn [bind].
  unfold build_actors in Hentries.
  destruct (has_col actor_df "Actor_Id"); cbn [negb].
  - apply bind_ok in Hentries as (ids & Hids & Hentries).
    rewrite Hids; cbn [bind].
    unfold build_actor in Hentries.
    exact (mapM_project
             (fun aid => type_of_rows (rows_of actor_df ids aid))
             (fun aid _ => build_trajectory vut_df (rows_of actor_df ids aid))
             (fun aid atype tr => {| entry_info := actor_info aid atype;
                                     trajectory := tr |})
             actor_info entry_info (fun _ _ _ => eq_refl)
             (unique ids) entries Hentries).
  - inversion Hentries; reflexivity.
Qed.

(** X14: the upload handler keeps an actor buffer only when
    [extract_actors] returns at least one actor on it: the buffer then
    loads, and the loaded table has an identifier column with at least one
    row.  A buffer that fails to load, or whose table has no identifier
    column or no row, is treated as absent. *)
Theorem upload_keeps_actor_file (actor_bytes : option bytes) :
  (forall b, usable_actor_bytes actor_bytes = Some b ->
     actor_bytes = Some b /\
     exists df ids info infos,
       load_actors b = Ok df /\
       get_col df "Actor_Id" = Ok ids /\ ids <> [] /\
       extract_actors b = Ok (info :: infos) /\
       List.length (info :: infos) = List.length (unique ids)) /\
  (forall b, actor_bytes = Some b ->
     (exists e, load_actors b = Raise e) \/
     (exists df, load_actors b = Ok df /\
                 (has_col df "Actor_Id" = false \/
                  get_col df "Actor_Id" = Ok [])) ->
     usable_actor_bytes actor_bytes = None).
Proof.
  split.
  - intros b H; unfold usable_actor_bytes in H.
    destruct actor_bytes as [b' |]; [| discriminate].
    destruct (extract_actors b') as [[| info infos] | e] eqn:Hx;
      try discriminate.
    inversion H; subst b'; split; [reflexivity |].
    unfold extract_actors in Hx.
    apply bind_ok in Hx as (df & Hload & Hx).
    destruct (has_col df "Actor_Id") eqn:E; cbn [negb] in Hx;
      [| discriminate].
    apply bind_ok in Hx as (ids & Hids & Hx).
    exists df, ids, info, infos.
    split; [exact Hload | split; [exact Hids | split; [| split]]].
    + intros ->; discriminate.
    + unfold extract_actors; rewrite Hload; cbn [bind].
      now rewrite E, Hids.
    + now apply mapM_length in Hx.
  - intros b -> H; unfold usable_actor_bytes, extract_actors.
    destruct H as [[e ->] | (df & -> & [Hno | Hempty])]; cbn [bind].
    + reflexivity.
    + now rewrite Hno.
    + now rewrite (get_col_has _ _ _ Hempty), Hempty.
Qed.

(** X15: whenever [evaluate] returns on the buffers of a run, the
    validation the upload handler computed for these buffers is the
    validation of the result. *)
Theorem index_validation_agrees (exc_text : exn -> string)
  (vut_bytes : bytes) (actor_bytes : option bytes) (tc rid : string)
  (r : EvalResult) :
  evaluate vut_bytes actor_bytes tc rid = Ok r ->
  index_validation exc_text vut_bytes actor_bytes = validation r.
Proof.
  unfold evaluate, index_validation; intros H.
  apply bind_ok in H as (vut_df & -> & H).
  apply bind_ok in H as ([ve vw] & -> & H).
  apply bind_ok in H as (vut_data & _ & H).
  apply bind_ok in H as ([[all_errors all_warnings] actors_result] & Hact & H).
  inversion H; subst r; clear H; cbn [validation].
  destruct actor_bytes as [b |].
  - apply bind_ok in Hact as (actor_df & -> & Hact).
    apply bind_ok in Hact as ([ae aw] & -> & Hact).
    apply bind_ok in Hact as (entries & _ & Hact).
    inversion Hact; subst; reflexivity.
  - inversion Hact; subst; reflexivity.
Qed.

(** X16: the upload handler marks a run valid exactly when both loaders
    and both validators return on its buffers and neither validator
    reports an error; any exception of these four steps makes the run
    invalid. *)
Theorem index_validation_valid (exc_text : exn -> string)
  (vut_bytes : bytes) (actor_bytes : option bytes) :
  valid (index_validation exc_text vut_bytes actor_bytes) = true <->
  exists vut_df vw,
    load_vut vut_bytes = Ok vut_df /\
    validate_vut vut_df = Ok ([], vw) /\
    match actor_bytes with
    | None => True
    | Some b => exists actor_df aw,
                  load_actors b = Ok actor_df /\
                  validate_actors actor_df = Ok ([], aw)
    end.
Proof.
  unfold index_validation; split.
  - destruct (load_vut vut_bytes) as [vut_df | e] eqn:Hl; [| discriminate].
    destruct (validate_vut vut_df) as [[ve vw] | e] eqn:Hv; [| discriminate].
    destruct actor_bytes as [b |].
    + destruct (load_actors b) as [actor_df | e] eqn:Hla.
      * destruct (validate_actors actor_df) as [[ae aw] | e] eqn:Hva.
        -- destruct ve, ae; try discriminate.
           intros _; exists vut_df, vw; split; [reflexivity |].
           split; [exact Hv |].
           exists actor_df, aw; split; [reflexivity | exact Hva].
        -- destruct ve; discriminate.
      * destruct ve; discriminate.
    + destruct ve; [| discriminate].
      intros _; exists vut_df, vw; auto.
  - intros (vut_df & vw & -> & -> & H).
    destruct actor_bytes as [b |]; [| reflexivity].
    destruct H as (actor_df & aw & -> & ->); reflexivity.
Qed.

(** X17: [_read_tabular] hands a buffer to the Excel reader exactly when
    it starts with the four bytes [PK\x03\x04]; every other buffer,
    every buffer shorter than four bytes among them, goes to the CSV
    reader. *)
Theorem read_tabular_dispatch (file_bytes : bytes) :
  ((exists rest, file_bytes = XLSX_MAGIC ++ rest) ->
   _read_tabular file_bytes = read_excel file_bytes) /\
  ((forall rest, file_bytes <> XLSX_MAGIC ++ rest) ->
   _read_tabular file_bytes = read_csv file_bytes) /\
  ((List.length file_bytes < 4)%nat ->
   _read_tabular file_bytes = read_csv file_bytes).
Proof.
  unfold _read_tabular.
  assert (Hcsv : (forall rest, file_bytes <> XLSX_MAGIC ++ rest) ->
                 bytes_eqb (firstn 4 file_bytes) XLSX_MAGIC = false).
  { intros Hno.
    destruct (bytes_eqb (firstn 4 file_bytes) XLSX_MAGIC) eqn:E;
      [| reflexivity].
    apply bytes_eqb_eq in E; exfalso.
    apply (Hno (skipn 4 file_bytes)).
    now rewrite <- E, firstn_skipn. }
  split; [| split].
  - intros [rest ->].
    change (firstn 4 (XLSX_MAGIC ++ rest)) with XLSX_MAGIC.
    now rewrite (proj2 (bytes_eqb_eq XLSX_MAGIC XLSX_MAGIC) eq_refl).
  - intros Hno; now rewrite Hcsv.
  - intros Hlen; rewrite Hcsv; [reflexivity |].
    intros rest ->; rewrite length_app in Hlen; simpl in Hlen; lia.
Qed.

(** X18: one row without an identifier spoils an actor file that has a
    type column: [extract_actors] raises on it, so the upload handler
    treats the file as absent, and [evaluate] returns no result when given
    the buffer. *)
Theorem missing_actor_id_raises (b : bytes) (df : DataFrame)
  (ids : list cell) (c : cell) :
  load_actors b = Ok df ->
  get_col df "Actor_Id" = Ok ids ->
  In c ids -> isna c = true ->
  has_col df "Actor_type" = true ->
  (exists e, extract_actors b = Raise e) /\
  usable_actor_bytes (Some b) = None /\
  (forall vut_bytes tc rid,
     exists e, evaluate vut_bytes (Some b) tc rid = Raise e).
Proof.
  intros Hload Hids Hin Hna Hty.
  assert (Hx : exists e, extract_actors b = Raise e).
  { unfold extract_actors; rewrite Hload; cbn [bind].
    rewrite (get_col_has _ _ _ Hids), Hids; cbn [negb bind].
    destruct (unique_spec ids) as (Hcov & _ & _).
    specialize (Hcov c Hin).
    apply existsb_exists in Hcov as (u & Hu & Hsame).
    pose proof (cell_same_na c u Hna Hsame) as Hnu.
    apply (mapM_raise_some _ (unique ids) u IndexError Hu).
    unfold type_of_rows, rows_of.
    rewrite has_col_filter_rows, Hty, get_col_filter_rows.
    destruct (has_col_get _ _ Hty) as [types ->]; cbn [bind].
    rewrite select_none; [reflexivity |].
    intros c'; now apply cell_eqb_na_r. }
  split; [exact Hx | split].
  - unfold usable_actor_bytes; destruct Hx as [e ->]; reflexivity.
  - intros vut_bytes tc rid.
    destruct (evaluate vut_bytes (Some b) tc rid) as [r | e] eqn:E; [| eauto].
    exfalso; unfold evaluate in E.
    apply bind_ok in E as (vut_df & _ & E).
    apply bind_ok in E as (vv & _ & E).
    apply bind_ok in E as (vut_data & _ & E).
    apply bind_ok in E as (part & Hact & _).
    apply bind_ok in Hact as (actor_df & Hla & Hact).
    apply bind_ok in Hact as (av & _ & Hact).
    apply bind_ok in Hact as (entries & Hentries & _).
    pose proof (build_actors_infos vut_df actor_df b entries Hla Hentries).
    destruct Hx as [e He]; congruence.
Qed.

End Upload.

Lemma upload_keeps_actor_file_witness :
  @usable_actor_bytes (fixture_env upload_files) (Some csv_actor_345)
  = Some csv_actor_345 /\
  (exists df ids,
     @load_actors (fixture_env upload_files) csv_actor_345 = Ok df /\
     get_col df "Actor_Id" = Ok ids /\ ids <> []) /\
  @usable_actor_bytes (fixture_env upload_files) (Some csv_actor_header_only)
  = None /\
  @usable_actor_bytes (fixture_env upload_files) (Some csv_actor_no_id)
  = None.
Proof.
  assert (Hkeep : @usable_actor_bytes (fixture_env upload_files)
                    (Some csv_actor_345) = Some csv_actor_345)
    by (vm_compute; reflexivity).
  destruct (@upload_keeps_actor_file (fixture_env upload_files)
              (Some csv_actor_345)) as [Hsome _].
  destruct (Hsome csv_actor_345 Hkeep)
    as (_ & df & ids & info & infos & Hload & Hids & Hne & _).
  split; [exact Hkeep | split; [exists df, ids; auto | split]].
  - apply (proj2 (@upload_keeps_actor_file (fixture_env upload_files)
                    (Some csv_actor_header_only)) csv_actor_header_only
             eq_refl).
    right; exists (normalized df_actor_header_only); split;
      [vm_compute; reflexivity | right; reflexivity].
  - apply (proj2 (@upload_keeps_actor_file (fixture_env upload_files)
                    (Some csv_actor_no_id)) csv_actor_no_id eq_refl).
    right; exists (normalized df_actor_no_id); split;
      [vm_compute; reflexivity | left; reflexivity].
Defined.

Lemma index_validation_agrees_witness :
  exists r,
    @evaluate (fixture_env upload_files) csv_time_back (Some csv_actor_bad)
              "TC1" "r0" = Ok r /\
    @index_validation (fixture_env upload_files) exn_name csv_time_back
      (Some csv_actor_bad)
    = validation r.
Proof.
  destruct (@evaluate (fixture_env upload_files) csv_time_back
              (Some csv_actor_bad) "TC1" "r0") as [r | x] eqn:E;
    [| vm_compute in E; discriminate].
  exists r; split; [reflexivity |].
  exact (@index_validation_agrees (fixture_env upload_files) exn_name
           csv_time_back (Some csv_actor_bad) "TC1" "r0" r E).
Defined.

Lemma index_validation_valid_witness :
  valid (@index_validation (fixture_env upload_files) exn_name csv_two_rows
           (Some csv_actor_345)) = true /\
  valid (@index_validation (fixture_env upload_files) exn_name csv_two_rows
           (@usable_actor_bytes (fixture_env upload_files)
              (Some csv_actor_nan_id))) = true.
Proof.
  split.
  - apply (proj2 (@index_validation_valid (fixture_env upload_files) exn_name
                    csv_two_rows (Some csv_actor_345))).
    eexists _, _; split; [vm_compute; reflexivity |].
    split; [vm_compute; reflexivity |].
    eexists _, _; split; vm_compute; reflexivity.
  - change (@usable_actor_bytes (fixture_env upload_files)
              (Some csv_actor_nan_id)) with (@None bytes).
    apply (proj2 (@index_validation_valid (fixture_env upload_files) exn_name
                    csv_two_rows None)).
    eexists _, _; split; [vm_compute; reflexivity |].
    split; [vm_compute; reflexivity | exact I].
Defined.

Lemma read_tabular_dispatch_witness :
  @_read_tabular (fixture_env upload_files) (XLSX_MAGIC ++ csv_two_rows)
  = Raise ParseError /\
  @_read_tabular (fixture_env upload_files) [Byte.x50; Byte.x4b]
  = @read_csv (fixture_env upload_files) [Byte.x50; Byte.x4b].
Proof.
  split.
  - rewrite (proj1 (@read_tabular_dispatch (fixture_env upload_files)
                      (XLSX_MAGIC ++ csv_two_rows)));
      [reflexivity | eexists; reflexivity].
  - apply (proj2 (proj2 (@read_tabular_dispatch (fixture_env upload_files)
                           [Byte.x50; Byte.x4b]))).
    simpl; lia.
Defined.

Lemma missing_actor_id_raises_witness :
  (exists e, @extract_actors (fixture_env upload_files) csv_actor_nan_id
             = Raise e) /\
  @usable_actor_bytes (fixture_env upload_files) (Some csv_actor_nan_id)
  = None.
Proof.
  destruct (@missing_actor_id_raises (fixture_env upload_files)
              csv_actor_nan_id (normalized df_actor_nan_id)
              [Str "A1"; NaN] NaN)
    as (Hx & Hu & _).
  - vm_compute; reflexivity.
  - reflexivity.
  - simpl; tauto.
  - reflexivity.
  - reflexivity.
  - split; assumption.
Defined.

(** ** Values of an actor trajectory *)

Section TrajectoryValues.
Context {env : PyEnv}.

Lemma rounded_nth (ndigits : Z) (col : list cell) (arr : list float)
  (i : nat) (x : float) :
  rounded ndigits col = Ok arr -> nth_error col i = Some (Num x) ->
  nth_error arr i = Some (py_round x ndigits).
Proof.
  unfold rounded; intros H Hi.
  apply mapM_Forall2 in H.
  destruct (Forall2_nth_error _ _ _ _ _ H Hi) as (b & Hb & Hv).
  simpl in Hv; inversion Hv; subst; exact Hb.
Qed.

(** X19: in a trajectory [evaluate] builds for one actor, the latitude and
    the longitude at an index are the numbers of that actor's row rounded
    to six decimals, a missing one staying NaN where a missing heading
    becomes 0.0, and the time at an index is [step_time] of the row's
    [Step_number]. *)
Theorem trajectory_values (vut_df actor_df : DataFrame) (ids : list cell)
  (aid : cell) (tr : Trajectory) :
  build_trajectory vut_df (rows_of actor_df ids aid) = Ok tr ->
  let mask := map (fun c => cell_eqb c aid) ids in
  (forall col i x,
     get_col actor_df "Actor_pos_true_lat" = Ok col ->
     nth_error (select mask col) i = Some (Num x) ->
     nth_error (traj_lat tr) i = Some (py_round x 6)) /\
  (forall col i x,
     get_col actor_df "Actor_pos_true_lng" = Ok col ->
     nth_error (select mask col) i = Some (Num x) ->
     nth_error (traj_lng tr) i = Some (py_round x 6)) /\
  (forall col i s,
     get_col actor_df "Step_number" = Ok col ->
     nth_error (select mask col) i = Some s ->
     exists f, step_time vut_df s = Ok f /\
               nth_error (traj_t tr) i = Some f) /\
  (forall x ndigits, is_nan x = true -> py_round x ndigits = x).
Proof.
  unfold build_trajectory, rows_of; intros H; cbv zeta.
  rewrite !get_col_filter_rows in H.
  apply bind_ok in H as (lat_col & Hlatc & H).
  apply bind_ok in Hlatc as (lat_all & Hlat_all & Hlatc); inversion Hlatc;
    subst lat_col; clear Hlatc.
  apply bind_ok in H as (lat & Hlat & H).
  apply bind_ok in H as (lng_col & Hlngc & H).
  apply bind_ok in Hlngc as (lng_all & Hlng_all & Hlngc); inversion Hlngc;
    subst lng_col; clear Hlngc.
  apply bind_ok in H as (lng & Hlng & H).
  apply bind_ok in H as (heading & _ & H).
  apply bind_ok in H as (step_col & Hstepc & H).
  apply bind_ok in Hstepc as (step_all & Hstep_all & Hstepc); inversion Hstepc;
    subst step_col; clear Hstepc.
  apply bind_ok in H as (t & Ht & H).
  inversion H; subst tr; cbn [traj_lat traj_lng traj_t].
  split; [| split; [| split]].
  - intros col i x Hget Hi; rewrite Hlat_all in Hget; inversion Hget; subst.
    exact (rounded_nth _ _ _ _ _ Hlat Hi).
  - intros col i x Hget Hi; rewrite Hlng_all in Hget; inversion Hget; subst.
    exact (rounded_nth _ _ _ _ _ Hlng Hi).
  - intros col i s Hget Hi; rewrite Hstep_all in Hget; inversion Hget; subst.
    apply mapM_Forall2 in Ht.
    destruct (Forall2_nth_error _ _ _ _ _ Ht Hi) as (f & Hf & Hv); eauto.
  - intros x ndigits Hnan; unfold py_round, is_finite.
    now rewrite Hnan.
Qed.

Lemma unique_nonempty (ids : list cell) :
  ids <> [] -> exists u us, unique ids = u :: us.
Proof.
  destruct ids as [| c ids]; [congruence |]; intros _.
  unfold unique; simpl; eauto.
Qed.

(** X20: [evaluate] returns no result on an actor buffer whose table has an
    identifier column with at least one row and lacks the latitude, the
    longitude or the step column: the trajectory of the first actor cannot
    be built, although the actor validator reports the absent column as an
    error. *)
Theorem evaluate_needs_trajectory_columns (b : bytes) (df : DataFrame)
  (ids : list cell) (name : string) :
  load_actors b = Ok df ->
  get_col df "Actor_Id" = Ok ids -> ids <> [] ->
  In name ["Actor_pos_true_lat"; "Actor_pos_true_lng"; "Step_number"] ->
  has_col df name = false ->
  (forall vut_bytes tc rid,
     exists e, evaluate vut_bytes (Some b) tc rid = Raise e) /\
  (exists missing,
     validate_actors df = Ok ([msg_missing missing], []) /\ In name missing).
Proof.
  intros Hload Hids Hne Hname Hno; split.
  - intros vut_bytes tc rid.
    destruct (evaluate vut_bytes (Some b) tc rid) as [r | e] eqn:E; [| eauto].
    exfalso; unfold evaluate in E.
    apply bind_ok in E as (vut_df & _ & E).
    apply bind_ok in E as (vv & _ & E).
    apply bind_ok in E as (vut_data & _ & E).
    apply bind_ok in E as (part & Hact & _).
    rewrite Hload in Hact; cbn [bind] in Hact.
    apply bind_ok in Hact as (av & _ & Hact).
    apply bind_ok in Hact as (entries & Hentries & _).
    unfold build_actors in Hentries.
    rewrite (get_col_has _ _ _ Hids), Hids in Hentries; cbn [bind] in Hentries.
    destruct (unique_nonempty ids Hne) as (u & us & Hu).
    rewrite Hu in Hentries; cbn [mapM] in Hentries.
    apply bind_ok in Hentries as (entry & Hentry & _).
    unfold build_actor in Hentry.
    apply bind_ok in Hentry as (atype & _ & Hentry).
    apply bind_ok in Hentry as (tr & Htr & _).
    unfold build_trajectory, rows_of in Htr.
    rewrite !get_col_filter_rows in Htr.
    apply bind_ok in Htr as (lat_col & Hlatc & Htr).
    apply bind_ok in Hlatc as (lat_all & Hlat_all & _).
    apply bind_ok in Htr as (lat & _ & Htr).
    apply bind_ok in Htr as (lng_col & Hlngc & Htr).
    apply bind_ok in Hlngc as (lng_all & Hlng_all & _).
    apply bind_ok in Htr as (lng & _ & Htr).
    apply bind_ok in Htr as (heading & _ & Htr).
    apply bind_ok in Htr as (step_col & Hstepc & _).
    apply bind_ok in Hstepc as (step_all & Hstep_all & _).
    apply get_col_has in Hlat_all, Hlng_all, Hstep_all.
    simpl in Hname; destruct Hname as [<- | [<- | [<- | []]]]; congruence.
  - unfold validate_actors.
    destruct (missing_cols ACTOR_REQUIRED_COLS df) as [| m ms] eqn:Hm.
    + exfalso.
      destruct (missing_cols_nil _ df name Hm) as [col Hcol].
      * simpl in Hname |- *; tauto.
      * apply get_col_has in Hcol; congruence.
    + exists (m :: ms); split; [reflexivity |].
      rewrite <- Hm; apply missing_cols_spec; split; [| exact Hno].
      simpl in Hname |- *; tauto.
Qed.

End TrajectoryValues.

Lemma trajectory_values_witness :
  exists tr,
    @build_trajectory (fixture_env []) df_repeated_step
      (@rows_of df_actor_345 [Str "A1"; Str "A1"] (Str "A1")) = Ok tr /\
    nth_error (traj_lat tr) 0 = Some 1.5%float /\
    nth_error (traj_t tr) 1 = Some 0.5%float.
Proof.
  destruct (@build_trajectory (fixture_env []) df_repeated_step
              (@rows_of df_actor_345 [Str "A1"; Str "A1"] (Str "A1")))
    as [tr | e] eqn:E; [| vm_compute in E; discriminate].
  destruct (@trajectory_values (fixture_env []) df_repeated_step df_actor_345
              [Str "A1"; Str "A1"] (Str "A1") tr E)
    as (Hlat & _ & Ht & _).
  exists tr; split; [reflexivity | split].
  - exact (Hlat (nums [1.5; 1.5]%float) 0%nat 1.5%float eq_refl eq_refl).
  - destruct (Ht (nums [1; 2]%float) 1%nat (Num 2) eq_refl eq_refl)
      as (f & Hf & Hn).
    vm_compute in Hf; inversion Hf; subst f; exact Hn.
Defined.

Lemma evaluate_needs_trajectory_columns_witness :
  (exists e, @evaluate (fixture_env upload_files) csv_two_rows
               (Some csv_actor_no_lat) "TC1" "r0" = Raise e) /\
  @validate_actors (fixture_env upload_files) (normalized df_actor_no_lat)
  = Ok (["Missing required columns: Actor_pos_true_lat"], []).
Proof.
  destruct (@evaluate_needs_trajectory_columns (fixture_env upload_files)
              csv_actor_no_lat (normalized df_actor_no_lat) [Str "A1"]
              "Actor_pos_true_lat")
    as [Hraise _].
  - vm_compute; reflexivity.
  - reflexivity.
  - discriminate.
  - simpl; tauto.
  - reflexivity.
  - split; [apply Hraise | reflexivity].
Defined.
